(** * Gravity Wars: the simulation core of [src/app/page.tsx]

    A shallow embedding of the per-tick physics, energy, AI and collision
    code of the game client, and the properties its specification states
    about them.

    Conventions of the embedding.
    - A JavaScript [number] is modelled as a real number ([R]); [Math.sqrt],
      [Math.max], [Math.min] and [Math.floor] are [sqrt], [Rmax], [Rmin] and
      the integer part.  Rounding, [NaN] and the infinities have no
      counterpart: every division of the modelled code is guarded by a test
      on its divisor, except the tangent of [handleOrbitalMechanics], whose
      guard [distance > minOrbitDistance] bounds the divisor away from zero
      only when radii are not negative.
    - An optional field ([energy?: number]) is an [option]; the optional
      boolean [isGlowing] is only ever tested for truthiness and is a [bool]
      ([undefined] is [false]).
    - Objects are mutated in place through references held in the array
      [gameObjectsRef.current].  The array is a [list GameObject]; a
      reference to one of its elements is the element's index, and a
      mutation is a list update at that index.
    - [Math.random()] is an oracle [rnd : nat -> R] read at a counter that
      the code advances by one at each call; [Date.now()] is a parameter. *)

From stdpp Require Import base list gmap strings pretty.
From Stdlib Require Import Reals Lra Lia ZArith.

Open Scope R_scope.

(** ** Numbers *)

(** [Math.sqrt(dx * dx + dy * dy)], as every distance of the source is
    written. *)
Definition hypot (dx dy : R) : R := sqrt (dx * dx + dy * dy).

(** [Math.floor]. *)
Definition Math_floor (r : R) : R := IZR (Int_part r).

(** [a || d] for an optional number: [undefined] and [0] are falsy. *)
Definition or_default (a : option R) (d : R) : R :=
  match a with
  | Some v => if Req_dec_T v 0 then d else v
  | None => d
  end.

(** Truthiness of an optional number. *)
Definition truthy (a : option R) : bool :=
  match a with
  | Some v => if Req_dec_T v 0 then false else true
  | None => false
  end.

(** ** Game constants *)

Definition GRAVITY_CONSTANT : R := 1.5.
Definition MAX_VELOCITY : R := 4.
Definition ENERGY_DECAY_RATE : R := 0.08.
Definition GRAVITY_PULL_COST : R := 3.
Definition CHARGING_RADIUS : R := 400.
Definition GRAVITY_PULL_RADIUS : R := 250.
Definition GRAVITY_PULL_STRENGTH : R := 0.3.
Definition ORBITAL_ABSORPTION_RATE : R := 0.001.
Definition AI_GROWTH_RATE : R := 0.0002.
Definition AI_MAX_MASS : R := 40.
Definition ENERGY_ABSORPTION_RATE : R := 0.5.
Definition MASS_ABSORPTION_RATE : R := 0.8.

(** ** Data model *)

Inductive ObjectType : Set :=
| player | ai | debris | planet | star | blackhole | whitedwarf
| wormhole | pulsar | neutronstar | comet | asteroid | spacestation | anomaly.

Inductive AIState : Set := hunting | fleeing | exploring | charging.

Definition is_player (t : ObjectType) : bool :=
  match t with player => true | _ => false end.
Definition is_ai (t : ObjectType) : bool :=
  match t with ai => true | _ => false end.
Definition is_wormhole (t : ObjectType) : bool :=
  match t with wormhole => true | _ => false end.

(** [interface GameObject].  The fields that no modelled function reads or
    writes ([linkedWormhole], [isLandmark], [pulsePhase], the [orbit*]
    family and [aiTarget]) are left out. *)
Module Obj.
Record t : Type := mk {
  id : string;
  x : R;
  y : R;
  vx : R;
  vy : R;
  mass : R;
  radius : R;
  type : ObjectType;
  color : string;
  energy : option R;
  maxEnergy : option R;
  isGlowing : bool;
  chargingRate : option R;
  absorptionProgress : option R;
  lastMovementTime : option Z;
  aiState : option AIState
}.

Definition set_pos (nx ny : R) (o : t) : t :=
  mk (id o) nx ny (vx o) (vy o) (mass o) (radius o) (type o) (color o)
     (energy o) (maxEnergy o) (isGlowing o) (chargingRate o)
     (absorptionProgress o) (lastMovementTime o) (aiState o).

Definition set_vel (nvx nvy : R) (o : t) : t :=
  mk (id o) (x o) (y o) nvx nvy (mass o) (radius o) (type o) (color o)
     (energy o) (maxEnergy o) (isGlowing o) (chargingRate o)
     (absorptionProgress o) (lastMovementTime o) (aiState o).

Definition set_mass (m : R) (o : t) : t :=
  mk (id o) (x o) (y o) (vx o) (vy o) m (radius o) (type o) (color o)
     (energy o) (maxEnergy o) (isGlowing o) (chargingRate o)
     (absorptionProgress o) (lastMovementTime o) (aiState o).

Definition set_radius (r : R) (o : t) : t :=
  mk (id o) (x o) (y o) (vx o) (vy o) (mass o) r (type o) (color o)
     (energy o) (maxEnergy o) (isGlowing o) (chargingRate o)
     (absorptionProgress o) (lastMovementTime o) (aiState o).

Definition set_energy (e : option R) (o : t) : t :=
  mk (id o) (x o) (y o) (vx o) (vy o) (mass o) (radius o) (type o) (color o)
     e (maxEnergy o) (isGlowing o) (chargingRate o)
     (absorptionProgress o) (lastMovementTime o) (aiState o).

Definition set_absorptionProgress (p : R) (o : t) : t :=
  mk (id o) (x o) (y o) (vx o) (vy o) (mass o) (radius o) (type o) (color o)
     (energy o) (maxEnergy o) (isGlowing o) (chargingRate o)
     (Some p) (lastMovementTime o) (aiState o).

Definition set_lastMovementTime (n : Z) (o : t) : t :=
  mk (id o) (x o) (y o) (vx o) (vy o) (mass o) (radius o) (type o) (color o)
     (energy o) (maxEnergy o) (isGlowing o) (chargingRate o)
     (absorptionProgress o) (Some n) (aiState o).

Definition set_aiState (s : AIState) (o : t) : t :=
  mk (id o) (x o) (y o) (vx o) (vy o) (mass o) (radius o) (type o) (color o)
     (energy o) (maxEnergy o) (isGlowing o) (chargingRate o)
     (absorptionProgress o) (lastMovementTime o) (Some s).
End Obj.

Abbreviation GameObject := Obj.t.

(** Center distance of two objects, [Math.sqrt(dx * dx + dy * dy)] with
    [dx = b.x - a.x] and [dy = b.y - a.y]. *)
Definition distance (a b : GameObject) : R :=
  hypot (Obj.x b - Obj.x a) (Obj.y b - Obj.y a).

(** [a.id === b.id] *)
Definition same_id (a b : GameObject) : bool := String.eqb (Obj.id a) (Obj.id b).

(** [calculateRadius] *)
Definition calculateRadius (mass : R) (type : ObjectType) : R :=
  let baseRadius := sqrt mass * 1.2 in
  match type with
  | player | ai => Rmax 6 baseRadius
  | debris | asteroid => Rmax 2 (baseRadius * 0.8)
  | planet => Rmax 12 (baseRadius * 1.1)
  | star => Rmax 18 (baseRadius * 1.3)
  | blackhole => Rmax 20 (baseRadius * 1.4)
  | whitedwarf => Rmax 10 (baseRadius * 0.9)
  | wormhole => Rmax 12 baseRadius
  | pulsar => Rmax 15 (baseRadius * 1.1)
  | neutronstar => Rmax 8 (baseRadius * 0.7)
  | comet => Rmax 4 (baseRadius * 0.9)
  | spacestation => Rmax 8 (baseRadius * 1.0)
  | anomaly => baseRadius
  end.

Arguments calculateRadius : simpl never.

(** ** Orbital mechanics near glowing bodies *)

(** The keys currently held down ([keysRef.current], a [Set<string>] of
    lower-cased key names). *)
Definition has_key (keys : gset string) (k : string) : bool :=
  bool_decide (k ∈ keys).

Definition playerMoving (keys : gset string) : bool :=
  has_key keys "arrowleft" || has_key keys "arrowright" ||
  has_key keys "arrowup" || has_key keys "arrowdown" ||
  has_key keys "a" || has_key keys "d" || has_key keys "w" || has_key keys "s".

(** The body of the [forEach] of [handleOrbitalMechanics]: the effect of
    one element [glowingObj] of the array on the player [obj]. *)
Definition orbitalStep (keys : gset string) (obj glowingObj : GameObject)
  : GameObject :=
  if negb (Obj.isGlowing glowingObj) || same_id glowingObj obj then obj
  else
    let dx := Obj.x glowingObj - Obj.x obj in
    let dy := Obj.y glowingObj - Obj.y obj in
    let distance := hypot dx dy in
    let minOrbitDistance := Obj.radius glowingObj + Obj.radius obj + 10 in
    if Rlt_dec distance (Obj.radius glowingObj + Obj.radius obj + 50) then
      let obj1 :=
        if playerMoving keys then
          Obj.set_absorptionProgress
            (Rmax 0 (or_default (Obj.absorptionProgress obj) 0 - 0.01)) obj
        else
          let p := or_default (Obj.absorptionProgress obj) 0
                   + ORBITAL_ABSORPTION_RATE in
          let obj' := Obj.set_absorptionProgress p obj in
          if Rgt_dec p 1 then Obj.set_energy (Some 0) obj' else obj' in
      if Rgt_dec distance minOrbitDistance then
        let orbitForce := 0.02 in
        let tangentX := - dy / distance in
        let tangentY := dx / distance in
        Obj.set_vel (Obj.vx obj1 + tangentX * orbitForce)
                    (Obj.vy obj1 + tangentY * orbitForce) obj1
      else obj1
    else Obj.set_absorptionProgress 0 obj.

(** [handleOrbitalMechanics(obj, objects)]; the result is the new state of
    [obj], the only object the function writes. *)
Definition handleOrbitalMechanics (keys : gset string) (obj : GameObject)
    (objects : list GameObject) : GameObject :=
  if is_player (Obj.type obj) then fold_left (orbitalStep keys) objects obj
  else obj.

(** ** AI behaviour *)

(** The predicate of [nearbyObjects]. *)
Definition nearby (a obj : GameObject) : bool :=
  if same_id obj a then false
  else if Rlt_dec (distance a obj) 300 then true else false.

Definition smaller_prey (a obj : GameObject) : bool :=
  (if Rlt_dec (Obj.mass obj) (Obj.mass a) then true else false)
  && negb (Obj.isGlowing obj).

Definition larger_threat (a obj : GameObject) : bool :=
  if Rgt_dec (Obj.mass obj) (Obj.mass a) then true else false.

(** Steering of the charging and hunting branches: a push of size [force]
    from [a] toward [target], skipped at distance 0. *)
Definition steer_toward (force : R) (target a : GameObject) : GameObject :=
  let dx := Obj.x target - Obj.x a in
  let dy := Obj.y target - Obj.y a in
  let distance := hypot dx dy in
  if Rgt_dec distance 0 then
    Obj.set_vel (Obj.vx a + (dx / distance) * force)
                (Obj.vy a + (dy / distance) * force) a
  else a.

(** The body of the [forEach] of the fleeing branch. *)
Definition flee_from (a threat : GameObject) : GameObject :=
  let dx := Obj.x a - Obj.x threat in
  let dy := Obj.y a - Obj.y threat in
  let distance := hypot dx dy in
  if Rgt_dec distance 0 then
    if Rlt_dec distance 150 then
      let force := 0.15 in
      Obj.set_vel (Obj.vx a + (dx / distance) * force)
                  (Obj.vy a + (dy / distance) * force) a
    else a
  else a.

(** The [else] part of the decision of [updateAI]: fleeing, hunting or
    exploring, from the bodies in range. *)
Definition aiOtherwise (rnd : nat -> R) (k : nat) (a : GameObject)
    (nearbyObjects : list GameObject) : GameObject * nat :=
  let smallerObjects := List.filter (smaller_prey a) nearbyObjects in
  let largerObjects := List.filter (larger_threat a) nearbyObjects in
  match largerObjects with
  | _ :: _ =>
      (fold_left flee_from largerObjects (Obj.set_aiState fleeing a), k)
  | [] =>
      match smallerObjects with
      | target :: _ =>
          (steer_toward 0.08 target (Obj.set_aiState hunting a), k)
      | [] =>
          let a1 := Obj.set_aiState exploring a in
          if Rlt_dec (rnd k) 0.02 then
            (Obj.set_vel
               (Obj.vx a1 + (rnd (k + 1)%nat - 0.5) * 0.2)
               (Obj.vy a1 + (rnd (k + 2)%nat - 0.5) * 0.2) a1,
             (k + 3)%nat)
          else (a1, (k + 1)%nat)
      end
  end.

(** The decision of [updateAI], once the throttle has let the call through
    and the mass has grown: the [if / else if] chain on the three filtered
    lists.  [e] is the (truthy) energy; [k] is the counter of
    [Math.random()]. *)
Definition aiDecide (rnd : nat -> R) (k : nat) (e : R) (a : GameObject)
    (objects : list GameObject) : GameObject * nat :=
  let nearbyObjects := List.filter (nearby a) objects in
  let glowingObjects := List.filter Obj.isGlowing nearbyObjects in
  match glowingObjects with
  | target :: _ =>
      if Rlt_dec e 30 then
        (steer_toward 0.1 target (Obj.set_aiState charging a), k)
      else aiOtherwise rnd k a nearbyObjects
  | [] => aiOtherwise rnd k a nearbyObjects
  end.

(** The start of an [updateAI] call that the throttle lets through: the
    time stamp and the passive growth of mass, with its radius. *)
Definition grown (now : Z) (a : GameObject) : GameObject :=
  let a1 := Obj.set_lastMovementTime now a in
  if Rlt_dec (Obj.mass a1) AI_MAX_MASS then
    let m := Obj.mass a1 + AI_GROWTH_RATE in
    Obj.set_radius (calculateRadius m (Obj.type a1)) (Obj.set_mass m a1)
  else a1.

(** [updateAI(ai, objects)] at time [now = Date.now()]; the result is the
    new state of [ai], the only object the function writes, and the
    advanced counter of [Math.random()]. *)
Definition updateAI (now : Z) (rnd : nat -> R) (k : nat) (a : GameObject)
    (objects : list GameObject) : GameObject * nat :=
  match Obj.energy a with
  | None => (a, k)
  | Some e =>
      if Req_dec_T e 0 then (a, k)
      else if (now - default 0%Z (Obj.lastMovementTime a) <? 100)%Z then (a, k)
      else aiDecide rnd k e (grown now a) objects
  end.

(** ** Gravity *)

(** The body of the first [forEach] of [applyGravity]: the force
    accumulator [(fx, fy)] of [obj] after the element [other]. *)
Definition gravityAccum (obj : GameObject) (f : R * R) (other : GameObject)
  : R * R :=
  if same_id other obj then f
  else
    let dx := Obj.x other - Obj.x obj in
    let dy := Obj.y other - Obj.y obj in
    let distance := hypot dx dy in
    if Rgt_dec distance 0 then
      let force := (GRAVITY_CONSTANT * Obj.mass other) / (distance * distance) in
      let force := if Obj.isGlowing other then force * 1.3 else force in
      (fst f + (dx / distance) * force, snd f + (dy / distance) * force)
    else f.

(** What [playerRef.current] points to: nothing, the element of the array
    at an index, or an object that is not (or no longer) in the array. *)
Inductive PlayerRef : Type :=
| PNull
| PAt (i : nat)
| PDetached (o : GameObject).

Definition deref (pref : PlayerRef) (objects : list GameObject)
  : option GameObject :=
  match pref with
  | PNull => None
  | PAt i => objects !! i
  | PDetached o => Some o
  end.

(** The body of the second [forEach] of [applyGravity]: the pull of the
    player [obj] on the element [other]. *)
Definition pullOther (obj : GameObject) (pullStrength : R)
    (other : GameObject) : GameObject :=
  if same_id other obj
     || (if Rge_dec (Obj.mass other) (Obj.mass obj) then true else false)
  then other
  else
    let dx := Obj.x obj - Obj.x other in
    let dy := Obj.y obj - Obj.y other in
    let distance := hypot dx dy in
    if Rgt_dec distance 0 then
      if Rlt_dec distance GRAVITY_PULL_RADIUS then
        let pullForce := pullStrength / (distance * distance) in
        Obj.set_vel (Obj.vx other + (dx / distance) * pullForce)
                    (Obj.vy other + (dy / distance) * pullForce) other
      else other
    else other.

(** [playerRef.current?.energy! > 0] *)
Definition has_positive_energy (p : option GameObject) : bool :=
  match p with
  | Some q =>
      match Obj.energy q with
      | Some e => if Rgt_dec e 0 then true else false
      | None => false
      end
  | None => false
  end.

(** [playerRef.current!.energy! -= GRAVITY_PULL_COST * 0.016] *)
Definition pay_pull (q : GameObject) : GameObject :=
  match Obj.energy q with
  | Some e => Obj.set_energy (Some (e - GRAVITY_PULL_COST * 0.016)) q
  | None => q
  end.

(** The gravity-pull block of [applyGravity]: every element of the array is
    pulled, then the cost is taken from the object [playerRef.current]. *)
Definition gravityPull (pref : PlayerRef) (obj : GameObject)
    (objects : list GameObject) : list GameObject * PlayerRef :=
  match deref pref objects with
  | Some q =>
      let pullStrength := Obj.mass q * GRAVITY_PULL_STRENGTH in
      let objects1 := pullOther obj pullStrength <$> objects in
      match pref with
      | PAt pi => (alter pay_pull pi objects1, pref)
      | PDetached o => (objects1, PDetached (pay_pull o))
      | PNull => (objects1, pref)
      end
  | None => (objects, pref)
  end.

(** The end of [applyGravity]: the summed force is added to the velocity of
    [obj] and the speed is capped at [MAX_VELOCITY]. *)
Definition addForceAndClamp (f : R * R) (obj : GameObject) : GameObject :=
  let vx1 := Obj.vx obj + fst f in
  let vy1 := Obj.vy obj + snd f in
  let speed := hypot vx1 vy1 in
  if Rgt_dec speed MAX_VELOCITY then
    Obj.set_vel ((vx1 / speed) * MAX_VELOCITY) ((vy1 / speed) * MAX_VELOCITY) obj
  else Obj.set_vel vx1 vy1 obj.

(** [applyGravity(obj, objects)] for the element [obj] at index [i] of the
    array, under the ability flag [gravityPullActiveRef.current]. *)
Definition applyGravity (pullActive : bool) (pref : PlayerRef) (i : nat)
    (objects : list GameObject) : list GameObject * PlayerRef :=
  match objects !! i with
  | None => (objects, pref)
  | Some obj =>
      let f := fold_left (gravityAccum obj) objects (0, 0) in
      let '(objects1, pref1) :=
        if pullActive && String.eqb (Obj.id obj) "player"
           && has_positive_energy (deref pref objects)
        then gravityPull pref obj objects
        else (objects, pref) in
      (alter (addForceAndClamp f) i objects1, pref1)
  end.

(** ** Energy *)

(** The body of the [forEach] of [updateEnergy]: the energy [e] of [obj]
    after the element [other]; [maxE] is [obj.maxEnergy]. *)
Definition chargeStep (obj : GameObject) (maxE : R) (e : R)
    (other : GameObject) : R :=
  if negb (Obj.isGlowing other) || same_id other obj then e
  else
    let dx := Obj.x other - Obj.x obj in
    let dy := Obj.y other - Obj.y obj in
    let distance := hypot dx dy in
    if Rlt_dec distance CHARGING_RADIUS then
      if Rgt_dec distance (Obj.radius other + Obj.radius obj + 5) then
        let chargeRate := or_default (Obj.chargingRate other) 1
                          * (1 - distance / CHARGING_RADIUS) in
        Rmin maxE (e + chargeRate * 0.016)
      else e
    else e.

(** [updateEnergy(obj, objects)]; the result is the new state of [obj]. *)
Definition updateEnergy (obj : GameObject) (objects : list GameObject)
  : GameObject :=
  match Obj.energy obj, Obj.maxEnergy obj with
  | Some e, Some maxE =>
      let e0 := Rmax 0 (e - ENERGY_DECAY_RATE * 0.016) in
      Obj.set_energy (Some (fold_left (chargeStep obj maxE) objects e0)) obj
  | _, _ => obj
  end.

(** ** Space activities *)

Inductive ActivityType : Set :=
| derelictShip | ancientRelic | energyCrystal | spaceWhale | alienStructure.

(** [interface SpaceActivity], without [color] and [description], which are
    only drawn. *)
Module Act.
Record t : Type := mk {
  id : string;
  type : ActivityType;
  x : R;
  y : R;
  radius : R;
  reward : R;
  discovered : bool
}.

Definition set_discovered (b : bool) (a : t) : t :=
  mk (id a) (type a) (x a) (y a) (radius a) (reward a) b.
End Act.

Abbreviation SpaceActivity := Act.t.

(** What [handleSpaceActivities] reads and writes: the object
    [playerRef.current], the array [spaceActivitiesRef.current], the score
    and the list [discoveredActivities] (the two React states, whose queued
    updates are applied in order). *)
Record ActivityState : Type := mkActivityState {
  as_player : GameObject;
  as_activities : list SpaceActivity;
  as_score : R;
  as_discovered : list string
}.

(** [distance < activity.radius + player.radius && !activity.discovered] *)
Definition touches (pl : GameObject) (a : SpaceActivity) : bool :=
  (if Rlt_dec (hypot (Act.x a - Obj.x pl) (Act.y a - Obj.y pl))
              (Act.radius a + Obj.radius pl) then true else false)
  && negb (Act.discovered a).

(** The player after discovering [a]. *)
Definition collect (a : SpaceActivity) (pl : GameObject) : GameObject :=
  match Act.type a with
  | energyCrystal => Obj.set_energy (Obj.maxEnergy pl) pl
  | _ => pl
  end.

(** The [forEach] of [handleSpaceActivities] over the activities that are
    still to visit; [seen] holds the ones already visited, in order. *)
Fixpoint visitActivities (pl : GameObject) (score : R) (found : list string)
    (seen todo : list SpaceActivity) : ActivityState :=
  match todo with
  | [] => mkActivityState pl seen score found
  | a :: rest =>
      if touches pl a then
        visitActivities (collect a pl) (score + Act.reward a)
          (found ++ [Act.id a]) (seen ++ [Act.set_discovered true a]) rest
      else visitActivities pl score found (seen ++ [a]) rest
  end.

(** [handleSpaceActivities()] when [playerRef.current] is not null. *)
Definition handleSpaceActivities (st : ActivityState) : ActivityState :=
  visitActivities (as_player st) (as_score st) (as_discovered st) []
    (as_activities st).

(** ** Collisions *)

(** The state of one run of [handleCollisions]: the array (whose elements
    the run mutates), the two locals [toRemove] and [scoreIncrease], and the
    counter of [Math.random()]. *)
Record CollisionState : Type := mkCollisionState {
  cs_objects : list GameObject;
  cs_toRemove : list string;
  cs_scoreIncrease : R;
  cs_rand : nat
}.

(** [arr[Math.floor(r)]]: [undefined] when the index is out of range. *)
Definition at_floor {A : Type} (arr : list A) (r : R) : option A :=
  let z := Int_part r in
  if (z <? 0)%Z then None else arr !! Z.to_nat z.

(** The wormhole branch, for the player at index [j] in contact with the
    wormhole [obj1].  [wormholes] is [wormholesRef.current], whose elements
    are created with type [wormhole] and so are not moved by the run.
    [None] when [targetWormhole] is [undefined] and reading its [x]
    throws. *)
Definition teleport (wormholes : list GameObject) (rnd : nat -> R)
    (obj1 obj2 : GameObject) (j : nat) (st : CollisionState)
  : option CollisionState :=
  let availableWormholes :=
    List.filter (fun w => negb (same_id w obj1)) wormholes in
  match availableWormholes with
  | [] => Some st
  | _ :: _ =>
      let k := cs_rand st in
      match at_floor availableWormholes
              (rnd k * INR (length availableWormholes)) with
      | None => None
      | Some targetWormhole =>
          let moved :=
            Obj.set_pos (Obj.x targetWormhole + (rnd (k + 1)%nat - 0.5) * 100)
                        (Obj.y targetWormhole + (rnd (k + 2)%nat - 0.5) * 100)
                        obj2 in
          let slowed :=
            Obj.set_vel (Obj.vx moved * 0.5) (Obj.vy moved * 0.5) moved in
          Some (mkCollisionState (<[j := slowed]> (cs_objects st))
                  (cs_toRemove st) (cs_scoreIncrease st) (k + 3)%nat)
      end
  end.

(** [(o.absorptionProgress || 0) > 1] *)
Definition at_risk (o : GameObject) : bool :=
  if Rgt_dec (or_default (Obj.absorptionProgress o) 0) 1 then true else false.

(** The regular absorption of [smaller] (at index [si]) by [larger] (at
    index [li]).  [None] when [larger.maxEnergy] is [undefined] where it is
    read: [Math.min] then yields [NaN]. *)
Definition absorb (li : nat) (larger smaller : GameObject)
    (st : CollisionState) : option CollisionState :=
  if negb (Obj.isGlowing smaller) && negb (Obj.isGlowing larger) then
    let m := Obj.mass larger + Obj.mass smaller * MASS_ABSORPTION_RATE in
    let larger1 :=
      Obj.set_radius (calculateRadius m (Obj.type larger))
        (Obj.set_mass m larger) in
    let larger2 :=
      if truthy (Obj.energy larger1) && truthy (Obj.energy smaller) then
        match Obj.energy larger1, Obj.energy smaller, Obj.maxEnergy larger1 with
        | Some el, Some es, Some maxE =>
            Some (Obj.set_energy
                    (Some (Rmin maxE (el + es * ENERGY_ABSORPTION_RATE)))
                    larger1)
        | _, _, _ => None
        end
      else Some larger1 in
    match larger2 with
    | None => None
    | Some l2 =>
        let score :=
          if String.eqb (Obj.id l2) "player"
          then cs_scoreIncrease st + Math_floor (Obj.mass smaller * 20)
          else cs_scoreIncrease st in
        Some (mkCollisionState (<[li := l2]> (cs_objects st))
                (cs_toRemove st ++ [Obj.id smaller]) score (cs_rand st))
    end
  else Some st.

(** The body of the inner loop of [handleCollisions] for the indices
    [i < j]. *)
Definition collidePair (wormholes : list GameObject) (rnd : nat -> R)
    (i j : nat) (st : CollisionState) : option CollisionState :=
  match cs_objects st !! i, cs_objects st !! j with
  | Some obj1, Some obj2 =>
      if Rlt_dec (distance obj1 obj2) (Obj.radius obj1 + Obj.radius obj2) then
        if is_wormhole (Obj.type obj1) && is_player (Obj.type obj2) then
          teleport wormholes rnd obj1 obj2 j st
        else if Obj.isGlowing obj1 && is_player (Obj.type obj2) && at_risk obj2
        then
          Some (mkCollisionState
                  (<[j := Obj.set_energy (Some 0) obj2]> (cs_objects st))
                  (cs_toRemove st) (cs_scoreIncrease st) (cs_rand st))
        else if Obj.isGlowing obj2 && is_player (Obj.type obj1) && at_risk obj1
        then
          Some (mkCollisionState
                  (<[i := Obj.set_energy (Some 0) obj1]> (cs_objects st))
                  (cs_toRemove st) (cs_scoreIncrease st) (cs_rand st))
        else if Rgt_dec (Obj.mass obj1) (Obj.mass obj2) then
          absorb i obj1 obj2 st
        else absorb j obj2 obj1 st
      else Some st
  | _, _ => Some st
  end.

(** The index pairs of the two nested [for] loops, in the order the loops
    visit them. *)
Definition pairs (n : nat) : list (nat * nat) :=
  flat_map (fun i => map (pair i) (seq (S i) (n - S i))) (seq 0 n).

Fixpoint runPairs (wormholes : list GameObject) (rnd : nat -> R)
    (ps : list (nat * nat)) (st : CollisionState) : option CollisionState :=
  match ps with
  | [] => Some st
  | (i, j) :: rest =>
      match collidePair wormholes rnd i j st with
      | Some st' => runPairs wormholes rnd rest st'
      | None => None
      end
  end.

(** [handleCollisions(objects)], with the counter [k] of [Math.random()].
    The result carries [toRemove] and [scoreIncrease], and the array as the
    run leaves it. *)
Definition handleCollisions (wormholes : list GameObject) (rnd : nat -> R)
    (k : nat) (objects : list GameObject) : option CollisionState :=
  runPairs wormholes rnd (pairs (length objects))
    (mkCollisionState objects [] 0 k).

(** [objects.filter((obj) => !toRemove.includes(obj.id))] *)
Definition removeAll (toRemove : list string) (objects : list GameObject)
  : list GameObject :=
  List.filter (fun o => negb (existsb (String.eqb (Obj.id o)) toRemove)) objects.

(** ** The tick *)

(** What the per-object part of [gameLoop] reads and writes: the array, the
    reference [playerRef.current] and the counter of [Math.random()]. *)
Record World : Type := mkWorld {
  w_objects : list GameObject;
  w_playerRef : PlayerRef;
  w_rand : nat
}.

(** [if (obj.type === "ai") updateAI(obj, objects)] for the element at
    index [i]. *)
Definition aiPhase (now : Z) (rnd : nat -> R) (i : nat) (w : World) : World :=
  match w_objects w !! i with
  | None => w
  | Some obj =>
      if is_ai (Obj.type obj) then
        let '(a, k) := updateAI now rnd (w_rand w) obj (w_objects w) in
        mkWorld (<[i := a]> (w_objects w)) (w_playerRef w) k
      else w
  end.

(** [if (!obj.isGlowing || obj.type === "wormhole") applyGravity(obj, objects)]
    for the element at index [i]. *)
Definition gravityPhase (pullActive : bool) (i : nat) (w : World) : World :=
  match w_objects w !! i with
  | None => w
  | Some obj =>
      if negb (Obj.isGlowing obj) || is_wormhole (Obj.type obj) then
        let '(objects1, pref1) :=
          applyGravity pullActive (w_playerRef w) i (w_objects w) in
        mkWorld objects1 pref1 (w_rand w)
      else w
  end.

(** [obj.x += obj.vx; obj.y += obj.vy; obj.vx *= 0.998; obj.vy *= 0.998] *)
Definition integrate (o : GameObject) : GameObject :=
  let o1 := Obj.set_pos (Obj.x o + Obj.vx o) (Obj.y o + Obj.vy o) o in
  Obj.set_vel (Obj.vx o1 * 0.998) (Obj.vy o1 * 0.998) o1.

(** The rest of the callback: orbital mechanics, energy, integration. *)
Definition motionPhase (keys : gset string) (i : nat) (w : World) : World :=
  match w_objects w !! i with
  | None => w
  | Some obj =>
      let obj1 := handleOrbitalMechanics keys obj (w_objects w) in
      let objects1 := <[i := obj1]> (w_objects w) in
      let obj2 := updateEnergy obj1 objects1 in
      mkWorld (<[i := integrate obj2]> objects1) (w_playerRef w) (w_rand w)
  end.

(** The callback of [objects.forEach] in [gameLoop], for the element at
    index [i]; [now i] is what [Date.now()] returns while it is visited. *)
Definition bodyStep (pullActive : bool) (keys : gset string) (now : nat -> Z)
    (rnd : nat -> R) (w : World) (i : nat) : World :=
  motionPhase keys i (gravityPhase pullActive i (aiPhase (now i) rnd i w)).

(** The "Physics and AI" loop of [gameLoop]. *)
Definition physicsPass (pullActive : bool) (keys : gset string)
    (now : nat -> Z) (rnd : nat -> R) (w : World) : World :=
  fold_left (bodyStep pullActive keys now rnd)
    (seq 0 (length (w_objects w))) w.

(** ** The collision phase of the tick *)

(** What the "Collisions" lines of [gameLoop] yield: the filtered array, the
    filtered [wormholesRef.current], the new score and the counter of
    [Math.random()]. *)
Record AfterCollisions : Type := mkAfterCollisions {
  ac_objects : list GameObject;
  ac_wormholes : list GameObject;
  ac_score : R;
  ac_rand : nat
}.

(** The "Collisions" lines of [gameLoop]: [handleCollisions], the two
    filters on [toRemove], and [setScore] when [scoreIncrease > 0]. *)
Definition collisionPhase (wormholes : list GameObject) (rnd : nat -> R)
    (k : nat) (score : R) (objects : list GameObject)
  : option AfterCollisions :=
  match handleCollisions wormholes rnd k objects with
  | None => None
  | Some st =>
      Some (mkAfterCollisions
              (removeAll (cs_toRemove st) (cs_objects st))
              (removeAll (cs_toRemove st) wormholes)
              (if Rgt_dec (cs_scoreIncrease st) 0
               then score + cs_scoreIncrease st else score)
              (cs_rand st))
  end.

(** ** The compass: gravity forces on the player *)

(** [Math.atan2(y, x)] on real numbers: the angle in [(-PI, PI]] of the
    vector [(x, y)]; [0] for the null vector (signed zeros have no
    counterpart). *)
Definition atan2 (y x : R) : R :=
  if Rgt_dec x 0 then atan (y / x)
  else if Rlt_dec x 0 then
    if Rge_dec y 0 then atan (y / x) + PI else atan (y / x) - PI
  else if Rgt_dec y 0 then PI / 2
  else if Rlt_dec y 0 then - (PI / 2)
  else 0.

(** [interface GravityForce].  [source] is a reference to the object, which
    only the drawing code follows; it is modelled by the object as it is
    when the force is computed. *)
Record GravityForce : Type := mkGravityForce {
  gf_direction : R;
  gf_strength : R;
  gf_source : GameObject;
  gf_color : string
}.

(** The colour of a force by the type of its source, or by its size. *)
Definition forceColor (t : ObjectType) (force : R) : string :=
  match t with
  | blackhole => "#ff0066"
  | star => "#ffaa00"
  | pulsar => "#00ffaa"
  | neutronstar => "#aaaaff"
  | whitedwarf => "#ffffff"
  | wormhole => "#9966ff"
  | spacestation => "#cccccc"
  | _ => if Rgt_dec force 2 then "#0088ff" else "#00ff00"
  end.

(** The body of the [forEach] of [calculateGravityForces]: the forces
    pushed for the element [obj], none or one. *)
Definition forceOf (targetObject obj : GameObject) : list GravityForce :=
  if same_id obj targetObject then []
  else
    let dx := Obj.x obj - Obj.x targetObject in
    let dy := Obj.y obj - Obj.y targetObject in
    let distance := hypot dx dy in
    if Rgt_dec distance 0 then
      if Rlt_dec distance 600 then
        let force := (GRAVITY_CONSTANT * Obj.mass obj) / (distance * distance) in
        let direction := atan2 dy dx in
        [mkGravityForce direction (Rmin force 15) obj
           (forceColor (Obj.type obj) force)]
      else []
    else [].

(** [calculateGravityForces(targetObject, objects)] *)
Definition calculateGravityForces (targetObject : GameObject)
    (objects : list GameObject) : list GravityForce :=
  flat_map (forceOf targetObject) objects.

(** ** Player input *)




(** The test that opens [gameLoop]: there is no object with id ["player"],
    or the first one has energy at or below 0 ([undefined <= 0] is
    false). *)
Definition isGameOver (objects : list GameObject) : bool :=
  match List.find (fun o => String.eqb (Obj.id o) "player") objects with
  | None => true
  | Some currentPlayer =>
      match Obj.energy currentPlayer with
      | Some e => if Rle_dec e 0 then true else false
      | None => false
      end
  end.

(** ** World population *)

(** The generators read [Math.random()] at the counter [k] and [Date.now()]
    at the counter [c], each through an oracle that the code advances by one
    per call.  Ids are template strings of integers, printed in decimal; a
    template that prints a fraction ([Math.random()] in an id, a hue in a
    colour) goes through [show], the conversion of a number to a string,
    which is a parameter. *)

(** [ `${prefix}-${Date.now()}-${i}` ] *)
Definition stamped_id (prefix : string) (now : Z) (i : nat) : string :=
  prefix +:+ "-" +:+ pretty now +:+ "-" +:+ pretty i.

(** [ `hsl(${hue}, ${rest}` ] *)
Definition hsl (show : R -> string) (hue : R) (rest : string) : string :=
  "hsl(" +:+ show hue +:+ ", " +:+ rest.

(** The object that one turn of the loop of [generateAIPlayers] pushes. *)
Definition newAI (rnd : nat -> R) (clock : nat -> Z) (show : R -> string)
    (k c : nat) (pl : GameObject) (i : nat) : GameObject :=
  let angle := rnd k * PI * 2 in
  let distance := 400 + rnd (k + 1)%nat * 600 in
  let mass := 4 + rnd (k + 2)%nat * 6 in
  Obj.mk (stamped_id "ai" (clock c) i)
    (Obj.x pl + cos angle * distance)
    (Obj.y pl + sin angle * distance)
    ((rnd (k + 3)%nat - 0.5) * 2)
    ((rnd (k + 4)%nat - 0.5) * 2)
    mass (calculateRadius mass ai) ai
    (hsl show (rnd (k + 5)%nat * 360) "70%, 60%)")
    (Some (40 + rnd (k + 6)%nat * 40)) (Some 100) false None None
    (Some (clock (c + 1)%nat)) (Some exploring).

(** The array and the two counters, as a generator leaves them. *)
Record Spawned : Type := mkSpawned {
  sp_objects : list GameObject;
  sp_rand : nat;
  sp_clock : nat
}.

(** [generateAIPlayers()]; [playerRef] is the object [playerRef.current],
    if any. *)
Definition generateAIPlayers (rnd : nat -> R) (clock : nat -> Z)
    (show : R -> string) (k c : nat) (playerRef : option GameObject)
    (objects : list GameObject) : Spawned :=
  match playerRef with
  | None => mkSpawned objects k c
  | Some pl =>
      let existingAI := List.filter (fun o => is_ai (Obj.type o)) objects in
      if (length existingAI <? 8)%nat then
        fold_left
          (fun s i =>
             mkSpawned
               (sp_objects s ++ [newAI rnd clock show (sp_rand s) (sp_clock s) pl i])
               (sp_rand s + 7) (sp_clock s + 2))
          (seq 0 3) (mkSpawned objects k c)
      else mkSpawned objects k c
  end.

(** ** Cosmic events *)

Inductive EventType : Set :=
| solarFlare | meteorShower | wormholeStorm | solarWind | coronalMassEjection
| magneticStorm | nebula | asteroidBelt | quantumAnomaly.

(** [interface CosmicEvent] *)
Module Ev.
Record t : Type := mk {
  id : string;
  type : EventType;
  x : R;
  y : R;
  vx : option R;
  vy : option R;
  duration : R;
  timeLeft : R;
  radius : R;
  direction : option R;
  intensity : option R;
  rewards : option R
}.

Definition set_timeLeft (tl : R) (e : t) : t :=
  mk (id e) (type e) (x e) (y e) (vx e) (vy e) (duration e) tl (radius e)
     (direction e) (intensity e) (rewards e).
End Ev.

Abbreviation CosmicEvent := Ev.t.

(** The array [eventTypes] of [generateCosmicEvents]. *)
Definition eventTypes : list EventType :=
  [solarFlare; meteorShower; wormholeStorm; solarWind; coronalMassEjection;
   magneticStorm; nebula; asteroidBelt; quantumAnomaly].

(** The two [if]s on [rewards]. *)
Definition eventRewards (t : EventType) : R :=
  match t with
  | quantumAnomaly => 100
  | nebula => 50
  | _ => 0
  end.

(** What a generator of the events leaves: the events, the objects and the
    two counters. *)
Record Weather : Type := mkWeather {
  we_events : list CosmicEvent;
  we_objects : list GameObject;
  we_rand : nat;
  we_clock : nat
}.

(** [generateCosmicEvents()].  The first draw decides whether an event is
    made at all; [playerRef] is looked at after it.  [None] when
    [eventType] is [undefined]: the code goes on with it, outside of the
    nine types. *)
Definition generateCosmicEvents (rnd : nat -> R) (clock : nat -> Z)
    (playerRef : option GameObject) (w : Weather) : option Weather :=
  let k := we_rand w in
  if Rlt_dec (rnd k) 0.004 then
    match playerRef with
    | None => Some (mkWeather (we_events w) (we_objects w) (k + 1) (we_clock w))
    | Some pl =>
        match at_floor eventTypes
                (rnd (k + 1)%nat * INR (length eventTypes)) with
        | None => None
        | Some eventType =>
            let angle := rnd (k + 2)%nat * PI * 2 in
            let distance := 300 + rnd (k + 3)%nat * 500 in
            let rewards := eventRewards eventType in
            let event :=
              Ev.mk ("event-" +:+ pretty (clock (we_clock w))) eventType
                (Obj.x pl + cos angle * distance)
                (Obj.y pl + sin angle * distance)
                (Some ((rnd (k + 4)%nat - 0.5) * 4))
                (Some ((rnd (k + 5)%nat - 0.5) * 4))
                (8 + rnd (k + 6)%nat * 8)
                (8 + rnd (k + 7)%nat * 8)
                (80 + rnd (k + 8)%nat * 100)
                (Some angle)
                (Some (0.5 + rnd (k + 9)%nat * 0.5))
                (Some rewards) in
            Some (mkWeather (we_events w ++ [event]) (we_objects w)
                    (k + 10) (we_clock w + 1))
        end
    end
  else Some (mkWeather (we_events w) (we_objects w) (k + 1) (we_clock w)).

(** [ `${prefix}-${Date.now()}-${Math.random()}` ] *)
Definition random_id (show : R -> string) (prefix : string) (now : Z) (r : R)
  : string :=
  prefix +:+ "-" +:+ pretty now +:+ "-" +:+ show r.

(** The body a live meteor shower or asteroid belt may drop: with the
    chance [chance] one body of type [t] and mass [base + r * spread], at
    [event] give or take half its radius, at a velocity up to
    [speed / 2] per axis. *)
Definition dropBody (rnd : nat -> R) (clock : nat -> Z) (show : R -> string)
    (chance base spread speed : R) (prefix : string) (t : ObjectType)
    (color : string) (event : CosmicEvent)
    (st : list GameObject * nat * nat) : list GameObject * nat * nat :=
  let '(objects, k, c) := st in
  if Rlt_dec (rnd k) chance then
    let mass := base + rnd (k + 1)%nat * spread in
    let body :=
      Obj.mk (random_id show prefix (clock c) (rnd (k + 2)%nat))
        (Ev.x event + (rnd (k + 3)%nat - 0.5) * Ev.radius event)
        (Ev.y event + (rnd (k + 4)%nat - 0.5) * Ev.radius event)
        ((rnd (k + 5)%nat - 0.5) * speed)
        ((rnd (k + 6)%nat - 0.5) * speed)
        mass (calculateRadius mass t) t color
        None None false None None None None in
    (objects ++ [body], (k + 7)%nat, (c + 1)%nat)
  else (objects, (k + 1)%nat, c).

(** The callback of the [filter] of [updateCosmicEvents] for one event: the
    event with its time run down, whether it is kept, and the objects and
    counters after it. *)
Definition ageEvent (rnd : nat -> R) (clock : nat -> Z) (show : R -> string)
    (event : CosmicEvent) (st : list GameObject * nat * nat)
  : CosmicEvent * bool * (list GameObject * nat * nat) :=
  let event1 := Ev.set_timeLeft (Ev.timeLeft event - 0.016) event in
  let alive := if Rgt_dec (Ev.timeLeft event1) 0 then true else false in
  let st1 :=
    match Ev.type event1 with
    | meteorShower =>
        if alive then
          dropBody rnd clock show 0.15 1.5 2.5 4 "meteor" debris "#ffcc66"
            event1 st
        else st
    | asteroidBelt =>
        if alive then
          dropBody rnd clock show 0.1 2 4 3 "asteroid" asteroid "#996633"
            event1 st
        else st
    | _ => st
    end in
  (event1, alive, st1).

(** [updateCosmicEvents()] *)
Fixpoint ageEvents (rnd : nat -> R) (clock : nat -> Z) (show : R -> string)
    (events : list CosmicEvent) (st : list GameObject * nat * nat)
  : list CosmicEvent * (list GameObject * nat * nat) :=
  match events with
  | [] => ([], st)
  | event :: rest =>
      let '(event1, alive, st1) := ageEvent rnd clock show event st in
      let '(kept, st2) := ageEvents rnd clock show rest st1 in
      (if alive then event1 :: kept else kept, st2)
  end.

Definition updateCosmicEvents (rnd : nat -> R) (clock : nat -> Z)
    (show : R -> string) (w : Weather) : Weather :=
  let '(kept, (objects, k, c)) :=
    ageEvents rnd clock show (we_events w)
      (we_objects w, we_rand w, we_clock w) in
  mkWeather kept objects k c.

(** ** Space activities *)

(** The table [activityTypes], without the colours and descriptions, which
    are only drawn. *)
Definition activityTypes : list (ActivityType * R) :=
  [(derelictShip, 50); (ancientRelic, 100); (energyCrystal, 75);
   (spaceWhale, 150); (alienStructure, 200)].

(** The filter of [nearbyActivities]: [distance < 1200]. *)
Definition activity_nearby (pl : GameObject) (a : SpaceActivity) : bool :=
  if Rlt_dec (hypot (Act.x a - Obj.x pl) (Act.y a - Obj.y pl)) 1200
  then true else false.

(** The activity that one turn of the loop of [generateSpaceActivities]
    pushes; [None] when [activityType] is [undefined] and reading its
    [type] throws. *)
Definition newActivity (rnd : nat -> R) (clock : nat -> Z) (k c : nat)
    (pl : GameObject) (i : nat) : option SpaceActivity :=
  let angle := rnd k * PI * 2 in
  let distance := 500 + rnd (k + 1)%nat * 700 in
  match at_floor activityTypes
          (rnd (k + 2)%nat * INR (length activityTypes)) with
  | None => None
  | Some (t, reward) =>
      Some (Act.mk (stamped_id "activity" (clock c) i) t
              (Obj.x pl + cos angle * distance)
              (Obj.y pl + sin angle * distance)
              (15 + rnd (k + 3)%nat * 10) reward false)
  end.

(** The array [spaceActivitiesRef.current] and the two counters. *)
Record Seeded : Type := mkSeeded {
  se_activities : list SpaceActivity;
  se_rand : nat;
  se_clock : nat
}.

(** [generateSpaceActivities()] *)
Definition generateSpaceActivities (rnd : nat -> R) (clock : nat -> Z)
    (playerRef : option GameObject) (s : Seeded) : option Seeded :=
  match playerRef with
  | None => Some s
  | Some pl =>
      let nearbyActivities :=
        List.filter (activity_nearby pl) (se_activities s) in
      if (length nearbyActivities <? 3)%nat then
        fold_left
          (fun acc i =>
             match acc with
             | None => None
             | Some s1 =>
                 match newActivity rnd clock (se_rand s1) (se_clock s1) pl i with
                 | None => None
                 | Some a =>
                     Some (mkSeeded (se_activities s1 ++ [a])
                             (se_rand s1 + 4) (se_clock s1 + 1))
                 end
             end)
          (seq 0 2) (Some s)
      else Some s
  end.

(** ** Scattered bodies *)

(** An object literal of [generateObjectsAroundPlayer] with [isGlowing] and
    [chargingRate], at rest. *)
Definition glowingBody (prefix : string) (now : Z) (i : nat) (x y mass : R)
    (t : ObjectType) (color : string) (rate : R) : GameObject :=
  Obj.mk (stamped_id prefix now i) x y 0 0 mass (calculateRadius mass t) t
    color None None true (Some rate) None None None.

(** An object literal of [generateObjectsAroundPlayer] without them. *)
Definition plainBody (prefix : string) (now : Z) (i : nat)
    (x y vx vy mass : R) (t : ObjectType) (color : string) : GameObject :=
  Obj.mk (stamped_id prefix now i) x y vx vy mass (calculateRadius mass t) t
    color None None false None None None None.

(** The object that one turn of the loop of [generateObjectsAroundPlayer]
    makes, the counter of [Math.random()] after it, and whether the object
    is also pushed on [wormholesRef.current].  The stars and pulsars draw
    once more for their [pulsePhase], which is only drawn. *)
Definition newBody (rnd : nat -> R) (clock : nat -> Z) (show : R -> string)
    (k c : nat) (pl : GameObject) (i : nat) : GameObject * nat * bool :=
  let angle := rnd k * PI * 2 in
  let distance := 300 + rnd (k + 1)%nat * 700 in
  let x := Obj.x pl + cos angle * distance in
  let y := Obj.y pl + sin angle * distance in
  let rand := rnd (k + 2)%nat in
  let now := clock c in
  let r3 := rnd (k + 3)%nat in
  let r4 := rnd (k + 4)%nat in
  let r5 := rnd (k + 5)%nat in
  if Rlt_dec rand 0.02 then
    (glowingBody "blackhole" now i x y (150 + r3 * 100) blackhole "#ff0066" 12,
     (k + 4)%nat, false)
  else if Rlt_dec rand 0.04 then
    (glowingBody "star" now i x y (100 + r3 * 80) star "#ffaa00" 8,
     (k + 5)%nat, false)
  else if Rlt_dec rand 0.06 then
    (glowingBody "pulsar" now i x y (80 + r3 * 60) pulsar "#00ffaa" 10,
     (k + 5)%nat, false)
  else if Rlt_dec rand 0.08 then
    (glowingBody "whitedwarf" now i x y (30 + r3 * 25) whitedwarf "#ffffff" 9,
     (k + 4)%nat, false)
  else if Rlt_dec rand 0.1 then
    (glowingBody "wormhole" now i x y 20 wormhole "#9966ff" 6,
     (k + 3)%nat, true)
  else if Rlt_dec rand 0.12 then
    (glowingBody "spacestation" now i x y (15 + r3 * 10) spacestation
       "#cccccc" 5,
     (k + 4)%nat, false)
  else if Rlt_dec rand 0.25 then
    (plainBody "planet" now i x y 0 0 (35 + r3 * 30) planet
       (hsl show (120 + r4 * 60) "60%, 50%)"),
     (k + 5)%nat, false)
  else if Rlt_dec rand 0.35 then
    (plainBody "comet" now i x y ((r4 - 0.5) * 3) ((r5 - 0.5) * 3)
       (3 + r3 * 5) comet "#66ccff",
     (k + 6)%nat, false)
  else if Rlt_dec rand 0.55 then
    (plainBody "asteroid" now i x y ((r4 - 0.5) * 2) ((r5 - 0.5) * 2)
       (2 + r3 * 4) asteroid "#996633",
     (k + 6)%nat, false)
  else
    (plainBody "debris" now i x y ((r4 - 0.5) * 2) ((r5 - 0.5) * 2)
       (0.5 + r3 * 2.5) debris "#888888",
     (k + 6)%nat, false).

(** The arrays [gameObjectsRef.current] and [wormholesRef.current] and the
    two counters. *)
Record Scattered : Type := mkScattered {
  sc_objects : list GameObject;
  sc_wormholes : list GameObject;
  sc_rand : nat;
  sc_clock : nat
}.

(** The filter of [nearbyObjects]:
    [distance < 1000 && obj.type !== "player" && obj.type !== "ai"]. *)
Definition scenery_nearby (pl obj : GameObject) : bool :=
  (if Rlt_dec (distance pl obj) 1000 then true else false)
  && negb (is_player (Obj.type obj)) && negb (is_ai (Obj.type obj)).

(** One turn of the loop of [generateObjectsAroundPlayer]. *)
Definition scatterOne (rnd : nat -> R) (clock : nat -> Z) (show : R -> string)
    (pl : GameObject) (s : Scattered) (i : nat) : Scattered :=
  let '(body, k, pushed) :=
    newBody rnd clock show (sc_rand s) (sc_clock s) pl i in
  mkScattered (sc_objects s ++ [body])
    (if pushed then sc_wormholes s ++ [body] else sc_wormholes s)
    k (sc_clock s + 1).

(** [generateObjectsAroundPlayer()] *)
Definition generateObjectsAroundPlayer (rnd : nat -> R) (clock : nat -> Z)
    (show : R -> string) (playerRef : option GameObject) (s : Scattered)
  : Scattered :=
  match playerRef with
  | None => s
  | Some pl =>
      let nearbyObjects := List.filter (scenery_nearby pl) (sc_objects s) in
      if (length nearbyObjects <? 35)%nat then
        fold_left (scatterOne rnd clock show pl) (seq 0 12) s
      else s
  end.

(** ** A new game *)

Definition PLAYER_START_MASS : R := 8.
Definition PLAYER_START_ENERGY : R := 80.
Definition PLAYER_MAX_ENERGY : R := 120.

(** What [initGame] sets: the arrays, the reference [playerRef.current]
    (into the array), the frame counter, the score and the list of
    discoveries, and the two counters. *)
Record Game : Type := mkGame {
  g_objects : list GameObject;
  g_playerRef : PlayerRef;
  g_wormholes : list GameObject;
  g_activities : list SpaceActivity;
  g_events : list CosmicEvent;
  g_frameCount : nat;
  g_score : R;
  g_discovered : list string;
  g_rand : nat;
  g_clock : nat
}.

Definition newPlayer : GameObject :=
  Obj.mk "player" 0 0 0 0 PLAYER_START_MASS
    (calculateRadius PLAYER_START_MASS player) player "#00ffff"
    (Some PLAYER_START_ENERGY) (Some PLAYER_MAX_ENERGY) false None None None
    None.

(** [initGame()]; [None] when [generateSpaceActivities] throws. *)
Definition initGame (rnd : nat -> R) (clock : nat -> Z) (show : R -> string)
    (k c : nat) : option Game :=
  let s1 :=
    generateObjectsAroundPlayer rnd clock show (Some newPlayer)
      (mkScattered [newPlayer] [] k c) in
  let s2 :=
    generateAIPlayers rnd clock show (sc_rand s1) (sc_clock s1)
      (Some newPlayer) (sc_objects s1) in
  match generateSpaceActivities rnd clock (Some newPlayer)
          (mkSeeded [] (sp_rand s2) (sp_clock s2)) with
  | None => None
  | Some s3 =>
      Some (mkGame (sp_objects s2) (PAt 0) (sc_wormholes s1)
              (se_activities s3) [] 0 0 [] (se_rand s3) (se_clock s3))
  end.

(** ** The game server *)

(** A game object as it arrives in a message, after [JSON.parse]: each
    field is there or not.  Messages whose fields are not of the declared
    types are outside this development. *)
Module Wire.
Record t : Type := mk {
  id : option string;
  x : option R;
  y : option R;
  vx : option R;
  vy : option R;
  mass : option R;
  radius : option R;
  type : option ObjectType;
  color : option string;
  energy : option R;
  maxEnergy : option R;
  isGlowing : option bool;
  chargingRate : option R;
  absorptionProgress : option R;
  lastMovementTime : option Z;
  aiState : option AIState
}.
End Wire.

(** [JSON.parse(JSON.stringify(o))] for an object of the client: the
    optional fields that are [undefined] are dropped; [isGlowing] is only
    ever written as [true]. *)
Definition toJSON (o : GameObject) : Wire.t :=
  Wire.mk (Some (Obj.id o)) (Some (Obj.x o)) (Some (Obj.y o))
    (Some (Obj.vx o)) (Some (Obj.vy o)) (Some (Obj.mass o))
    (Some (Obj.radius o)) (Some (Obj.type o)) (Some (Obj.color o))
    (Obj.energy o) (Obj.maxEnergy o)
    (if Obj.isGlowing o then Some true else None)
    (Obj.chargingRate o) (Obj.absorptionProgress o)
    (Obj.lastMovementTime o) (Obj.aiState o).

(** The value of an optional field after [Object.assign]. *)
Definition assigned {A : Type} (old new : option A) : option A :=
  match new with
  | Some v => Some v
  | None => old
  end.

(** [Object.assign(target, source)]: the fields of [source] overwrite
    those of [target]. *)
Definition Object_assign (target : GameObject) (source : Wire.t)
  : GameObject :=
  Obj.mk (default (Obj.id target) (Wire.id source))
    (default (Obj.x target) (Wire.x source))
    (default (Obj.y target) (Wire.y source))
    (default (Obj.vx target) (Wire.vx source))
    (default (Obj.vy target) (Wire.vy source))
    (default (Obj.mass target) (Wire.mass source))
    (default (Obj.radius target) (Wire.radius source))
    (default (Obj.type target) (Wire.type source))
    (default (Obj.color target) (Wire.color source))
    (assigned (Obj.energy target) (Wire.energy source))
    (assigned (Obj.maxEnergy target) (Wire.maxEnergy source))
    (default (Obj.isGlowing target) (Wire.isGlowing source))
    (assigned (Obj.chargingRate target) (Wire.chargingRate source))
    (assigned (Obj.absorptionProgress target)
       (Wire.absorptionProgress source))
    (assigned (Obj.lastMovementTime target) (Wire.lastMovementTime source))
    (assigned (Obj.aiState target) (Wire.aiState source)).

(** The fields of [class GameServer].  The game states live in [sv_store]
    and are named by their index there, so that [player.gameState] and the
    element of [gameObjects] pushed at the connection are one object;
    [sv_players] is the [Map], in insertion order, from the id of a
    connection to its game state. *)
Record ServerState : Type := mkServer {
  sv_store : list GameObject;
  sv_players : list (string * nat);
  sv_gameObjects : list nat;
  sv_lastUpdateTime : Z
}.

(** [Map.prototype.get], [set] and [delete]. *)
Definition map_get (k : string) (m : list (string * nat)) : option nat :=
  snd <$> List.find (fun p => String.eqb (fst p) k) m.

Fixpoint map_set (k : string) (v : nat) (m : list (string * nat))
  : list (string * nat) :=
  match m with
  | [] => [(k, v)]
  | p :: rest =>
      if String.eqb (fst p) k then (k, v) :: rest else p :: map_set k v rest
  end.

Definition map_delete (k : string) (m : list (string * nat))
  : list (string * nat) :=
  List.filter (fun p => negb (String.eqb (fst p) k)) m.

(** [ `player-${Date.now()}-${Math.random().toString(36).substr(2, 9)}` ];
    [base36] stands for the rendering of the draw. *)
Definition connection_id (base36 : R -> string) (now : Z) (r : R) : string :=
  "player-" +:+ pretty now +:+ "-" +:+ base36 r.

(** The handler of ['connection'], as far as the fields go: the id of the
    connection and the server after it; [r1] and [r2] are the two draws. *)
Definition connection (base36 show : R -> string) (now : Z) (r1 r2 : R)
    (s : ServerState) : string * ServerState :=
  let playerId := connection_id base36 now r1 in
  let gameState :=
    Obj.mk playerId 0 0 0 0 8 6 player (hsl show (r2 * 360) "70%, 60%)")
      (Some 80) (Some 120) false None None None None in
  let address := length (sv_store s) in
  (playerId,
   mkServer (sv_store s ++ [gameState])
     (map_set playerId address (sv_players s))
     (sv_gameObjects s ++ [address]) (sv_lastUpdateTime s)).

(** A parsed message of a client, by its [type]; [state] is [data.state],
    if any. *)
Inductive ClientMessage : Type :=
| UpdateMessage (state : option Wire.t)
| ActionMessage
| OtherMessage.

(** [handlePlayerMessage(playerId, data)] inside the [try] of the handler
    of ['message']: an action changes nothing, whether [handleGravityPull]
    is reached or reading [action.type] throws. *)
Definition handlePlayerMessage (playerId : string) (data : ClientMessage)
    (s : ServerState) : ServerState :=
  match map_get playerId (sv_players s) with
  | None => s
  | Some address =>
      match data with
      | UpdateMessage (Some state) =>
          mkServer (alter (fun o => Object_assign o state) address (sv_store s))
            (sv_players s) (sv_gameObjects s) (sv_lastUpdateTime s)
      | _ => s
      end
  end.

(** [obj.id !== playerId] for the object at [address]. *)
Definition other_id (store : list GameObject) (playerId : string)
    (address : nat) : bool :=
  match store !! address with
  | Some obj => negb (String.eqb (Obj.id obj) playerId)
  | None => true
  end.

(** [handlePlayerDisconnect(playerId)] *)
Definition handlePlayerDisconnect (playerId : string) (s : ServerState)
  : ServerState :=
  match map_get playerId (sv_players s) with
  | None => s
  | Some _ =>
      mkServer (sv_store s) (map_delete playerId (sv_players s))
        (List.filter (other_id (sv_store s) playerId) (sv_gameObjects s))
        (sv_lastUpdateTime s)
  end.

(** [o.x += o.vx * deltaTime; o.y += o.vy * deltaTime; o.vx *= 0.998;
    o.vy *= 0.998] *)
Definition advance (deltaTime : R) (o : GameObject) : GameObject :=
  let o1 :=
    Obj.set_pos (Obj.x o + Obj.vx o * deltaTime)
                (Obj.y o + Obj.vy o * deltaTime) o in
  Obj.set_vel (Obj.vx o1 * 0.998) (Obj.vy o1 * 0.998) o1.

(** The callback of the second [forEach] of [updateGameState]. *)
Definition advanceOther (deltaTime : R) (o : GameObject) : GameObject :=
  if is_player (Obj.type o) then o else advance deltaTime o.

(** [updateGameState(deltaTime)] *)
Definition updateGameState (deltaTime : R) (s : ServerState) : ServerState :=
  let store1 :=
    fold_left (fun store p => alter (advance deltaTime) (snd p) store)
      (sv_players s) (sv_store s) in
  let store2 :=
    fold_left (fun store address => alter (advanceOther deltaTime) address store)
      (sv_gameObjects s) store1 in
  mkServer store2 (sv_players s) (sv_gameObjects s) (sv_lastUpdateTime s).

(** The [state] of the message that the server broadcasts: the game states
    of the players and the objects, as the client parses them. *)
Record Snapshot : Type := mkSnapshot {
  sn_players : list GameObject;
  sn_objects : list GameObject
}.

Definition snapshot (s : ServerState) : Snapshot :=
  mkSnapshot
    (omap (fun p => sv_store s !! snd p) (sv_players s))
    (omap (fun address => sv_store s !! address) (sv_gameObjects s)).

(** [gameLoop()] of the server at the time [now]: the server after it and
    the state that it broadcasts. *)
Definition serverLoop (now : Z) (s : ServerState) : ServerState * Snapshot :=
  let deltaTime := IZR (now - sv_lastUpdateTime s) / 1000 in
  let s1 :=
    updateGameState deltaTime
      (mkServer (sv_store s) (sv_players s) (sv_gameObjects s) now) in
  (s1, snapshot s1).

(** ** Messages of the server on the client *)

(** A parsed message of the server, by its [type], with the fields that
    [handleServerMessage] reads, if they are there. *)
Inductive ServerMessage : Type :=
| InitMessage (playerId : option string) (gameState : option Snapshot)
| GameStateMessage (state : option Snapshot)
| PlayerJoinedMessage (joined : option GameObject)
| PlayerLeftMessage (playerId : option string)
| UnknownMessage.

(** What [handleServerMessage] reads and writes: the array
    [gameObjectsRef.current], the reference [playerRef.current] and the
    React state [otherPlayers]. *)
Record Client : Type := mkClient {
  cl_objects : list GameObject;
  cl_playerRef : PlayerRef;
  cl_otherPlayers : list GameObject
}.

(** [playerRef.current] once [gameObjectsRef.current] is another array:
    the object that it pointed to is still the same object. *)
Definition detach (pref : PlayerRef) (objects : list GameObject) : PlayerRef :=
  match pref with
  | PAt i =>
      match objects !! i with
      | Some o => PDetached o
      | None => PNull
      end
  | _ => pref
  end.

(** [p.id !== id], where [id] may be [undefined]. *)
Definition id_differs (id : option string) (p : GameObject) : bool :=
  match id with
  | Some i => negb (String.eqb (Obj.id p) i)
  | None => true
  end.

(** [handleServerMessage(data)] *)
Definition handleServerMessage (data : ServerMessage) (c : Client) : Client :=
  match data with
  | InitMessage playerId (Some gameState) =>
      mkClient (sn_objects gameState) (detach (cl_playerRef c) (cl_objects c))
        (List.filter (id_differs playerId) (sn_players gameState))
  | GameStateMessage (Some state) =>
      let own := Obj.id <$> deref (cl_playerRef c) (cl_objects c) in
      mkClient (sn_objects state) (detach (cl_playerRef c) (cl_objects c))
        (List.filter (id_differs own) (sn_players state))
  | PlayerJoinedMessage (Some joined) =>
      mkClient (cl_objects c) (cl_playerRef c) (cl_otherPlayers c ++ [joined])
  | PlayerLeftMessage (Some playerId) =>
      if String.eqb playerId "" then c
      else
        mkClient (cl_objects c) (cl_playerRef c)
          (List.filter (id_differs (Some playerId)) (cl_otherPlayers c))
  | _ => c
  end.

(** ** Specification-side definitions *)

(** The closed interval the specification keeps energy in. *)
Definition energy_in_range (o : GameObject) : Prop :=
  match Obj.energy o, Obj.maxEnergy o with
  | Some e, Some maxE => 0 <= e <= maxE
  | _, _ => True
  end.

(** Speed of an object. *)
Definition speed (o : GameObject) : R := hypot (Obj.vx o) (Obj.vy o).



(** Two states of the player at the same place, with the same radius. *)
Definition same_place (p q : GameObject) : Prop :=
  Obj.x p = Obj.x q /\ Obj.y p = Obj.y q /\ Obj.radius p = Obj.radius q.

(** An activity as one pass of [handleSpaceActivities] leaves it, for a
    player at the place of [pl]. *)
Definition mark (pl : GameObject) (a : SpaceActivity) : SpaceActivity :=
  if touches pl a then Act.set_discovered true a else a.

(** The rewards of the activities of a list that the player discovers. *)
Definition gain (pl : GameObject) (acts : list SpaceActivity) : R :=
  fold_right Rplus 0 (map Act.reward (List.filter (touches pl) acts)).

(** The energy transfer of an absorption stays within the numbers: when
    both bodies have energy to transfer, the absorber has a [maxEnergy]. *)
Definition energy_transfer_defined (larger smaller : GameObject) : Prop :=
  truthy (Obj.energy larger) = true -> truthy (Obj.energy smaller) = true ->
  Obj.maxEnergy larger <> None.

(** How an object of the array may differ after a collision pass: it keeps
    its identity and kind, its mass has not shrunk, a radius that was the
    one of its mass still is, and a glowing body that is not of type player
    is the same object. *)
Definition grows (o o' : GameObject) : Prop :=
  Obj.id o' = Obj.id o /\ Obj.type o' = Obj.type o
  /\ Obj.isGlowing o' = Obj.isGlowing o
  /\ Obj.mass o <= Obj.mass o'
  /\ (Obj.radius o = calculateRadius (Obj.mass o) (Obj.type o) ->
      Obj.radius o' = calculateRadius (Obj.mass o') (Obj.type o'))
  /\ (Obj.isGlowing o = true -> is_player (Obj.type o) = false -> o' = o).

(** The facts about one run of [handleCollisions] that every step keeps:
    every mass is at least 0; against the array [before] the run started
    from, every object has grown; the score has not shrunk below [score0],
    and has not moved when no object is called ["player"]; every queued id
    is the id of an object of [before] that does not glow. *)
Definition pass_invariant (before : list GameObject) (score0 : R)
    (st : CollisionState) : Prop :=
  Forall (fun o => 0 <= Obj.mass o) (cs_objects st)
  /\ Forall2 grows before (cs_objects st)
  /\ score0 <= cs_scoreIncrease st
  /\ (Forall (fun o => Obj.id o <> "player") before ->
      cs_scoreIncrease st = score0)
  /\ Forall (fun s => exists o, o ∈ before /\ Obj.id o = s
                                /\ Obj.isGlowing o = false)
            (cs_toRemove st).

(** [other] is a glowing body, other than [obj], in the charging window of
    [obj]: closer than [CHARGING_RADIUS] and beyond contact range plus 5. *)
Definition charges (obj other : GameObject) : Prop :=
  Obj.isGlowing other = true /\ same_id other obj = false
  /\ distance obj other < CHARGING_RADIUS
  /\ distance obj other > Obj.radius other + Obj.radius obj + 5.

(** What [updateAI] may write: two states of an AI that agree on everything
    but mass, radius, velocity, [aiState] and [lastMovementTime]. *)
Definition same_body (a a' : GameObject) : Prop :=
  Obj.id a' = Obj.id a /\ Obj.type a' = Obj.type a
  /\ Obj.x a' = Obj.x a /\ Obj.y a' = Obj.y a
  /\ Obj.energy a' = Obj.energy a /\ Obj.maxEnergy a' = Obj.maxEnergy a
  /\ Obj.isGlowing a' = Obj.isGlowing a
  /\ Obj.absorptionProgress a' = Obj.absorptionProgress a.

(** Two states of a body that differ at most in velocity and [aiState]. *)
Definition only_steered (a a' : GameObject) : Prop :=
  same_body a a'
  /\ Obj.mass a' = Obj.mass a /\ Obj.radius a' = Obj.radius a
  /\ Obj.lastMovementTime a' = Obj.lastMovementTime a.

(** [o'] is [o] with, at most, another velocity and another energy. *)
Definition moved_only (o o' : GameObject) : Prop :=
  o' = Obj.set_energy (Obj.energy o') (Obj.set_vel (Obj.vx o') (Obj.vy o') o).

(** The orbital risk of the player, [obj.absorptionProgress || 0]. *)
Definition risk (o : GameObject) : R := or_default (Obj.absorptionProgress o) 0.

(** What every AI that [generateAIPlayers] spawns around [pl] satisfies. *)
Definition fresh_ai (pl a : GameObject) : Prop :=
  Obj.type a = ai /\ Obj.isGlowing a = false
  /\ (exists e, Obj.energy a = Some e /\ 40 <= e < 80)
  /\ Obj.maxEnergy a = Some 100
  /\ 4 <= Obj.mass a < 10 /\ Obj.radius a = 6
  /\ 400 <= distance pl a < 1000
  /\ Obj.aiState a = Some exploring.

(** What every event that [generateCosmicEvents] makes around [pl]
    satisfies. *)
Definition fresh_event (pl : GameObject) (e : CosmicEvent) : Prop :=
  Ev.type e ∈ eventTypes
  /\ Ev.rewards e = Some (eventRewards (Ev.type e))
  /\ 300 <= hypot (Ev.x e - Obj.x pl) (Ev.y e - Obj.y pl) < 800
  /\ 8 <= Ev.timeLeft e < 16 /\ 8 <= Ev.duration e < 16
  /\ 80 <= Ev.radius e < 180.

(** What every body that a meteor shower or an asteroid belt drops
    satisfies. *)
Definition dropped (b : GameObject) : Prop :=
  (Obj.type b = debris /\ 1.5 <= Obj.mass b < 4
   \/ Obj.type b = asteroid /\ 2 <= Obj.mass b < 6)
  /\ Obj.isGlowing b = false /\ Obj.energy b = None
  /\ Obj.radius b = calculateRadius (Obj.mass b) (Obj.type b).

(** One tick of age for an event. *)
Definition aged (e : CosmicEvent) : CosmicEvent :=
  Ev.set_timeLeft (Ev.timeLeft e - 0.016) e.

(** The event is still alive after the tick. *)
Definition outlives (e : CosmicEvent) : bool :=
  if Rgt_dec (Ev.timeLeft e - 0.016) 0 then true else false.

(** The event is of a kind that drops bodies. *)
Definition drops (e : CosmicEvent) : bool :=
  match Ev.type e with
  | meteorShower | asteroidBelt => true
  | _ => false
  end.

(** The types that [generateObjectsAroundPlayer] makes glow. *)
Definition glows_by_type (t : ObjectType) : bool :=
  match t with
  | blackhole | star | pulsar | whitedwarf | wormhole | spacestation => true
  | _ => false
  end.

(** What every body that [generateObjectsAroundPlayer] makes around [pl]
    satisfies. *)
Definition scattered (pl b : GameObject) : Prop :=
  Obj.type b <> player /\ Obj.type b <> ai
  /\ Obj.isGlowing b = glows_by_type (Obj.type b)
  /\ (Obj.isGlowing b = true ->
      is_Some (Obj.chargingRate b) /\ Obj.vx b = 0 /\ Obj.vy b = 0)
  /\ (Obj.isGlowing b = false -> Obj.chargingRate b = None)
  /\ Obj.energy b = None
  /\ 0.5 <= Obj.mass b < 250
  /\ Obj.radius b = calculateRadius (Obj.mass b) (Obj.type b)
  /\ 300 <= distance pl b < 1000.

(** What every activity that [generateSpaceActivities] makes around [pl]
    satisfies. *)
Definition fresh_activity (pl : GameObject) (a : SpaceActivity) : Prop :=
  (Act.type a, Act.reward a) ∈ activityTypes
  /\ Act.discovered a = false
  /\ 15 <= Act.radius a < 25
  /\ 500 <= hypot (Act.x a - Obj.x pl) (Act.y a - Obj.y pl) < 1200.

(** The two bodies are apart: [handleCollisions] sees no contact. *)
Definition clear_of (a b : GameObject) : Prop :=
  Obj.radius a + Obj.radius b < distance a b.

(** The servers that no client has sent an update with a state to: the
    server as constructed, then connections, disconnections, ticks, and
    messages other than such updates. *)
Inductive untouched : ServerState -> Prop :=
| untouched_new (now : Z) : untouched (mkServer [] [] [] now)
| untouched_connection (base36 show : R -> string) (now : Z) (r1 r2 : R)
    (s : ServerState) :
    untouched s -> untouched (snd (connection base36 show now r1 r2 s))
| untouched_disconnect (playerId : string) (s : ServerState) :
    untouched s -> untouched (handlePlayerDisconnect playerId s)
| untouched_loop (now : Z) (s : ServerState) :
    untouched s -> untouched (fst (serverLoop now s))
| untouched_action (playerId : string) (s : ServerState) :
    untouched s -> untouched (handlePlayerMessage playerId ActionMessage s)
| untouched_empty_update (playerId : string) (s : ServerState) :
    untouched s ->
    untouched (handlePlayerMessage playerId (UpdateMessage None) s).

(** How often the address [a] is in [l]. *)
Definition visits (a : nat) (l : list nat) : nat := count_occ Nat.eq_dec l a.

(** No object of the server that is in [gameObjects] has the id [k], and
    [k] is no key of [players]. *)
Definition unused_id (k : string) (s : ServerState) : Prop :=
  map_get k (sv_players s) = None
  /\ Forall (fun a => exists o, sv_store s !! a = Some o /\ Obj.id o <> k)
       (sv_gameObjects s).

(** The acceleration of the specification of [other] on [obj]:
    [GRAVITY_CONSTANT * other.mass / d^2], times 1.3 when [other] glows,
    along the unit vector from [obj] to [other]; nothing at distance 0, and
    nothing from a body with the id of [obj]. *)
Definition attraction (obj other : GameObject) : R * R :=
  let d := distance obj other in
  if same_id other obj then (0, 0)
  else if Rgt_dec d 0 then
    let F := GRAVITY_CONSTANT * Obj.mass other / (d * d)
             * (if Obj.isGlowing other then 1.3 else 1) in
    ((Obj.x other - Obj.x obj) / d * F, (Obj.y other - Obj.y obj) / d * F)
  else (0, 0).

(** The sum of the attractions of the bodies of the array on [obj]. *)
Definition net_gravity (obj : GameObject) (objects : list GameObject)
  : R * R :=
  (fold_right Rplus 0 (map (fun o => fst (attraction obj o)) objects),
   fold_right Rplus 0 (map (fun o => snd (attraction obj o)) objects)).

(** The factor of the speed cap for the velocity [(vx, vy)]: 1 within the
    cap, [MAX_VELOCITY / speed] beyond it. *)
Definition cap_factor (vx vy : R) : R :=
  if Rgt_dec (hypot vx vy) MAX_VELOCITY then MAX_VELOCITY / hypot vx vy
  else 1.





(** ** Example bodies *)

(** An AI that has run out of energy. *)
Definition depleted_ai : GameObject :=
  Obj.mk "ai-1" 0 0 1 0 5 6 ai "#aaaaaa" (Some 0) (Some 100) false None None
         (Some 0%Z) (Some exploring).

(** The player as [initGame] creates it, at the origin. *)
Definition pilot : GameObject :=
  Obj.mk "player" 0 0 0 0 8 6 player "#00ffff" (Some 80) (Some 120) false
         None None None None.

(** A star, of the mass, radius and charging rate that
    [generateObjectsAroundPlayer] gives stars, at [(x, y)]. *)
Definition star_at (x y : R) : GameObject :=
  Obj.mk "star-1" x y 0 0 100 18 star "#ffaa00" None None true (Some 8)
         None None None.

(** The player at the origin, flying along the x axis at full speed. *)
Definition fast_pilot : GameObject :=
  Obj.mk "player" 0 0 4 0 8 6 player "#00ffff" (Some 80) (Some 120) false
         None None None None.

(** The player almost out of energy. *)
Definition tired_pilot : GameObject :=
  Obj.mk "player" 0 0 0 0 8 6 player "#00ffff" (Some 0.01) (Some 120) false
         None None None None.

(** The player after idling near a glowing body until its orbital risk
    reached 1.2. *)
Definition risky_pilot : GameObject :=
  Obj.mk "player" 0 0 0 0 8 6 player "#00ffff" (Some 80) (Some 120) false
         None (Some 1.2) None None.

(** An energy crystal and a derelict ship, with the rewards of the table
    of [generateSpaceActivities], both within reach of a player at the
    origin, and a relic far away. *)
Definition crystal : SpaceActivity :=
  Act.mk "activity-1" energyCrystal 3 4 15 75 false.
Definition wreck : SpaceActivity :=
  Act.mk "activity-0" derelictShip 0 0 15 50 false.
Definition relic : SpaceActivity :=
  Act.mk "activity-2" ancientRelic 3000 4000 15 100 false.

(** An AI low on energy, and a planet 100 away from it. *)
Definition hungry_ai : GameObject :=
  Obj.mk "ai-7" 0 0 0 0 5 6 ai "#cc6699" (Some 10) (Some 100) false None None
         (Some 0%Z) (Some exploring).
Definition big_planet : GameObject :=
  Obj.mk "planet-3" 100 0 0 0 50 12 planet "#33cc66" None None false None
         None None None.

(** A player of mass 10 and a piece of debris of mass 2 in contact with
    it. *)
Definition heavy_pilot : GameObject :=
  Obj.mk "player" 0 0 0 0 10 6 player "#00ffff" (Some 80) (Some 120) false
         None None None None.
Definition speck : GameObject :=
  Obj.mk "debris-1" 0 5 0 0 2 2 debris "#888888" None None false None None
         None None.

(** A piece of debris of mass [m], with the radius of its mass, at the
    origin. *)
Definition rock (name : string) (m : R) : GameObject :=
  Obj.mk name 0 0 0 0 m (calculateRadius m debris) debris "#888888" None None
         false None None None None.

(** A wormhole, of the mass, radius and charging rate that
    [generateObjectsAroundPlayer] gives wormholes, at [(x, y)]. *)
Definition wormhole_at (name : string) (x y : R) : GameObject :=
  Obj.mk name x y 0 0 20 12 wormhole "#9966ff" None None true (Some 6) None
         None None.

(** Two stars on either side of the origin: the far one, 200 to the right,
    comes first in the array; the near one is 50 to the left. *)
Definition far_star : GameObject :=
  Obj.mk "star-far" 200 0 0 0 100 18 star "#ffaa00" None None true (Some 8)
         None None None.
Definition near_star : GameObject :=
  Obj.mk "star-near" (-50) 0 0 0 100 18 star "#ffaa00" None None true (Some 8)
         None None None.

(** The player at the origin, drifting up at the rate that the pull of a
    star 40 below cancels in one tick. *)
Definition drifting_pilot : GameObject :=
  Obj.mk "player" 0 0 4 0.121875 8 6 player "#00ffff" (Some 80) (Some 120)
         false None None None None.

(** What [handleCollisions] leaves of the player of mass 10 in contact with
    the debris of mass 2. *)
Definition duel_result : CollisionState :=
  mkCollisionState
    [Obj.set_radius
       (calculateRadius (10 + 2 * MASS_ABSORPTION_RATE) player)
       (Obj.set_mass (10 + 2 * MASS_ABSORPTION_RATE) heavy_pilot);
     speck]
    ["debris-1"] (0 + Math_floor (2 * 20)) 0.

(** A comet at rest, lighter than the player, 100 to its right. *)
Definition small_comet : GameObject :=
  Obj.mk "comet-5" 100 0 0 0 4 4 comet "#66ccff" None None false None None
         None None.

(** A meteor shower with two seconds left and a nebula on its last tick. *)
Definition shower : CosmicEvent :=
  Ev.mk "event-1000" meteorShower 500 0 (Some 1) (Some 0) 10 2 100 (Some 0)
        (Some 0.7) (Some 0).
Definition fading_nebula : CosmicEvent :=
  Ev.mk "event-900" nebula 0 500 (Some 0) (Some 1) 9 0.01 120 (Some 0)
        (Some 0.6) (Some 50).

(** A server with one connection, and the same if the player has reported
    the type of an asteroid. *)
Definition lone_server : ServerState :=
  snd (connection (fun _ => "abc") (fun _ => "0") 1000 0 0
         (mkServer [] [] [] 0)).
Definition odd_server : ServerState :=
  handlePlayerMessage "player-1000-abc"
    (UpdateMessage
       (Some (Wire.mk None None None (Some 10) None None None (Some asteroid)
                None None None None None None None None)))
    lone_server.

(** The player of a second client, 5 away from the first: like every
    player that [initGame] makes, it has the id ["player"]. *)
Definition twin_pilot : GameObject :=
  Obj.mk "player" 3 4 0 0 8 6 player "#00ffff" (Some 80) (Some 120) false
         None None None None.

(** A server with two connections, after each client has sent its player
    once. *)
Definition crowded_server : ServerState :=
  let s1 :=
    snd (connection (fun _ => "abc") (fun _ => "0") 1000 0 0
           (mkServer [] [] [] 0)) in
  let s2 :=
    handlePlayerMessage "player-1000-abc" (UpdateMessage (Some (toJSON pilot)))
      s1 in
  let s3 := snd (connection (fun _ => "xyz") (fun _ => "0") 2000 0 0 s2) in
  handlePlayerMessage "player-2000-xyz"
    (UpdateMessage (Some (toJSON twin_pilot))) s3.

(** A wormhole at the origin. *)
Definition drifting_wormhole : GameObject :=
  Obj.mk "wormhole-1" 0 0 0 0 20 12 wormhole "#9966ff" None None true (Some 6)
         None None None.

(** A meteor of mass 2, lighter than the low-energy AI, 40 above it, and a
    second one 30 below it that comes later in the array. *)
Definition far_meteor : GameObject :=
  Obj.mk "debris-far" 0 40 0 0 2 2 debris "#888888" None None false None None
         None None.
Definition near_meteor : GameObject :=
  Obj.mk "debris-near" 0 (-30) 0 0 2 2 debris "#888888" None None false None
         None None None.

(** A second planet, heavier than the low-energy AI, 120 above it. *)
Definition second_planet : GameObject :=
  Obj.mk "planet-4" 0 120 0 0 60 12 planet "#33cc66" None None false None
         None None None.

(** * Properties *)

(** ** Numbers *)

Lemma hypot_nonneg (a b : R) : 0 <= hypot a b.
Proof. apply sqrt_pos. Qed.

Lemma hypot_sqr (a b : R) : hypot a b * hypot a b = a * a + b * b.
Proof. apply sqrt_sqrt; nra. Qed.

Lemma hypot_0 : hypot 0 0 = 0.
Proof. unfold hypot. replace (0 * 0 + 0 * 0) with 0 by ring. apply sqrt_0. Qed.

Lemma hypot_x (a : R) : 0 <= a -> hypot a 0 = a.
Proof.
  intros Ha. unfold hypot. replace (a * a + 0 * 0) with (a * a) by ring.
  now apply sqrt_square.
Qed.

Lemma hypot_y (b : R) : 0 <= b -> hypot 0 b = b.
Proof.
  intros Hb. unfold hypot. replace (0 * 0 + b * b) with (b * b) by ring.
  now apply sqrt_square.
Qed.

Lemma hypot_neg_y (b : R) : 0 <= b -> hypot 0 (- b) = b.
Proof.
  intros Hb. unfold hypot. replace (0 * 0 + - b * - b) with (b * b) by ring.
  now apply sqrt_square.
Qed.

Lemma hypot_eq (a b c : R) : 0 <= c -> a * a + b * b = c * c -> hypot a b = c.
Proof.
  intros Hc Heq. unfold hypot. rewrite Heq. now apply sqrt_square.
Qed.

(** Scaling both components by [c >= 0] scales the length by [c]. *)
Lemma hypot_scale (c a b : R) : 0 <= c -> hypot (c * a) (c * b) = c * hypot a b.
Proof.
  intros Hc. unfold hypot.
  replace (c * a * (c * a) + c * b * (c * b)) with (c * c * (a * a + b * b)) by ring.
  rewrite sqrt_mult_alt by nra. now rewrite sqrt_square.
Qed.

Lemma Math_floor_IZR (z : Z) : Math_floor (IZR z) = IZR z.
Proof.
  unfold Math_floor. f_equal. symmetry. apply Int_part_spec. lra.
Qed.

(** ** The depleted AI (C10) *)

(** C10.  An AI whose [energy] is [undefined] or [0] is left as it is by
    [updateAI]: the call returns at its first line, so no field of the body
    changes (no growth of mass, no new radius, no change of [aiState] or
    velocity, no time stamp) and no random number is drawn; the per-tick AI
    phase of [gameLoop] then leaves the whole world as it is. *)
Theorem C10_depleted_ai_is_frozen (now : Z) (rnd : nat -> R) (k : nat)
    (a : GameObject) (objects : list GameObject) :
  Obj.energy a = None \/ Obj.energy a = Some 0 ->
  updateAI now rnd k a objects = (a, k)
  /\ forall (i : nat) (w : World),
       w_objects w !! i = Some a -> aiPhase now rnd i w = w.
Proof.
  intros Hdepleted.
  assert (Hret : forall k' objs, updateAI now rnd k' a objs = (a, k')).
  { intros k' objs. unfold updateAI.
    destruct Hdepleted as [-> | ->]; [reflexivity|].
    destruct (Req_dec_T 0 0) as [_ | Hne]; [reflexivity | now destruct Hne]. }
  split; [apply Hret|].
  intros i [objs pref kw] Hi. unfold aiPhase. cbn in *. rewrite Hi.
  destruct (is_ai (Obj.type a)); [|reflexivity].
  rewrite Hret. f_equal. now apply list_insert_id.
Qed.

Lemma C10_depleted_ai_is_frozen_witness :
  updateAI 5000 (fun _ => 0) 0 depleted_ai [depleted_ai]
    = (depleted_ai, 0%nat)
  /\ forall (i : nat) (w : World),
       w_objects w !! i = Some depleted_ai ->
       aiPhase 5000 (fun _ => 0) i w = w.
Proof.
  apply (C10_depleted_ai_is_frozen 5000 (fun _ => 0) 0 depleted_ai
           [depleted_ai]).
  right. reflexivity.
Defined.

(** ** Gravity (C6, C5, C7) *)

Lemma same_id_refl (o : GameObject) : same_id o o = true.
Proof. apply String.eqb_refl. Qed.

(** Deciding the comparisons of a concrete run: each test on real numbers
    whose outcome [lra] can settle is replaced by its branch. *)
Ltac settle_one :=
  match goal with
  | |- context [Rlt_dec ?a ?b] =>
      first [ destruct (Rlt_dec a b) as [_ | ?]; [|exfalso; lra]
            | destruct (Rlt_dec a b) as [? | _]; [exfalso; lra|] ]
  | |- context [Rgt_dec ?a ?b] =>
      first [ destruct (Rgt_dec a b) as [_ | ?]; [|exfalso; lra]
            | destruct (Rgt_dec a b) as [? | _]; [exfalso; lra|] ]
  | |- context [Rge_dec ?a ?b] =>
      first [ destruct (Rge_dec a b) as [_ | ?]; [|exfalso; lra]
            | destruct (Rge_dec a b) as [? | _]; [exfalso; lra|] ]
  | |- context [Req_dec_T ?a ?b] =>
      first [ destruct (Req_dec_T a b) as [_ | ?]; [|exfalso; lra]
            | destruct (Req_dec_T a b) as [? | _]; [exfalso; lra|] ]
  end.

Ltac settle := repeat (settle_one; cbn).

(** C6 (as the code has it).  In [applyGravity], a body [other] whose id
    differs from the id of [obj], at distance [d > 0], adds to the force on
    [obj] the vector of length [GRAVITY_CONSTANT * other.mass / d^2], times
    1.3 exactly when [other] glows, along the unit vector [(dx / d, dy / d)]
    that points from [obj] to [other]; at distance 0 it adds nothing, and
    the sum over the array goes on as if the coincident body were not
    there.  A body whose id is the id of [obj] (the body itself, or another
    body that carries the same id) adds nothing at any distance, and the sum
    goes on in the same way. *)
Theorem C6_gravity_contribution (obj other : GameObject) (f : R * R) :
  let dx := Obj.x other - Obj.x obj in
  let dy := Obj.y other - Obj.y obj in
  let d := distance obj other in
  let F := GRAVITY_CONSTANT * Obj.mass other / (d * d)
           * (if Obj.isGlowing other then 1.3 else 1) in
  (same_id other obj = false ->
     (d > 0 ->
        gravityAccum obj f other = (fst f + dx / d * F, snd f + dy / d * F)
        /\ (dx / d) * (dx / d) + (dy / d) * (dy / d) = 1)
     /\ (d = 0 ->
           gravityAccum obj f other = f
           /\ forall (before after : list GameObject) (f0 : R * R),
                fold_left (gravityAccum obj) (before ++ other :: after) f0
                = fold_left (gravityAccum obj) (before ++ after) f0))
  /\ (same_id other obj = true ->
        gravityAccum obj f other = f
        /\ forall (before after : list GameObject) (f0 : R * R),
             fold_left (gravityAccum obj) (before ++ other :: after) f0
             = fold_left (gravityAccum obj) (before ++ after) f0).
Proof.
  intros dx dy d F.
  assert (Hd : d = hypot dx dy) by reflexivity.
  split.
  - intros Hid. split.
    + intros Hpos. split.
      * unfold gravityAccum. rewrite Hid. fold dx dy. rewrite <- Hd.
        destruct (Rgt_dec d 0) as [_ | Hn]; [|contradiction].
        unfold F. destruct (Obj.isGlowing other); f_equal; field; lra.
      * assert (Hsq : d * d = dx * dx + dy * dy)
          by (rewrite Hd; apply hypot_sqr).
        replace (dx / d * (dx / d) + dy / d * (dy / d))
          with ((dx * dx + dy * dy) / (d * d)) by (field; lra).
        rewrite <- Hsq. field. lra.
    + intros Hzero.
      assert (Hskip : forall g, gravityAccum obj g other = g).
      { intros g. unfold gravityAccum. rewrite Hid. fold dx dy. rewrite <- Hd.
        destruct (Rgt_dec d 0) as [Hp | _]; [lra | reflexivity]. }
      split; [apply Hskip|].
      intros before after f0. rewrite !fold_left_app. cbn. now rewrite Hskip.
  - intros Hid.
    assert (Hskip : forall g, gravityAccum obj g other = g).
    { intros g. unfold gravityAccum. now rewrite Hid. }
    split; [apply Hskip|].
    intros before after f0. rewrite !fold_left_app. cbn. now rewrite Hskip.
Qed.

Lemma C6_gravity_contribution_witness :
  gravityAccum pilot (0, 0) (star_at 3 4)
    = (0 + (3 - 0) / 5 * (1.5 * 100 / (5 * 5) * 1.3),
       0 + (4 - 0) / 5 * (1.5 * 100 / (5 * 5) * 1.3))
  /\ gravityAccum pilot (7, 9) (star_at 0 0) = (7, 9)
  /\ gravityAccum pilot (7, 9) twin_pilot = (7, 9).
Proof.
  assert (Hfar : distance pilot (star_at 3 4) = 5).
  { apply hypot_eq; cbn; lra. }
  assert (Hhere : distance pilot (star_at 0 0) = 0).
  { apply hypot_eq; cbn; lra. }
  split_and!.
  - destruct (C6_gravity_contribution pilot (star_at 3 4) (0, 0))
      as [Hother _].
    destruct (Hother eq_refl) as [Hpos _].
    rewrite Hfar in Hpos. destruct Hpos as [Hacc _]; [lra|]. exact Hacc.
  - destruct (C6_gravity_contribution pilot (star_at 0 0) (7, 9))
      as [Hother _].
    destruct (Hother eq_refl) as [_ Hzero].
    destruct (Hzero Hhere) as [Hacc _]. exact Hacc.
  - destruct (C6_gravity_contribution pilot twin_pilot (7, 9)) as [_ Hsame].
    destruct (Hsame eq_refl) as [Hacc _]. exact Hacc.
Defined.

(** C6, counterexample.  Distinct bodies can carry one id: every client
    names its player ["player"] and sends it to the server, whose broadcast
    then becomes the array of each client.  With two clients the array
    holds two players, 5 apart; by the formula the second would add
    [1.5 * 8 / 25 = 0.48] to the force on the first, but it is skipped as
    if it were the first itself, and [applyGravity] leaves the first at
    rest. *)
Lemma C6_same_id_body_adds_nothing :
  cl_objects (handleServerMessage
                (GameStateMessage (Some (snapshot crowded_server)))
                (mkClient [pilot] (PAt 0) []))
    = [pilot; twin_pilot]
  /\ twin_pilot <> pilot
  /\ distance pilot twin_pilot = 5
  /\ GRAVITY_CONSTANT * Obj.mass twin_pilot / (5 * 5) = 0.48
  /\ gravityAccum pilot (0, 0) twin_pilot = (0, 0)
  /\ exists o,
       fst (applyGravity false PNull 0 [pilot; twin_pilot]) !! 0%nat = Some o
       /\ Obj.vx o = 0 /\ Obj.vy o = 0.
Proof.
  split_and!.
  - reflexivity.
  - intros Heq. apply (f_equal Obj.x) in Heq. cbn in Heq. lra.
  - apply hypot_eq; cbn; lra.
  - unfold GRAVITY_CONSTANT. cbn. lra.
  - reflexivity.
  - eexists. split; [reflexivity|]. unfold addForceAndClamp. cbn.
    replace (0 + 0) with 0 by lra. rewrite hypot_0.
    unfold MAX_VELOCITY. settle. split; lra.
Qed.

(** The pull leaves the pulling body itself alone, and paying for it
    touches nothing but the energy. *)
Lemma pullOther_self (obj : GameObject) (s : R) : pullOther obj s obj = obj.
Proof. unfold pullOther. now rewrite same_id_refl. Qed.

Lemma pay_pull_vel (q : GameObject) :
  Obj.vx (pay_pull q) = Obj.vx q /\ Obj.vy (pay_pull q) = Obj.vy q.
Proof. unfold pay_pull. now destruct (Obj.energy q). Qed.

Lemma gravityPull_self (pref : PlayerRef) (obj : GameObject)
    (objects : list GameObject) (i : nat) :
  objects !! i = Some obj ->
  exists obj1,
    fst (gravityPull pref obj objects) !! i = Some obj1
    /\ Obj.vx obj1 = Obj.vx obj /\ Obj.vy obj1 = Obj.vy obj.
Proof.
  intros Hi. unfold gravityPull.
  destruct (deref pref objects) as [q|]; [|now exists obj].
  assert (Hmap : (pullOther obj (Obj.mass q * GRAVITY_PULL_STRENGTH)
                    <$> objects) !! i = Some obj).
  { rewrite list_lookup_fmap, Hi. cbn. now rewrite pullOther_self. }
  destruct pref as [|pi|o]; cbn; try now exists obj.
  destruct (decide (pi = i)) as [->|Hne].
  - exists (pay_pull obj). rewrite list_lookup_alter_eq, Hmap. cbn.
    split; [reflexivity | apply pay_pull_vel].
  - exists obj. now rewrite list_lookup_alter_ne.
Qed.

(** What [applyGravity] leaves at the index of the body it was called
    for. *)
Lemma applyGravity_self (pullActive : bool) (pref : PlayerRef) (i : nat)
    (objects : list GameObject) (obj : GameObject) :
  objects !! i = Some obj ->
  exists obj1,
    fst (applyGravity pullActive pref i objects) !! i
      = Some (addForceAndClamp (fold_left (gravityAccum obj) objects (0, 0)) obj1)
    /\ Obj.vx obj1 = Obj.vx obj /\ Obj.vy obj1 = Obj.vy obj.
Proof.
  intros Hi. unfold applyGravity. rewrite Hi.
  destruct (pullActive && String.eqb (Obj.id obj) "player"
            && has_positive_energy (deref pref objects)).
  - destruct (gravityPull_self pref obj objects i Hi) as (obj1 & H1 & Hv).
    destruct (gravityPull pref obj objects) as [objects1 pref1]. cbn in *.
    exists obj1. rewrite list_lookup_alter_eq, H1. now split.
  - exists obj. cbn. rewrite list_lookup_alter_eq, Hi. now split.
Qed.

(** The cap of [addForceAndClamp]. *)
Lemma addForceAndClamp_speed (f : R * R) (o : GameObject) :
  speed (addForceAndClamp f o) <= MAX_VELOCITY.
Proof.
  unfold addForceAndClamp, speed.
  set (vx1 := Obj.vx o + fst f). set (vy1 := Obj.vy o + snd f).
  destruct (Rgt_dec (hypot vx1 vy1) MAX_VELOCITY) as [Hfast | Hslow]; cbn.
  - unfold MAX_VELOCITY in *.
    replace (vx1 / hypot vx1 vy1 * 4) with (4 / hypot vx1 vy1 * vx1)
      by (field; lra).
    replace (vy1 / hypot vx1 vy1 * 4) with (4 / hypot vx1 vy1 * vy1)
      by (field; lra).
    rewrite hypot_scale.
    + right. field. lra.
    + apply Rlt_le, Rdiv_lt_0_compat; lra.
  - lra.
Qed.

(** C5 (as the code has it).  After [applyGravity] has run for a body, the
    speed of that body is at most [MAX_VELOCITY]; its new velocity is the
    old one plus the summed gravity, multiplied by one factor [c] for both
    components (so the direction is kept), where [c] is 1 when the sum is
    within the cap and [MAX_VELOCITY / speed] when it is not, which brings
    the speed to exactly [MAX_VELOCITY]. *)
Theorem C5_applyGravity_caps_speed (pullActive : bool) (pref : PlayerRef)
    (i : nat) (objects : list GameObject) (obj : GameObject) :
  objects !! i = Some obj ->
  let f := fold_left (gravityAccum obj) objects (0, 0) in
  let vx1 := Obj.vx obj + fst f in
  let vy1 := Obj.vy obj + snd f in
  let c := if Rgt_dec (hypot vx1 vy1) MAX_VELOCITY
           then MAX_VELOCITY / hypot vx1 vy1 else 1 in
  exists obj', fst (applyGravity pullActive pref i objects) !! i = Some obj'
    /\ speed obj' <= MAX_VELOCITY
    /\ Obj.vx obj' = c * vx1 /\ Obj.vy obj' = c * vy1
    /\ 0 < c <= 1
    /\ (hypot vx1 vy1 > MAX_VELOCITY -> speed obj' = MAX_VELOCITY).
Proof.
  intros Hi f vx1 vy1 c.
  destruct (applyGravity_self pullActive pref i objects obj Hi)
    as (obj1 & Hlook & Hvx & Hvy).
  fold f in Hlook. exists (addForceAndClamp f obj1).
  split; [exact Hlook|]. split; [apply addForceAndClamp_speed|].
  unfold speed, addForceAndClamp. rewrite Hvx, Hvy. fold vx1 vy1.
  unfold c. unfold MAX_VELOCITY in *.
  destruct (Rgt_dec (hypot vx1 vy1) 4) as [Hfast | Hslow]; cbn.
  - repeat split; try (field; lra).
    + apply Rdiv_lt_0_compat; lra.
    + apply (Rmult_le_reg_r (hypot vx1 vy1)); [lra|].
      replace (4 / hypot vx1 vy1 * hypot vx1 vy1) with 4 by (field; lra). lra.
    + intros _.
      replace (vx1 / hypot vx1 vy1 * 4) with (4 / hypot vx1 vy1 * vx1)
        by (field; lra).
      replace (vy1 / hypot vx1 vy1 * 4) with (4 / hypot vx1 vy1 * vy1)
        by (field; lra).
      rewrite hypot_scale; [field; lra|].
      apply Rlt_le, Rdiv_lt_0_compat; lra.
  - repeat split; try lra.
Qed.

Lemma playerMoving_no_keys : playerMoving ∅ = false.
Proof. reflexivity. Qed.

(** C5, counterexample.  The orbital nudge of [handleOrbitalMechanics] is
    added after the cap of [applyGravity] and is not capped: a player at
    speed 4 (the maximum) that passes 40 below a star leaves the function at
    speed 4.02. *)
Lemma C5_orbital_nudge_exceeds_cap :
  speed fast_pilot <= MAX_VELOCITY
  /\ speed (handleOrbitalMechanics ∅ fast_pilot [fast_pilot; star_at 0 (-40)])
     = 4.02
  /\ 4.02 > MAX_VELOCITY.
Proof.
  assert (Hd : hypot (0 - 0) (-40 - 0) = 40) by (apply hypot_eq; lra).
  unfold MAX_VELOCITY. split; [|split; [|lra]].
  - unfold speed. cbn. rewrite hypot_x; lra.
  - unfold handleOrbitalMechanics. cbn. rewrite playerMoving_no_keys, !Hd.
    unfold ORBITAL_ABSORPTION_RATE. settle.
    unfold speed. cbn. apply hypot_eq; lra.
Qed.

(** [updateEnergy] writes the energy only. *)
Lemma updateEnergy_motion (o : GameObject) (objects : list GameObject) :
  Obj.x (updateEnergy o objects) = Obj.x o
  /\ Obj.y (updateEnergy o objects) = Obj.y o
  /\ Obj.vx (updateEnergy o objects) = Obj.vx o
  /\ Obj.vy (updateEnergy o objects) = Obj.vy o.
Proof.
  unfold updateEnergy. now destruct (Obj.energy o), (Obj.maxEnergy o).
Qed.

(** The same in a whole callback of the tick: gravity brings the player's
    velocity to [(4, 0)], within the cap; the nudge that follows raises it to
    [(4.02, 0)], and the position moves on by 4.02. *)
Lemma orbital_nudge_exceeds_cap_in_tick (now : nat -> Z) (rnd : nat -> R) :
  exists o,
    w_objects (bodyStep false ∅ now rnd
                 (mkWorld [drifting_pilot; star_at 0 (-40)] PNull 0) 0)
      !! 0%nat = Some o
    /\ Obj.x o = 4.02 /\ Obj.y o = 0.
Proof.
  assert (Hd : hypot (0 - 0) (-40 - 0) = 40) by (apply hypot_eq; lra).
  assert (Hv : hypot (4 + 0) (0.121875 + -0.121875) = 4)
    by (apply hypot_eq; lra).
  set (capped := Obj.set_vel (4 + 0) (0.121875 + -0.121875) drifting_pilot).
  assert (Hgravity : applyGravity false PNull 0
                       [drifting_pilot; star_at 0 (-40)]
                     = ([capped; star_at 0 (-40)], PNull)).
  { assert (Hf : fold_left (gravityAccum drifting_pilot)
                   [drifting_pilot; star_at 0 (-40)] (0, 0)
                 = (0, -0.121875)).
    { cbn. unfold gravityAccum. cbn. rewrite !Hd. settle.
      unfold GRAVITY_CONSTANT. f_equal; lra. }
    unfold applyGravity. simpl (_ !! _). lazy beta iota zeta. rewrite Hf.
    cbn [andb alter list_alter]. unfold addForceAndClamp.
    cbn [fst snd Obj.vx Obj.vy drifting_pilot].
    rewrite Hv. unfold MAX_VELOCITY. settle. reflexivity. }
  set (nudged := Obj.set_vel (4 + 0 + 1 * 0.02) (0.121875 + -0.121875 + 0 * 0.02)
                   (Obj.set_absorptionProgress (0 + ORBITAL_ABSORPTION_RATE)
                      capped)).
  assert (Horbit : handleOrbitalMechanics ∅ capped [capped; star_at 0 (-40)]
                   = nudged).
  { unfold handleOrbitalMechanics. cbn. rewrite playerMoving_no_keys, !Hd.
    unfold ORBITAL_ABSORPTION_RATE. settle. unfold nudged, capped. cbn.
    f_equal; lra. }
  exists (integrate (updateEnergy nudged [nudged; star_at 0 (-40)])).
  split.
  - unfold bodyStep, aiPhase, gravityPhase.
    cbn [w_objects w_playerRef w_rand lookup list_lookup is_ai Obj.type
         drifting_pilot Obj.isGlowing negb orb].
    rewrite Hgravity. unfold motionPhase.
    cbn [w_objects w_playerRef w_rand lookup list_lookup].
    rewrite Horbit. reflexivity.
  - destruct (updateEnergy_motion nudged [nudged; star_at 0 (-40)])
      as (Hx & Hy & Hvx & Hvy).
    unfold integrate. cbn [Obj.x Obj.y Obj.set_pos Obj.set_vel].
    rewrite Hx, Hy, Hvx, Hvy. unfold nudged, capped. cbn. split; lra.
Qed.

Lemma C5_applyGravity_caps_speed_witness :
  exists obj',
    fst (applyGravity false PNull 0 [pilot; star_at 3 4]) !! 0%nat = Some obj'
    /\ speed obj' <= MAX_VELOCITY
    /\ speed obj' = MAX_VELOCITY
    /\ Obj.vx obj' = 2.4 /\ Obj.vy obj' = 3.2.
Proof.
  assert (Hd : hypot (3 - 0) (4 - 0) = 5) by (apply hypot_eq; lra).
  assert (Hf : fold_left (gravityAccum pilot) [pilot; star_at 3 4] (0, 0)
               = (4.68, 6.24)).
  { cbn. unfold gravityAccum. cbn. rewrite !Hd. settle.
    unfold GRAVITY_CONSTANT. f_equal; lra. }
  assert (Hv : hypot (0 + 4.68) (0 + 6.24) = 7.8) by (apply hypot_eq; lra).
  destruct (C5_applyGravity_caps_speed false PNull 0 [pilot; star_at 3 4]
              pilot eq_refl) as (obj' & Hlook & Hcap & Hvx & Hvy & _ & Hfull).
  rewrite Hf in Hvx, Hvy, Hfull. cbn [fst snd Obj.vx Obj.vy pilot] in *.
  rewrite Hv in Hvx, Hvy, Hfull. unfold MAX_VELOCITY in *.
  destruct (Rgt_dec 7.8 4) as [Hfast | Hslow]; [|lra].
  exists obj'. split_and!; [exact Hlook | exact Hcap | apply Hfull; lra | lra | lra].
Defined.

(** C7.  In [gameLoop], a glowing body that is not a wormhole is not handed
    to [applyGravity]: the gravity step leaves the world, and so the body's
    velocity, as it is.  A wormhole, glowing or not, and every body that does
    not glow are handed to it, and leave it with the gravity of the array
    added to their velocity: the new velocity is the old one plus the sum of
    the attractions of the other bodies ([GRAVITY_CONSTANT * mass / d^2]
    toward each, times 1.3 for a glowing one), scaled down to speed
    [MAX_VELOCITY] when it is beyond. *)
Theorem C7_glowing_bodies_are_exempt (pullActive : bool) (i : nat) (w : World)
    (obj : GameObject) :
  w_objects w !! i = Some obj ->
  (Obj.isGlowing obj = true -> Obj.type obj <> wormhole ->
     gravityPhase pullActive i w = w)
  /\ (Obj.isGlowing obj = false \/ Obj.type obj = wormhole ->
        let vx1 := Obj.vx obj + fst (net_gravity obj (w_objects w)) in
        let vy1 := Obj.vy obj + snd (net_gravity obj (w_objects w)) in
        w_objects (gravityPhase pullActive i w)
          = fst (applyGravity pullActive (w_playerRef w) i (w_objects w))
        /\ exists obj',
             w_objects (gravityPhase pullActive i w) !! i = Some obj'
             /\ Obj.vx obj' = cap_factor vx1 vy1 * vx1
             /\ Obj.vy obj' = cap_factor vx1 vy1 * vy1).
Proof.
  intros Hi.
  assert (Hadd : forall other f,
             gravityAccum obj f other
             = (fst f + fst (attraction obj other),
                snd f + snd (attraction obj other))).
  { intros other [fx fy]. unfold gravityAccum, attraction, distance.
    destruct (same_id other obj); cbn [fst snd]; [f_equal; lra|].
    destruct (Rgt_dec _ 0); cbn [fst snd]; [|f_equal; lra].
    destruct (Obj.isGlowing other); f_equal; ring. }
  assert (Hsum : forall objects f,
             fold_left (gravityAccum obj) objects f
             = (fst f + fst (net_gravity obj objects),
                snd f + snd (net_gravity obj objects))).
  { induction objects as [|o rest IH]; intros [fx fy]; cbn.
    - f_equal; lra.
    - rewrite IH, Hadd. cbn. f_equal; lra. }
  assert (Hvel : forall (f : R * R) (o : GameObject),
             Obj.vx (addForceAndClamp f o)
             = cap_factor (Obj.vx o + fst f) (Obj.vy o + snd f)
               * (Obj.vx o + fst f)
             /\ Obj.vy (addForceAndClamp f o)
                = cap_factor (Obj.vx o + fst f) (Obj.vy o + snd f)
                  * (Obj.vy o + snd f)).
  { intros f o. unfold addForceAndClamp, cap_factor, MAX_VELOCITY.
    destruct (Rgt_dec (hypot (Obj.vx o + fst f) (Obj.vy o + snd f)) 4); cbn;
      split; try lra; field; lra. }
  unfold gravityPhase. rewrite Hi. split.
  - intros Hglow Hty. rewrite Hglow. now destruct (Obj.type obj).
  - intros Hsubject.
    assert (Hcond : negb (Obj.isGlowing obj) || is_wormhole (Obj.type obj)
                    = true).
    { destruct Hsubject as [-> | ->]; [reflexivity | apply orb_true_r]. }
    rewrite Hcond.
    destruct (applyGravity_self pullActive (w_playerRef w) i (w_objects w)
                obj Hi) as (obj1 & Hlook & Hvx & Hvy).
    destruct (applyGravity pullActive (w_playerRef w) i (w_objects w))
      as [objects1 pref1]. cbn [fst w_objects] in *.
    rewrite Hsum in Hlook. cbn [fst snd] in Hlook.
    rewrite !Rplus_0_l in Hlook.
    split; [reflexivity|]. eexists. split; [exact Hlook|].
    destruct (Hvel (fst (net_gravity obj (w_objects w)),
                    snd (net_gravity obj (w_objects w))) obj1) as [Hx Hy].
    cbn [fst snd] in Hx, Hy. rewrite Hvx, Hvy in Hx, Hy.
    split; [exact Hx | exact Hy].
Qed.

Lemma C7_glowing_bodies_are_exempt_witness :
  gravityPhase true 1 (mkWorld [pilot; star_at 3 4] (PAt 0) 0)
    = mkWorld [pilot; star_at 3 4] (PAt 0) 0
  /\ (exists obj',
        w_objects (gravityPhase true 0 (mkWorld [pilot; star_at 3 4] (PAt 0) 0))
          !! 0%nat = Some obj'
        /\ Obj.vx obj' = 2.4 /\ Obj.vy obj' = 3.2)
  /\ (exists obj',
        w_objects (gravityPhase false 0
                     (mkWorld [drifting_wormhole; star_at 3 4] PNull 0))
          !! 0%nat = Some obj'
        /\ Obj.vx obj' = 2.4 /\ Obj.vy obj' = 3.2).
Proof.
  assert (Hd : hypot (3 - 0) (4 - 0) = 5) by (apply hypot_eq; lra).
  assert (Hv : hypot (0 + 4.68) (0 + 6.24) = 7.8) by (apply hypot_eq; lra).
  assert (Hpilot : net_gravity pilot [pilot; star_at 3 4] = (4.68, 6.24)).
  { unfold net_gravity, attraction, distance. cbn. rewrite !Hd. settle.
    unfold GRAVITY_CONSTANT. f_equal; lra. }
  assert (Hworm : net_gravity drifting_wormhole [drifting_wormhole; star_at 3 4]
                  = (4.68, 6.24)).
  { unfold net_gravity, attraction, distance. cbn. rewrite !Hd. settle.
    unfold GRAVITY_CONSTANT. f_equal; lra. }
  assert (Hcap : cap_factor (0 + 4.68) (0 + 6.24) = 4 / 7.8).
  { unfold cap_factor. rewrite Hv. unfold MAX_VELOCITY.
    destruct (Rgt_dec 7.8 4); [reflexivity | lra]. }
  split_and!.
  - destruct (C7_glowing_bodies_are_exempt true 1
                (mkWorld [pilot; star_at 3 4] (PAt 0) 0) (star_at 3 4) eq_refl)
      as [Hexempt _].
    apply Hexempt; [reflexivity | discriminate].
  - destruct (C7_glowing_bodies_are_exempt true 0
                (mkWorld [pilot; star_at 3 4] (PAt 0) 0) pilot eq_refl)
      as [_ Hsubject].
    destruct Hsubject as (_ & obj' & Hlook & Hvx & Hvy); [left; reflexivity|].
    cbn [w_objects] in Hvx, Hvy. rewrite Hpilot in Hvx, Hvy.
    cbn [fst snd Obj.vx Obj.vy pilot] in Hvx, Hvy. rewrite Hcap in Hvx, Hvy.
    exists obj'. split_and!; [exact Hlook | lra | lra].
  - destruct (C7_glowing_bodies_are_exempt false 0
                (mkWorld [drifting_wormhole; star_at 3 4] PNull 0)
                drifting_wormhole eq_refl) as [_ Hsubject].
    destruct Hsubject as (_ & obj' & Hlook & Hvx & Hvy); [right; reflexivity|].
    cbn [w_objects] in Hvx, Hvy. rewrite Hworm in Hvx, Hvy.
    cbn [fst snd Obj.vx Obj.vy drifting_wormhole] in Hvx, Hvy.
    rewrite Hcap in Hvx, Hvy.
    exists obj'. split_and!; [exact Hlook | lra | lra].
Defined.

(** Over the whole callback of the tick, a glowing body that is neither a
    wormhole, an AI nor the player only coasts: its position advances by its
    velocity, and its velocity is damped by 0.998, gravity playing no
    part. *)
Lemma glowing_body_coasts (pullActive : bool) (keys : gset string)
    (now : nat -> Z) (rnd : nat -> R) (w : World) (i : nat)
    (obj : GameObject) :
  w_objects w !! i = Some obj ->
  Obj.isGlowing obj = true ->
  Obj.type obj <> wormhole -> Obj.type obj <> ai -> Obj.type obj <> player ->
  exists obj',
    w_objects (bodyStep pullActive keys now rnd w i) !! i = Some obj'
    /\ Obj.vx obj' = Obj.vx obj * 0.998 /\ Obj.vy obj' = Obj.vy obj * 0.998
    /\ Obj.x obj' = Obj.x obj + Obj.vx obj
    /\ Obj.y obj' = Obj.y obj + Obj.vy obj.
Proof.
  intros Hi Hglow Hw Ha Hp. unfold bodyStep.
  assert (Hai : aiPhase (now i) rnd i w = w).
  { unfold aiPhase. rewrite Hi. now destruct (Obj.type obj). }
  assert (Hgr : gravityPhase pullActive i w = w).
  { unfold gravityPhase. rewrite Hi, Hglow. now destruct (Obj.type obj). }
  rewrite Hai, Hgr. unfold motionPhase. rewrite Hi. cbn [w_objects].
  assert (Horb : handleOrbitalMechanics keys obj (w_objects w) = obj).
  { unfold handleOrbitalMechanics. now destruct (Obj.type obj). }
  rewrite Horb, (list_insert_id (w_objects w) i obj Hi).
  eexists. split.
  - apply list_lookup_insert_eq. eapply lookup_lt_Some, Hi.
  - unfold updateEnergy.
    destruct (Obj.energy obj), (Obj.maxEnergy obj); cbn; now split_and!.
Qed.


(** ** Energy (C1) *)

(** The charging loop keeps the energy between 0 and [maxE] when the
    charging rates are not negative. *)
Lemma chargeStep_in_range (obj other : GameObject) (maxE e : R) :
  0 <= or_default (Obj.chargingRate other) 1 ->
  0 <= e <= maxE -> 0 <= chargeStep obj maxE e other <= maxE.
Proof.
  intros Hrate He. unfold chargeStep.
  destruct (negb (Obj.isGlowing other) || same_id other obj); [exact He|].
  set (d := hypot _ _).
  destruct (Rlt_dec d CHARGING_RADIUS) as [Hlt|]; [|exact He].
  destruct (Rgt_dec d _) as [_|]; [|exact He].
  unfold CHARGING_RADIUS in *.
  assert (0 <= or_default (Obj.chargingRate other) 1 * (1 - d / 400)).
  { apply Rmult_le_pos; [exact Hrate|].
    assert (d / 400 < 1) by (apply (Rmult_lt_reg_r 400); [lra|];
                               replace (d / 400 * 400) with d by field; lra).
    lra. }
  unfold Rmin. destruct (Rle_dec _ _); lra.
Qed.

(** [updateEnergy] brings the energy into [[0, maxEnergy]], also from below
    zero. *)
Lemma updateEnergy_in_range (obj : GameObject) (objects : list GameObject)
    (e maxE : R) :
  Obj.energy obj = Some e -> Obj.maxEnergy obj = Some maxE ->
  e <= maxE -> 0 <= maxE ->
  Forall (fun other => 0 <= or_default (Obj.chargingRate other) 1) objects ->
  energy_in_range (updateEnergy obj objects).
Proof.
  intros He Hm Hle Hmax Hrates.
  unfold energy_in_range, updateEnergy. rewrite He, Hm. cbn. rewrite Hm.
  assert (H0 : 0 <= Rmax 0 (e - ENERGY_DECAY_RATE * 0.016) <= maxE).
  { unfold ENERGY_DECAY_RATE, Rmax. destruct (Rle_dec _ _); lra. }
  revert H0. generalize (Rmax 0 (e - ENERGY_DECAY_RATE * 0.016)).
  induction Hrates as [|other rest Hother _ IH]; intros e0 H0; cbn.
  - exact H0.
  - apply IH. now apply chargeStep_in_range.
Qed.

(** The energy transfer of an absorption is capped at [maxEnergy] and, for
    energies that are not negative, stays at or above 0. *)
Lemma absorb_energy_in_range (li : nat) (larger smaller : GameObject)
    (st st' : CollisionState) (el es maxE : R) :
  Obj.energy larger = Some el -> Obj.energy smaller = Some es ->
  Obj.maxEnergy larger = Some maxE ->
  0 <= el <= maxE -> 0 <= es ->
  (li < length (cs_objects st))%nat ->
  absorb li larger smaller st = Some st' ->
  st' = st
  \/ exists l', cs_objects st' !! li = Some l' /\ energy_in_range l'.
Proof.
  intros Hel Hes Hmax Hl Hs Hli. unfold absorb.
  destruct (negb (Obj.isGlowing smaller) && negb (Obj.isGlowing larger));
    [|intros [= <-]; now left].
  cbn [Obj.energy Obj.set_radius Obj.set_mass Obj.maxEnergy].
  rewrite Hel, Hes, Hmax.
  destruct (truthy (Some el) && truthy (Some es)); intros [= <-]; right;
    eexists; (split; [now apply list_lookup_insert_eq|]);
    unfold energy_in_range; cbn; rewrite ?Hel, ?Hmax; [|lra].
  unfold ENERGY_ABSORPTION_RATE, Rmin. destruct (Rle_dec _ _); lra.
Qed.

(** In the tick, [updateEnergy] follows [applyGravity] in the same callback:
    when [playerRef.current] is the player of the array, the energy that
    the pull cost took below zero is back at 0 when the callback ends. *)
Lemma pull_cost_is_clamped_later (now : nat -> Z) (rnd : nat -> R) :
  exists o,
    w_objects (bodyStep true ∅ now rnd (mkWorld [tired_pilot] (PAt 0) 0) 0)
      !! 0%nat = Some o
    /\ Obj.energy o = Some 0.
Proof.
  assert (H0 : hypot (0 + 0) (0 + 0) = 0) by (apply hypot_eq; lra).
  eexists. split.
  - unfold bodyStep, aiPhase, gravityPhase. cbn.
    unfold applyGravity, gravityPull, has_positive_energy. cbn. settle.
    unfold addForceAndClamp. cbn. rewrite H0. unfold MAX_VELOCITY. settle.
    unfold motionPhase. cbn. reflexivity.
  - cbn. unfold GRAVITY_PULL_COST, ENERGY_DECAY_RATE. f_equal.
    unfold Rmax. destruct (Rle_dec _ _); lra.
Qed.

(** C1, at the failing input.  The gravity-pull cost is subtracted without a
    clamp: a player with 0.01 energy that holds the pull key leaves
    [applyGravity] with energy [0.01 - 3 * 0.016 = -0.038], outside
    [[0, maxEnergy]]. *)
Theorem C1_pull_cost_is_not_clamped :
  energy_in_range tired_pilot
  /\ exists o,
       fst (applyGravity true (PAt 0) 0 [tired_pilot]) !! 0%nat = Some o
       /\ Obj.energy o = Some (0.01 - GRAVITY_PULL_COST * 0.016)
       /\ Obj.maxEnergy o = Some 120
       /\ ~ energy_in_range o.
Proof.
  split; [cbn; lra|].
  assert (H0 : hypot (0 + 0) (0 + 0) = 0) by (apply hypot_eq; lra).
  eexists. split; [|split; [|split]].
  - unfold applyGravity, gravityPull, has_positive_energy. cbn.
    settle. unfold addForceAndClamp. cbn. rewrite H0.
    unfold MAX_VELOCITY. settle. reflexivity.
  - reflexivity.
  - reflexivity.
  - cbn. unfold GRAVITY_PULL_COST. lra.
Qed.

(** ** Orbital risk (C2) *)

(** C2, counterexample.  Risk above 1 is fatal by itself: a player whose
    risk is 1.2 and that idles 26 away from the center of a star of radius
    18, so two units short of contact, leaves [handleOrbitalMechanics] with
    energy 0, and [updateEnergy], which follows it in the tick, keeps it at
    0 (the player is too close to the star to be charged). *)
Lemma C2_risk_alone_is_fatal :
  let objects := [risky_pilot; star_at 0 26] in
  ~ distance risky_pilot (star_at 0 26)
      < Obj.radius risky_pilot + Obj.radius (star_at 0 26)
  /\ Obj.energy risky_pilot = Some 80
  /\ Obj.energy (handleOrbitalMechanics ∅ risky_pilot objects) = Some 0
  /\ Obj.energy (updateEnergy (handleOrbitalMechanics ∅ risky_pilot objects)
                   objects) = Some 0.
Proof.
  assert (Hd : hypot (0 - 0) (26 - 0) = 26) by (apply hypot_eq; lra).
  assert (Horbit : handleOrbitalMechanics ∅ risky_pilot
                     [risky_pilot; star_at 0 26]
                   = Obj.set_energy (Some 0)
                       (Obj.set_absorptionProgress
                          (1.2 + ORBITAL_ABSORPTION_RATE) risky_pilot)).
  { unfold handleOrbitalMechanics. cbn. rewrite playerMoving_no_keys, !Hd.
    unfold ORBITAL_ABSORPTION_RATE. settle. reflexivity. }
  cbn zeta. repeat split.
  - unfold distance. cbn. rewrite Hd. lra.
  - now rewrite Horbit.
  - rewrite Horbit. unfold updateEnergy. cbn. rewrite !Hd.
    unfold CHARGING_RADIUS, ENERGY_DECAY_RATE. settle.
    f_equal. unfold Rmax. destruct (Rle_dec _ _); lra.
Qed.

Lemma is_wormhole_false (t : ObjectType) :
  t <> wormhole -> is_wormhole t = false.
Proof. now destruct t. Qed.

(** [handleOrbitalMechanics] writes no energy but 0: once a step has set
    the energy to 0, the steps for the rest of the array leave it at 0. *)
Lemma orbitalStep_keeps_zero (keys : gset string) (obj g : GameObject) :
  Obj.energy obj = Some 0 -> Obj.energy (orbitalStep keys obj g) = Some 0.
Proof.
  intros He. unfold orbitalStep.
  destruct (_ || _); [exact He|].
  destruct (Rlt_dec _ _); [|exact He].
  destruct (playerMoving keys); [|destruct (Rgt_dec _ 1)];
    now destruct (Rgt_dec _ _).
Qed.

Lemma orbital_fold_keeps_zero (keys : gset string) (l : list GameObject) :
  forall obj,
    Obj.energy obj = Some 0 ->
    Obj.energy (fold_left (orbitalStep keys) l obj) = Some 0.
Proof.
  induction l as [|g rest IH]; intros obj He; [exact He|].
  cbn. apply IH. now apply orbitalStep_keeps_zero.
Qed.

(** C2 (as the code has it).  Orbital risk above 1 is fatal in two places.
    In [handleOrbitalMechanics], the step for a glowing body within the
    band (closer than the two radii plus 50) of a player that holds no
    movement key raises the risk, as the bodies before it in the array left
    it, by [ORBITAL_ABSORPTION_RATE = 0.001]; when the raised risk exceeds 1
    it sets the player's energy to 0, contact or not, and the player then
    leaves the function with energy 0, whatever follows in the array; when
    it does not, the step leaves the energy as it is.  In [handleCollisions], a pair in contact made of a glowing body and
    a player whose risk exceeds 1 has the energy of the player set to 0 and
    nothing else changed: no mass moves and nothing is queued for removal.
    (A wormhole that comes before the player in the array teleports it
    instead; when both bodies of the pair are glowing players at risk, it is
    the second whose energy is set to 0.) *)
Theorem C2_risk_above_one_is_fatal (keys : gset string) (obj g : GameObject)
    (wormholes : list GameObject) (rnd : nat -> R) (i j : nat)
    (st : CollisionState) (obj1 obj2 : GameObject) :
  (Obj.isGlowing g = true -> same_id g obj = false ->
   distance obj g < Obj.radius g + Obj.radius obj + 50 ->
   playerMoving keys = false ->
   Obj.absorptionProgress (orbitalStep keys obj g)
     = Some (risk obj + ORBITAL_ABSORPTION_RATE)
   /\ risk (orbitalStep keys obj g) = risk obj + 0.001
   /\ (risk obj + ORBITAL_ABSORPTION_RATE > 1 ->
       Obj.energy (orbitalStep keys obj g) = Some 0
       /\ forall (start : GameObject) (before after : list GameObject),
            Obj.type start = player ->
            fold_left (orbitalStep keys) before start = obj ->
            Obj.energy
              (handleOrbitalMechanics keys start (before ++ g :: after))
            = Some 0)
   /\ (~ risk obj + ORBITAL_ABSORPTION_RATE > 1 ->
       Obj.energy (orbitalStep keys obj g) = Obj.energy obj))
  /\ (cs_objects st !! i = Some obj1 -> cs_objects st !! j = Some obj2 ->
      distance obj1 obj2 < Obj.radius obj1 + Obj.radius obj2 ->
      (Obj.isGlowing obj1 = true -> Obj.type obj1 <> wormhole ->
       Obj.type obj2 = player -> at_risk obj2 = true ->
       collidePair wormholes rnd i j st
         = Some (mkCollisionState
                   (<[j := Obj.set_energy (Some 0) obj2]> (cs_objects st))
                   (cs_toRemove st) (cs_scoreIncrease st) (cs_rand st)))
      /\ (Obj.isGlowing obj2 = true ->
          Obj.type obj1 = player -> at_risk obj1 = true ->
          collidePair wormholes rnd i j st
            = Some (mkCollisionState
                      (if Obj.isGlowing obj1 && is_player (Obj.type obj2)
                          && at_risk obj2
                       then <[j := Obj.set_energy (Some 0) obj2]> (cs_objects st)
                       else <[i := Obj.set_energy (Some 0) obj1]> (cs_objects st))
                      (cs_toRemove st) (cs_scoreIncrease st) (cs_rand st)))).
Proof.
  split.
  - intros Hglow Hid Hband Hidle.
    assert (Hstep : orbitalStep keys obj g
                    = let p := risk obj + ORBITAL_ABSORPTION_RATE in
                      let obj' := Obj.set_absorptionProgress p obj in
                      let obj1 := if Rgt_dec p 1 then Obj.set_energy (Some 0) obj'
                                  else obj' in
                      if Rgt_dec (distance obj g)
                           (Obj.radius g + Obj.radius obj + 10)
                      then Obj.set_vel
                             (Obj.vx obj1
                              + - (Obj.y g - Obj.y obj) / distance obj g * 0.02)
                             (Obj.vy obj1
                              + (Obj.x g - Obj.x obj) / distance obj g * 0.02)
                             obj1
                      else obj1).
    { unfold orbitalStep. rewrite Hglow, Hid, Hidle. cbn [negb orb].
      fold (distance obj g). fold (risk obj).
      destruct (Rlt_dec _ _) as [_ | Hout]; [reflexivity | now destruct Hout]. }
    assert (Hrisk : Obj.absorptionProgress (orbitalStep keys obj g)
                    = Some (risk obj + ORBITAL_ABSORPTION_RATE)).
    { rewrite Hstep. cbn zeta.
      now destruct (Rgt_dec (risk obj + _) 1), (Rgt_dec (distance obj g) _). }
    assert (Hfatal : risk obj + ORBITAL_ABSORPTION_RATE > 1 ->
                     Obj.energy (orbitalStep keys obj g) = Some 0).
    { intros Hover. rewrite Hstep. cbn zeta.
      destruct (Rgt_dec (risk obj + _) 1) as [_ | Hlow]; [|now destruct Hlow].
      now destruct (Rgt_dec (distance obj g) _). }
    split_and!.
    + exact Hrisk.
    + unfold risk at 1. rewrite Hrisk. unfold or_default, ORBITAL_ABSORPTION_RATE.
      destruct (Req_dec_T _ 0) as [Hz | _]; [|reflexivity].
      unfold ORBITAL_ABSORPTION_RATE in Hz. lra.
    + intros Hover. split; [now apply Hfatal|].
      intros start before after Hty Hbefore. unfold handleOrbitalMechanics.
      rewrite Hty. cbn [is_player]. rewrite fold_left_app, Hbefore. cbn.
      apply orbital_fold_keeps_zero. now apply Hfatal.
    + intros Hlow. rewrite Hstep. cbn zeta.
      destruct (Rgt_dec (risk obj + _) 1) as [Hover | _]; [now destruct Hlow|].
      now destruct (Rgt_dec (distance obj g) _).
  - intros H1 H2 Hcontact. unfold collidePair. rewrite H1, H2.
    destruct (Rlt_dec _ _) as [_ | Hfar]; [|now destruct Hfar]. split.
    + intros Hglow Hty1 Hty2 Hrisk.
      now rewrite (is_wormhole_false _ Hty1), Hglow, Hty2, Hrisk.
    + intros Hglow2 Hty1 Hrisk. rewrite Hty1, Hglow2, Hrisk.
      cbn [is_wormhole is_player andb].
      now destruct (Obj.isGlowing obj1 && is_player (Obj.type obj2)
                    && at_risk obj2).
Qed.

Lemma C2_risk_above_one_is_fatal_witness :
  (Obj.absorptionProgress (orbitalStep ∅ risky_pilot (star_at 0 26))
     = Some (1.2 + 0.001)
   /\ Obj.energy (orbitalStep ∅ risky_pilot (star_at 0 26)) = Some 0
   /\ Obj.energy
        (handleOrbitalMechanics ∅ risky_pilot
           ([risky_pilot] ++ star_at 0 26 :: [big_planet])) = Some 0)
  /\ (Obj.absorptionProgress (orbitalStep ∅ pilot (star_at 0 26))
        = Some (0 + 0.001)
      /\ Obj.energy (orbitalStep ∅ pilot (star_at 0 26)) = Some 80)
  /\ collidePair [] (fun _ => 0) 0 1
       (mkCollisionState [risky_pilot; star_at 0 10] [] 0 0)
     = Some (mkCollisionState
               [Obj.set_energy (Some 0) risky_pilot; star_at 0 10] [] 0 0)
  /\ collidePair [] (fun _ => 0) 0 1
       (mkCollisionState [star_at 0 10; risky_pilot] [] 0 0)
     = Some (mkCollisionState
               [star_at 0 10; Obj.set_energy (Some 0) risky_pilot] [] 0 0).
Proof.
  assert (Hband : hypot (0 - 0) (26 - 0) = 26) by (apply hypot_eq; lra).
  assert (Hdown : hypot (0 - 0) (10 - 0) = 10) by (apply hypot_eq; lra).
  assert (Hup : hypot (0 - 0) (0 - 10) = 10) by (apply hypot_eq; lra).
  assert (Hrisk : at_risk risky_pilot = true).
  { unfold at_risk. cbn. settle. reflexivity. }
  assert (Hrisky : risk risky_pilot = 1.2).
  { unfold risk. cbn. settle. reflexivity. }
  assert (Hcalm : risk pilot = 0) by reflexivity.
  split; [|split; [|split]].
  - destruct (C2_risk_above_one_is_fatal ∅ risky_pilot (star_at 0 26)
                [] (fun _ => 0) 0 1 (mkCollisionState [] [] 0 0)
                risky_pilot risky_pilot) as [Horbit _].
    destruct Horbit as (Hraised & _ & Hfatal & _); try reflexivity.
    { unfold distance. cbn. rewrite Hband. lra. }
    rewrite Hrisky in Hraised, Hfatal. unfold ORBITAL_ABSORPTION_RATE in *.
    destruct Hfatal as [Hzero Hwhole]; [lra|].
    split_and!; [exact Hraised | exact Hzero |].
    apply (Hwhole risky_pilot [risky_pilot] [big_planet]); reflexivity.
  - destruct (C2_risk_above_one_is_fatal ∅ pilot (star_at 0 26)
                [] (fun _ => 0) 0 1 (mkCollisionState [] [] 0 0)
                pilot pilot) as [Horbit _].
    destruct Horbit as (Hraised & _ & _ & Hsafe); try reflexivity.
    { unfold distance. cbn. rewrite Hband. lra. }
    rewrite Hcalm in Hraised, Hsafe. unfold ORBITAL_ABSORPTION_RATE in *.
    split; [exact Hraised | apply Hsafe; lra].
  - destruct (C2_risk_above_one_is_fatal ∅ risky_pilot risky_pilot
                [] (fun _ => 0) 0 1
                (mkCollisionState [risky_pilot; star_at 0 10] [] 0 0)
                risky_pilot (star_at 0 10)) as [_ Hpair].
    destruct Hpair as [_ Hplayer_first]; try reflexivity.
    + unfold distance. cbn. rewrite Hdown. lra.
    + now apply Hplayer_first.
  - destruct (C2_risk_above_one_is_fatal ∅ risky_pilot risky_pilot
                [] (fun _ => 0) 0 1
                (mkCollisionState [star_at 0 10; risky_pilot] [] 0 0)
                (star_at 0 10) risky_pilot) as [_ Hpair].
    destruct Hpair as [Hstar_first _]; try reflexivity.
    + unfold distance. cbn. rewrite Hup. lra.
    + apply Hstar_first; try reflexivity; try discriminate. exact Hrisk.
Defined.

(** ** Space activities (C9) *)

Lemma touches_same_place (p q : GameObject) (a : SpaceActivity) :
  same_place p q -> touches p a = touches q a.
Proof. intros (Hx & Hy & Hr). unfold touches. now rewrite Hx, Hy, Hr. Qed.

Lemma collect_same_place (a : SpaceActivity) (p : GameObject) :
  same_place (collect a p) p /\ Obj.maxEnergy (collect a p) = Obj.maxEnergy p.
Proof. unfold collect, same_place. now destruct (Act.type a). Qed.

Lemma touches_mark (pl : GameObject) (a : SpaceActivity) :
  touches pl (mark pl a) = false.
Proof.
  unfold mark. destruct (touches pl a) eqn:Ht; [|exact Ht].
  unfold touches. cbn. apply andb_false_r.
Qed.

(** A pass over activities none of which is touched changes nothing. *)
Lemma visitActivities_idle (todo : list SpaceActivity) :
  forall (p : GameObject) (score : R) (found : list string)
         (seen : list SpaceActivity),
    Forall (fun a => touches p a = false) todo ->
    visitActivities p score found seen todo
      = mkActivityState p (seen ++ todo) score found.
Proof.
  induction todo as [|a rest IH]; intros p score found seen Hidle; cbn.
  - now rewrite app_nil_r.
  - inversion Hidle as [|? ? Ha Hrest]; subst. rewrite Ha.
    rewrite IH by exact Hrest. now rewrite <- app_assoc.
Qed.

(** What one pass does, for a player that stays at the place of [pl]. *)
Lemma visitActivities_spec (pl : GameObject) (todo : list SpaceActivity) :
  forall (p : GameObject) (score : R) (found : list string)
         (seen : list SpaceActivity),
    same_place p pl -> Obj.maxEnergy p = Obj.maxEnergy pl ->
    let r := visitActivities p score found seen todo in
    as_activities r = seen ++ (mark pl <$> todo)
    /\ as_score r = score + gain pl todo
    /\ as_discovered r
       = found ++ (Act.id <$> List.filter (touches pl) todo)
    /\ same_place (as_player r) pl
    /\ Obj.maxEnergy (as_player r) = Obj.maxEnergy pl
    /\ (Obj.energy p = Obj.maxEnergy pl
        \/ Exists (fun a => touches pl a = true
                            /\ Act.type a = energyCrystal) todo ->
        Obj.energy (as_player r) = Obj.maxEnergy pl).
Proof.
  induction todo as [|a rest IH]; intros p score found seen Hplace Hmax; cbn.
  - rewrite !app_nil_r. unfold gain. cbn. split_and!; try easy; try lra.
    intros [He | Hex]; [exact He | inversion Hex].
  - rewrite (touches_same_place p pl a Hplace). unfold mark at 1, gain.
    cbn [List.filter]. destruct (touches pl a) eqn:Ht.
    + destruct (collect_same_place a p) as [Hplace' Hmax'].
      assert (Hpl : same_place (collect a p) pl).
      { destruct Hplace' as (? & ? & ?), Hplace as (? & ? & ?).
        repeat split; congruence. }
      assert (Hm : Obj.maxEnergy (collect a p) = Obj.maxEnergy pl)
        by congruence.
      destruct (IH (collect a p) (score + Act.reward a) (found ++ [Act.id a])
                  (seen ++ [Act.set_discovered true a]) Hpl Hm)
        as (Hacts & Hscore & Hfound & Hp & Hmx & Hen).
      rewrite Hacts, Hscore, Hfound. rewrite <- !app_assoc. cbn.
      unfold gain. split_and!; try easy; try lra.
      intros Hcase. apply Hen. destruct Hcase as [He | Hex].
      * left. unfold collect. destruct (Act.type a); cbn; congruence.
      * inversion Hex as [? ? [_ Hty] | ? ? Hlater]; subst.
        -- left. unfold collect. rewrite Hty. cbn. exact Hmax.
        -- now right.
    + destruct (IH p score found (seen ++ [a]) Hplace Hmax)
        as (Hacts & Hscore & Hfound & Hp & Hmx & Hen).
      rewrite Hacts, Hscore, Hfound. rewrite <- !app_assoc. cbn.
      unfold gain. split_and!; try easy.
      intros Hcase. apply Hen. destruct Hcase as [He | Hex]; [now left|].
      inversion Hex as [? ? [Htouch _] | ? ? Hlater]; subst;
        [congruence | now right].
Qed.

Lemma gain_app (pl : GameObject) (l1 l2 : list SpaceActivity) :
  gain pl (l1 ++ l2) = gain pl l1 + gain pl l2.
Proof.
  unfold gain. rewrite List.filter_app, map_app, fold_right_app.
  induction (map Act.reward (List.filter (touches pl) l1)) as [|r rs IH]; cbn.
  - lra.
  - rewrite IH. lra.
Qed.

Lemma mark_id (pl : GameObject) (a : SpaceActivity) :
  Act.id (mark pl a) = Act.id a.
Proof. unfold mark. now destruct (touches pl a). Qed.

(** C9.  When the player is in contact with an undiscovered activity of
    kind [energyCrystal], one run of [handleSpaceActivities] sets the
    player's energy to its [maxEnergy] and the activity's [discovered] flag
    to [true], and adds the activity's reward to the score once (next to
    the rewards of the other activities discovered in the same run); every
    activity stays in the array, under its id; a second run, the player
    still in contact, changes nothing at all; and whenever the flagged
    activity is visited again, wherever the player is, the visit passes it
    by. *)
Theorem C9_energy_crystal_discovery (st : ActivityState) (n : nat)
    (a : SpaceActivity) :
  as_activities st !! n = Some a ->
  Act.type a = energyCrystal ->
  Act.discovered a = false ->
  hypot (Act.x a - Obj.x (as_player st)) (Act.y a - Obj.y (as_player st))
    < Act.radius a + Obj.radius (as_player st) ->
  let pl := as_player st in
  let st' := handleSpaceActivities st in
  Obj.energy (as_player st') = Obj.maxEnergy pl
  /\ as_activities st' !! n = Some (Act.set_discovered true a)
  /\ as_score st'
     = as_score st + gain pl (take n (as_activities st)) + Act.reward a
       + gain pl (drop (S n) (as_activities st))
  /\ as_activities st' = mark pl <$> as_activities st
  /\ Act.id <$> as_activities st' = Act.id <$> as_activities st
  /\ handleSpaceActivities st' = st'
  /\ forall (p : GameObject) (score : R) (found : list string)
            (seen rest : list SpaceActivity),
       visitActivities p score found seen (Act.set_discovered true a :: rest)
       = visitActivities p score found (seen ++ [Act.set_discovered true a])
           rest.
Proof.
  intros Hn Hty Hnew Hclose pl st'.
  assert (Htouch : touches pl a = true).
  { unfold touches. fold pl in Hclose. rewrite Hnew.
    now destruct (Rlt_dec _ _). }
  assert (Hself : same_place pl pl) by (now unfold same_place).
  destruct (visitActivities_spec pl (as_activities st) pl (as_score st)
              (as_discovered st) [] Hself eq_refl)
    as (Hacts & Hscore & Hfound & Hplace & Hmax & Hen).
  change (visitActivities pl (as_score st) (as_discovered st) []
            (as_activities st)) with st' in *.
  cbn [app] in Hacts.
  split_and!.
  - apply Hen. right. apply Exists_exists. exists a. split; [|easy].
    eapply list_elem_of_lookup_2, Hn.
  - rewrite Hacts, list_lookup_fmap, Hn. cbn. unfold mark. now rewrite Htouch.
  - rewrite Hscore.
    rewrite <- (take_drop_middle (as_activities st) n a Hn) at 1.
    rewrite gain_app. change (a :: ?l) with ([a] ++ l). rewrite gain_app.
    unfold gain at 2. cbn. rewrite Htouch. cbn. lra.
  - exact Hacts.
  - rewrite Hacts, <- list_fmap_compose. apply list_fmap_ext.
    intros ? b _. apply mark_id.
  - unfold handleSpaceActivities at 1. rewrite visitActivities_idle.
    + now destruct st'.
    + rewrite Hacts. apply Forall_fmap, Forall_forall. intros b _. cbn.
      rewrite (touches_same_place _ pl _ Hplace). apply touches_mark.
  - intros p score found seen rest. cbn [visitActivities].
    assert (Hskip : touches p (Act.set_discovered true a) = false)
      by (unfold touches; cbn; apply andb_false_r).
    now rewrite Hskip.
Qed.

Lemma C9_energy_crystal_discovery_witness :
  let st := mkActivityState pilot [wreck; crystal; relic] 0 [] in
  let st' := handleSpaceActivities st in
  Obj.energy (as_player st') = Some 120
  /\ as_activities st' !! 1%nat = Some (Act.set_discovered true crystal)
  /\ handleSpaceActivities st' = st'.
Proof.
  assert (Hclose : hypot (3 - 0) (4 - 0) < 15 + 6).
  { rewrite (hypot_eq (3 - 0) (4 - 0) 5); lra. }
  destruct (C9_energy_crystal_discovery
              (mkActivityState pilot [wreck; crystal; relic] 0 []) 1 crystal
              eq_refl eq_refl eq_refl Hclose)
    as (Hen & Hflag & _ & _ & _ & Hidem & _).
  cbn zeta. split_and!; [exact Hen | exact Hflag | exact Hidem].
Defined.

(** ** AI policy (C8) *)


(** The charging AI steers toward [glowingObjects[0]], the first glowing
    body in range in array order, which need not be the nearest: with the
    far star first in the array, the AI is pushed to the right, away from
    the near star. *)
Lemma charging_target_is_first_in_array :
  distance hungry_ai near_star < distance hungry_ai far_star
  /\ updateAI 1000 (fun _ => 0) 0 hungry_ai [hungry_ai; far_star; near_star]
     = (Obj.set_vel (0 + (200 - 0) / 200 * 0.1) (0 + (0 - 0) / 200 * 0.1)
          (Obj.set_aiState charging (grown 1000 hungry_ai)), 0%nat).
Proof.
  assert (Hfar : hypot (200 - 0) (0 - 0) = 200) by (apply hypot_eq; lra).
  assert (Hnear : hypot (-50 - 0) (0 - 0) = 50) by (apply hypot_eq; lra).
  split.
  - unfold distance. cbn. rewrite Hfar, Hnear. lra.
  - unfold updateAI. cbn. settle.
    unfold aiDecide, grown. cbn. unfold AI_MAX_MASS, AI_GROWTH_RATE. settle.
    unfold nearby, distance. cbn. rewrite !Hfar, !Hnear. settle.
    unfold steer_toward. cbn. rewrite !Hfar. settle. reflexivity.
Qed.

(** The hunting AI steers toward [smallerObjects[0]], the first lighter
    body in range in array order, which need not be the nearest: with the
    meteor 40 above first in the array, the AI is pushed up, away from the
    meteor 30 below. *)
Lemma hunting_target_is_first_in_array :
  distance hungry_ai near_meteor < distance hungry_ai far_meteor
  /\ updateAI 1000 (fun _ => 0) 0 hungry_ai [hungry_ai; far_meteor; near_meteor]
     = (Obj.set_vel (0 + (0 - 0) / 40 * 0.08) (0 + (40 - 0) / 40 * 0.08)
          (Obj.set_aiState hunting (grown 1000 hungry_ai)), 0%nat).
Proof.
  assert (Hfar : hypot (0 - 0) (40 - 0) = 40) by (apply hypot_eq; lra).
  assert (Hnear : hypot (0 - 0) (-30 - 0) = 30) by (apply hypot_eq; lra).
  split.
  - unfold distance. cbn. rewrite Hfar, Hnear. lra.
  - unfold updateAI. cbn. settle.
    unfold aiDecide, aiOtherwise, grown. cbn.
    unfold AI_MAX_MASS, AI_GROWTH_RATE. settle.
    unfold nearby, distance. cbn. rewrite !Hfar, !Hnear. settle.
    unfold larger_threat, smaller_prey. cbn. settle.
    unfold steer_toward. cbn. rewrite !Hfar. settle. reflexivity.
Qed.

(** The fleeing AI is pushed away from every heavier body closer than 150,
    not from the nearest only: with a planet 100 to its right and another
    120 above it, it is pushed both to the left and down. *)
Lemma fleeing_is_from_every_threat :
  distance hungry_ai big_planet < distance hungry_ai second_planet
  /\ updateAI 1000 (fun _ => 0) 0 hungry_ai
       [hungry_ai; big_planet; second_planet]
     = (Obj.set_vel (0 + (0 - 100) / 100 * 0.15 + (0 - 0) / 120 * 0.15)
          (0 + (0 - 0) / 100 * 0.15 + (0 - 120) / 120 * 0.15)
          (Obj.set_aiState fleeing (grown 1000 hungry_ai)), 0%nat).
Proof.
  assert (Hd : hypot (100 - 0) (0 - 0) = 100) by (apply hypot_eq; lra).
  assert (Hd' : hypot (0 - 100) (0 - 0) = 100) by (apply hypot_eq; lra).
  assert (He : hypot (0 - 0) (120 - 0) = 120) by (apply hypot_eq; lra).
  assert (He' : hypot (0 - 0) (0 - 120) = 120) by (apply hypot_eq; lra).
  split.
  - unfold distance. cbn. rewrite Hd, He. lra.
  - unfold updateAI. cbn. settle.
    unfold aiDecide, aiOtherwise, grown. cbn.
    unfold AI_MAX_MASS, AI_GROWTH_RATE. settle.
    unfold nearby, distance. cbn. rewrite !Hd, !He. settle.
    unfold larger_threat. cbn. settle.
    unfold flee_from. cbn.
    repeat (progress (rewrite ?Hd', ?He'; settle)). reflexivity.
Qed.










(** ** Collisions (C3, C4) *)

Lemma calculateRadius_debris (m : R) : 2 <= calculateRadius m debris.
Proof. unfold calculateRadius. apply Rmax_l. Qed.

(** What a regular absorption does. *)
Lemma absorb_spec (li : nat) (larger smaller : GameObject)
    (st : CollisionState) :
  Obj.isGlowing larger = false -> Obj.isGlowing smaller = false ->
  energy_transfer_defined larger smaller ->
  exists l',
    absorb li larger smaller st
      = Some (mkCollisionState (<[li := l']> (cs_objects st))
                (cs_toRemove st ++ [Obj.id smaller])
                (if String.eqb (Obj.id larger) "player"
                 then cs_scoreIncrease st + Math_floor (Obj.mass smaller * 20)
                 else cs_scoreIncrease st)
                (cs_rand st))
    /\ Obj.mass l' = Obj.mass larger + Obj.mass smaller * MASS_ABSORPTION_RATE
    /\ Obj.radius l' = calculateRadius (Obj.mass l') (Obj.type larger)
    /\ Obj.id l' = Obj.id larger.
Proof.
  intros Hl Hs Hdef. unfold absorb. rewrite Hl, Hs. cbn [negb andb].
  cbn [Obj.energy Obj.set_radius Obj.set_mass Obj.maxEnergy].
  destruct (truthy (Obj.energy larger)) eqn:Htl;
    [destruct (truthy (Obj.energy smaller)) eqn:Hts|]; cbn [andb].
  - specialize (Hdef Htl Hts).
    destruct (Obj.energy larger) as [el|]; [|discriminate].
    destruct (Obj.energy smaller) as [es|]; [|discriminate].
    destruct (Obj.maxEnergy larger) as [maxE|]; [|contradiction].
    eexists. split; [reflexivity | split_and!; reflexivity].
  - eexists. split; [reflexivity | split_and!; reflexivity].
  - eexists. split; [reflexivity | split_and!; reflexivity].
Qed.

(** A pair step only ever appends to [toRemove]. *)
Lemma collidePair_toRemove (wormholes : list GameObject) (rnd : nat -> R)
    (i j : nat) (st st' : CollisionState) :
  collidePair wormholes rnd i j st = Some st' ->
  exists more, cs_toRemove st' = cs_toRemove st ++ more.
Proof.
  assert (Hsame : forall s, Some s = Some st' -> cs_toRemove s = cs_toRemove st
                  -> exists more, cs_toRemove st' = cs_toRemove st ++ more).
  { intros s [= <-] ->. exists []. now rewrite app_nil_r. }
  assert (Habsorb : forall li l s, absorb li l s st = Some st' ->
                    exists more, cs_toRemove st' = cs_toRemove st ++ more).
  { intros li l s. unfold absorb.
    destruct (negb (Obj.isGlowing s) && negb (Obj.isGlowing l));
      [|intros H; now apply (Hsame st)].
    destruct (if truthy _ && truthy _ then _ else _) as [l2|]; [|discriminate].
    intros [= <-]. now exists [Obj.id s]. }
  unfold collidePair.
  destruct (cs_objects st !! i) as [obj1|]; [|intros H; now apply (Hsame st)].
  destruct (cs_objects st !! j) as [obj2|]; [|intros H; now apply (Hsame st)].
  destruct (Rlt_dec _ _); [|intros H; now apply (Hsame st)].
  destruct (is_wormhole (Obj.type obj1) && is_player (Obj.type obj2)).
  { unfold teleport.
    destruct (List.filter _ wormholes); [intros H; now apply (Hsame st)|].
    destruct (at_floor _ _); [|discriminate].
    intros H. now apply (Hsame _ H). }
  destruct (Obj.isGlowing obj1 && is_player (Obj.type obj2) && at_risk obj2);
    [intros H; now apply (Hsame _ H)|].
  destruct (Obj.isGlowing obj2 && is_player (Obj.type obj1) && at_risk obj1);
    [intros H; now apply (Hsame _ H)|].
  destruct (Rgt_dec _ _); apply Habsorb.
Qed.

Lemma runPairs_toRemove (wormholes : list GameObject) (rnd : nat -> R)
    (ps : list (nat * nat)) :
  forall st final,
    runPairs wormholes rnd ps st = Some final ->
    exists more, cs_toRemove final = cs_toRemove st ++ more.
Proof.
  induction ps as [|[i j] rest IH]; intros st final; cbn.
  - intros [= <-]. exists []. now rewrite app_nil_r.
  - destruct (collidePair wormholes rnd i j st) as [st'|] eqn:Hstep;
      [|discriminate].
    intros Hrun. destruct (collidePair_toRemove _ _ _ _ _ _ Hstep) as [m1 H1].
    destruct (IH _ _ Hrun) as [m2 H2].
    exists (m1 ++ m2). now rewrite H2, H1, app_assoc.
Qed.

(** A body whose id is in [toRemove] does not pass the filter of
    [gameLoop]. *)
Lemma removeAll_drops (toRemove : list string) (objects : list GameObject)
    (o : GameObject) :
  Obj.id o ∈ toRemove -> o ∉ removeAll toRemove objects.
Proof.
  intros Hin Hkept. unfold removeAll in Hkept.
  apply list_elem_of_In, filter_In in Hkept. destruct Hkept as [_ Hkeep].
  apply negb_true_iff in Hkeep.
  assert (Hex : existsb (String.eqb (Obj.id o)) toRemove = true).
  { apply existsb_exists. exists (Obj.id o). split.
    - now apply list_elem_of_In.
    - apply String.eqb_refl. }
  congruence.
Qed.

(** C3, counterexample.  A pair that refers to a body already queued for
    removal is not skipped.  With three pieces of debris of masses 10, 5 and 2
    on one spot, the first absorbs the second and the third; the pair of the second
    and the third is visited last and the second, queued for removal by
    then, absorbs the third once more: its mass grows from 5 to 6.6 and the
    third is queued twice.  The first, which alone survives, ends at mass
    15.6, which is neither 10 + 0.8 * 5 nor 10 + 0.8 * 2. *)
Lemma C3_queued_body_absorbs_again :
  exists st a' b',
    handleCollisions [] (fun _ => 0) 0
      [rock "rock-a" 10; rock "rock-b" 5; rock "rock-c" 2] = Some st
    /\ cs_toRemove st = ["rock-b"; "rock-c"; "rock-c"]
    /\ cs_objects st !! 0%nat = Some a'
    /\ Obj.mass a' = 10 + 5 * 0.8 + 2 * 0.8
    /\ cs_objects st !! 1%nat = Some b'
    /\ Obj.mass b' = 5 + 2 * 0.8.
Proof.
  assert (H0 : hypot (0 - 0) (0 - 0) = 0) by (apply hypot_eq; lra).
  pose proof (calculateRadius_debris 10) as Ha.
  pose proof (calculateRadius_debris 5) as Hb.
  pose proof (calculateRadius_debris 2) as Hc.
  pose proof (calculateRadius_debris (10 + 5 * 0.8)) as Hr1.
  pose proof (calculateRadius_debris (10 + 5 * 0.8 + 2 * 0.8)) as Hr2.
  pose proof (calculateRadius_debris (5 + 2 * 0.8)) as Hr3.
  do 3 eexists. split; [|split_and!].
  - unfold handleCollisions. cbn.
    repeat (progress (try unfold distance; try unfold MASS_ABSORPTION_RATE;
                      cbn; rewrite ?H0; settle)).
    reflexivity.
  - reflexivity.
  - reflexivity.
  - reflexivity.
  - reflexivity.
  - reflexivity.
Qed.

(** C3 (as the code has it).  When [handleCollisions] visits a pair of
    bodies that are in contact and do not glow (and are not a wormhole
    followed by the player), the heavier one, or the second one when the
    first is not heavier, absorbs the other: its mass becomes its mass plus
    0.8 times the other's, its radius is recomputed, the other's id is
    appended to [toRemove] and, when the absorber's id is ["player"], the
    score grows by [floor(mass * 20)] of the absorbed body.  The absorbed
    body stays in the array during the run, and no look at [toRemove]
    precedes this: the masses are the current ones, whether or not either
    body was queued before.  Whatever the rest of the run does, the absorbed
    id is in the final [toRemove], so no body with that id is kept by the
    filter of [gameLoop]: at most one of the pair survives. *)
Theorem C3_pair_absorption (wormholes : list GameObject) (rnd : nat -> R)
    (i j : nat) (st : CollisionState) (obj1 obj2 : GameObject) :
  i <> j ->
  cs_objects st !! i = Some obj1 -> cs_objects st !! j = Some obj2 ->
  distance obj1 obj2 < Obj.radius obj1 + Obj.radius obj2 ->
  Obj.isGlowing obj1 = false -> Obj.isGlowing obj2 = false ->
  is_wormhole (Obj.type obj1) && is_player (Obj.type obj2) = false ->
  let first_heavier :=
    if Rgt_dec (Obj.mass obj1) (Obj.mass obj2) then true else false in
  let larger := if first_heavier then obj1 else obj2 in
  let smaller := if first_heavier then obj2 else obj1 in
  let li := if first_heavier then i else j in
  let si := if first_heavier then j else i in
  energy_transfer_defined larger smaller ->
  exists st' l',
    collidePair wormholes rnd i j st = Some st'
    /\ cs_objects st' !! li = Some l'
    /\ Obj.mass l' = Obj.mass larger + Obj.mass smaller * 0.8
    /\ Obj.radius l' = calculateRadius (Obj.mass l') (Obj.type larger)
    /\ Obj.id l' = Obj.id larger
    /\ cs_objects st' !! si = Some smaller
    /\ cs_toRemove st' = cs_toRemove st ++ [Obj.id smaller]
    /\ cs_scoreIncrease st'
       = (if String.eqb (Obj.id larger) "player"
          then cs_scoreIncrease st + Math_floor (Obj.mass smaller * 20)
          else cs_scoreIncrease st)
    /\ forall rest final,
         runPairs wormholes rnd rest st' = Some final ->
         Obj.id smaller ∈ cs_toRemove final
         /\ forall o objects,
              Obj.id o = Obj.id smaller ->
              o ∉ removeAll (cs_toRemove final) objects.
Proof.
  intros Hij H1 H2 Hcontact Hg1 Hg2 Hnw first_heavier larger smaller li si Hdef.
  assert (Hgl : Obj.isGlowing larger = false)
    by (unfold larger; now destruct first_heavier).
  assert (Hgs : Obj.isGlowing smaller = false)
    by (unfold smaller; now destruct first_heavier).
  destruct (absorb_spec li larger smaller st Hgl Hgs Hdef)
    as (l' & Habs & Hmass & Hrad & Hid).
  assert (Hstep : collidePair wormholes rnd i j st
                  = absorb li larger smaller st).
  { unfold collidePair. rewrite H1, H2.
    destruct (Rlt_dec _ _) as [_ | Hfar]; [|now destruct Hfar].
    rewrite Hnw, Hg1, Hg2. cbn [andb].
    unfold li, larger, smaller, first_heavier.
    now destruct (Rgt_dec _ _). }
  assert (Hli : (li < length (cs_objects st))%nat).
  { unfold li. destruct first_heavier; eapply lookup_lt_Some; eassumption. }
  assert (Hne : li <> si) by (unfold li, si; destruct first_heavier; congruence).
  assert (Hsi : cs_objects st !! si = Some smaller)
    by (unfold si, smaller; now destruct first_heavier).
  eexists. exists l'. split; [now rewrite Hstep, Habs|]. cbn.
  split_and!; try easy.
  - now apply list_lookup_insert_eq.
  - now rewrite list_lookup_insert_ne.
  - intros rest final Hrun.
    destruct (runPairs_toRemove _ _ _ _ _ Hrun) as [more Hmore]. cbn in Hmore.
    assert (Hin : Obj.id smaller ∈ cs_toRemove final).
    { rewrite Hmore. apply elem_of_app. left. apply elem_of_app. right.
      apply list_elem_of_singleton. reflexivity. }
    split; [exact Hin|].
    intros o objects Ho. apply removeAll_drops. now rewrite Ho.
Qed.

Lemma C3_pair_absorption_witness :
  exists st' l',
    collidePair [] (fun _ => 0) 0 1
      (mkCollisionState [heavy_pilot; speck] [] 0 0) = Some st'
    /\ cs_objects st' !! 0%nat = Some l'
    /\ Obj.mass l' = 11.6
    /\ cs_toRemove st' = ["debris-1"]
    /\ cs_scoreIncrease st' = 40.
Proof.
  assert (Hd : hypot (0 - 0) (5 - 0) = 5) by (apply hypot_eq; lra).
  assert (Hh : (if Rgt_dec (Obj.mass heavy_pilot) (Obj.mass speck)
                then true else false) = true).
  { cbn. settle. reflexivity. }
  assert (Hcontact : distance heavy_pilot speck
                     < Obj.radius heavy_pilot + Obj.radius speck).
  { unfold distance. cbn. rewrite Hd. lra. }
  assert (Hdef : energy_transfer_defined heavy_pilot speck).
  { intros _ Hnone. discriminate Hnone. }
  pose proof (C3_pair_absorption [] (fun _ => 0) 0 1
                (mkCollisionState [heavy_pilot; speck] [] 0 0)
                heavy_pilot speck) as Hpair.
  cbn zeta in Hpair. rewrite Hh in Hpair.
  destruct Hpair as (st' & l' & Hstep & Hl & Hmass & _ & _ & _ & Hrem & Hscore
                     & _); try easy.
  exists st', l'. split_and!; try easy.
  - rewrite Hmass. cbn. lra.
  - rewrite Hscore. cbn. replace (2 * 20) with (IZR 40) by lra.
    rewrite Math_floor_IZR. lra.
Defined.

(** An index drawn as [Math.floor(Math.random() * length)] is in range. *)
Lemma at_floor_in_range {A : Type} (arr : list A) (r : R) :
  0 <= r < 1 -> arr <> [] ->
  exists a, at_floor arr (r * INR (length arr)) = Some a /\ a ∈ arr.
Proof.
  intros Hr Hne. unfold at_floor.
  assert (Hlen : 0 < INR (length arr)).
  { apply lt_0_INR. destruct arr; [contradiction | cbn; lia]. }
  destruct (base_Int_part (r * INR (length arr))) as [Hlo Hhi].
  set (z := Int_part (r * INR (length arr))) in *.
  assert (Hprod : 0 <= r * INR (length arr) < INR (length arr)).
  { split; [apply Rmult_le_pos; lra|].
    rewrite <- (Rmult_1_l (INR (length arr))) at 2.
    apply Rmult_lt_compat_r; lra. }
  assert (Hz0 : (0 <= z)%Z).
  { apply Z.lt_pred_le, lt_IZR. change (IZR (Z.pred 0)) with (-1). lra. }
  assert (Hzn : (z < Z.of_nat (length arr))%Z).
  { apply lt_IZR. rewrite <- INR_IZR_INZ. lra. }
  destruct (Z.ltb_spec z 0) as [Hneg | _]; [lia|].
  destruct (lookup_lt_is_Some_2 arr (Z.to_nat z)) as [a Ha]; [lia|].
  exists a. split; [exact Ha|]. eapply list_elem_of_lookup_2, Ha.
Qed.

(** The wormhole rule where the code has it: a wormhole in contact with the
    player, and before it in the array, sends the player to within 50 per
    axis of another wormhole and halves its velocity; nothing is queued for
    removal and no mass changes. *)
Lemma wormhole_first_teleports (wormholes : list GameObject) (rnd : nat -> R)
    (i j : nat) (st : CollisionState) (obj1 obj2 : GameObject) :
  cs_objects st !! i = Some obj1 -> cs_objects st !! j = Some obj2 ->
  distance obj1 obj2 < Obj.radius obj1 + Obj.radius obj2 ->
  Obj.type obj1 = wormhole -> Obj.type obj2 = player ->
  (forall n, 0 <= rnd n < 1) ->
  (exists w, w ∈ wormholes /\ same_id w obj1 = false) ->
  exists target p',
    collidePair wormholes rnd i j st
      = Some (mkCollisionState (<[j := p']> (cs_objects st)) (cs_toRemove st)
                (cs_scoreIncrease st) (cs_rand st + 3))
    /\ target ∈ wormholes /\ same_id target obj1 = false
    /\ Rabs (Obj.x p' - Obj.x target) <= 50
    /\ Rabs (Obj.y p' - Obj.y target) <= 50
    /\ Obj.vx p' = Obj.vx obj2 * 0.5 /\ Obj.vy p' = Obj.vy obj2 * 0.5
    /\ Obj.mass p' = Obj.mass obj2.
Proof.
  intros H1 H2 Hcontact Hty1 Hty2 Hrnd (w & Hw & Hwid).
  unfold collidePair. rewrite H1, H2.
  destruct (Rlt_dec _ _) as [_ | Hfar]; [|now destruct Hfar].
  rewrite Hty1, Hty2. cbn [is_wormhole is_player andb]. unfold teleport.
  set (avail := List.filter (fun w => negb (same_id w obj1)) wormholes).
  assert (Hin : w ∈ avail).
  { apply list_elem_of_In, filter_In. split; [now apply list_elem_of_In|].
    now rewrite Hwid. }
  assert (Hne : avail <> []) by (intros Heq; rewrite Heq in Hin; inversion Hin).
  destruct (at_floor_in_range avail (rnd (cs_rand st)) (Hrnd _) Hne)
    as (target & Hpick & Htarget).
  destruct avail as [|a0 rest] eqn:Havail; [contradiction|].
  rewrite Hpick. eexists target, _. split; [reflexivity|].
  rewrite <- Havail in Htarget.
  apply list_elem_of_In, filter_In in Htarget. destruct Htarget as [Hmem Hid].
  apply negb_true_iff in Hid.
  pose proof (Hrnd (cs_rand st + 1)%nat) as Hrx.
  pose proof (Hrnd (cs_rand st + 2)%nat) as Hry.
  cbn. split_and!; try easy.
  - now apply list_elem_of_In.
  - apply Rabs_le. lra.
  - apply Rabs_le. lra.
Qed.

(** C4, at the failing input.  The wormhole rule is only written for a
    wormhole that comes before the player in the array, and [initGame] puts
    the player first.  With the player at index 0, in contact with a
    wormhole, and a second wormhole to go to, [handleCollisions] changes
    nothing: the player is not teleported and keeps its velocity. *)
Theorem C4_player_first_is_not_teleported (rnd : nat -> R) (k : nat) :
  let w1 := wormhole_at "wormhole-1" 0 10 in
  let w2 := wormhole_at "wormhole-2" 0 1010 in
  distance pilot w1 < Obj.radius pilot + Obj.radius w1
  /\ handleCollisions [w1; w2] rnd k [pilot; w1; w2]
     = Some (mkCollisionState [pilot; w1; w2] [] 0 k).
Proof.
  assert (H1 : hypot (0 - 0) (10 - 0) = 10) by (apply hypot_eq; lra).
  assert (H2 : hypot (0 - 0) (1010 - 0) = 1010) by (apply hypot_eq; lra).
  assert (H3 : hypot (0 - 0) (1010 - 10) = 1000) by (apply hypot_eq; lra).
  cbn zeta. split.
  - unfold distance. cbn. rewrite H1. lra.
  - unfold handleCollisions. cbn.
    repeat (progress (try unfold distance; try unfold at_risk; cbn;
                      rewrite ?H1, ?H2, ?H3; settle)).
    reflexivity.
Qed.

(** * More of the code *)

(** ** The collision pass (X1 to X6) *)

Lemma grows_refl (o : GameObject) : grows o o.
Proof. unfold grows. split_and!; try easy; try lra. Qed.

Lemma grows_trans (o1 o2 o3 : GameObject) :
  grows o1 o2 -> grows o2 o3 -> grows o1 o3.
Proof.
  intros (Hid & Hty & Hgl & Hm & Hr & Hfix) (Hid' & Hty' & Hgl' & Hm' & Hr' & Hfix').
  unfold grows.
  split_and!;
    [ congruence | congruence | congruence | lra
    | intros H; apply Hr', Hr, H
    | intros Hg Hp; rewrite <- (Hfix Hg Hp); apply Hfix'; congruence ].
Qed.

Lemma Forall2_grows_refl (l : list GameObject) : Forall2 grows l l.
Proof. apply Forall_Forall2_diag, Forall_forall. intros o _. apply grows_refl. Qed.

Lemma Forall2_grows_trans (l1 l2 l3 : list GameObject) :
  Forall2 grows l1 l2 -> Forall2 grows l2 l3 -> Forall2 grows l1 l3.
Proof.
  intros H12. revert l3.
  induction H12 as [|a b l k Hab _ IH]; intros l3 H23; inversion H23; subst.
  - constructor.
  - constructor; [eapply grows_trans; eassumption | now apply IH].
Qed.

(** Writing a grown object back at its index. *)
Lemma insert_grows (l : list GameObject) (k : nat) (o o' : GameObject) :
  l !! k = Some o -> grows o o' -> Forall2 grows l (<[k := o']> l).
Proof.
  intros Hk Hg. rewrite <- (list_insert_id l k o Hk) at 1.
  apply Forall2_insert; [apply Forall2_grows_refl | exact Hg].
Qed.

Lemma Math_floor_nonneg (r : R) : 0 <= r -> 0 <= Math_floor r.
Proof.
  intros Hr. unfold Math_floor. destruct (base_Int_part r) as [_ Hhi].
  apply IZR_le, Z.lt_pred_le, lt_IZR. change (IZR (Z.pred 0)) with (-1). lra.
Qed.

Lemma set_energy_grows (e : option R) (o : GameObject) :
  is_player (Obj.type o) = true -> grows o (Obj.set_energy e o).
Proof.
  intros Hp. unfold grows. cbn. split_and!; try easy; try lra. congruence.
Qed.

Lemma pass_invariant_write (before : list GameObject) (score0 : R)
    (st : CollisionState) (k : nat) (o o' : GameObject)
    (more : list string) (score : R) (rand : nat) :
  pass_invariant before score0 st ->
  cs_objects st !! k = Some o -> grows o o' -> 0 <= Obj.mass o' ->
  cs_scoreIncrease st <= score ->
  (Forall (fun o => Obj.id o <> "player") before ->
   score = cs_scoreIncrease st) ->
  Forall (fun s => exists o, o ∈ before /\ Obj.id o = s
                             /\ Obj.isGlowing o = false) more ->
  pass_invariant before score0
    (mkCollisionState (<[k := o']> (cs_objects st)) (cs_toRemove st ++ more)
       score rand).
Proof.
  intros (Hmass & Hgrow & Hscore & Hnone & Hrem) Hk Hg Hm Hs Hn Hmore.
  unfold pass_invariant. cbn. split_and!.
  - now apply Forall_insert.
  - eapply Forall2_grows_trans; [exact Hgrow|].
    eapply insert_grows; eassumption.
  - lra.
  - intros Hno. rewrite (Hn Hno). now apply Hnone.
  - apply Forall_app. now split.
Qed.

Lemma absorb_invariant (before : list GameObject) (score0 : R)
    (st st' : CollisionState) (li si : nat) (larger smaller : GameObject) :
  pass_invariant before score0 st ->
  cs_objects st !! li = Some larger -> cs_objects st !! si = Some smaller ->
  absorb li larger smaller st = Some st' ->
  pass_invariant before score0 st'.
Proof.
  intros Hinv Hl Hs. pose proof Hinv as (Hmass & Hgrow & _ & _ & _).
  unfold absorb.
  destruct (negb (Obj.isGlowing smaller)) eqn:Hgs; cbn [andb];
    [|intros [= <-]; exact Hinv].
  destruct (negb (Obj.isGlowing larger)) eqn:Hgl;
    [|intros [= <-]; exact Hinv].
  apply negb_true_iff in Hgs, Hgl.
  assert (Hml : 0 <= Obj.mass larger)
    by (eapply (proj1 (Forall_lookup _ _) Hmass), Hl).
  assert (Hms : 0 <= Obj.mass smaller)
    by (eapply (proj1 (Forall_lookup _ _) Hmass), Hs).
  destruct (Forall2_lookup_r _ _ _ _ _ Hgrow Hl) as (l0 & Hl0 & Hgl0).
  destruct (Forall2_lookup_r _ _ _ _ _ Hgrow Hs) as (s0 & Hs0 & Hgs0).
  set (m := Obj.mass larger + Obj.mass smaller * MASS_ABSORPTION_RATE).
  assert (Hm : Obj.mass larger <= m) by (unfold m, MASS_ABSORPTION_RATE; nra).
  destruct (if truthy _ && truthy _ then _ else _) as [l2|] eqn:Hl2;
    [|discriminate].
  intros [= <-].
  assert (Hid2 : Obj.id l2 = Obj.id larger /\ grows larger l2
                 /\ Obj.mass l2 = m).
  { cbn [Obj.energy Obj.set_radius Obj.set_mass Obj.maxEnergy] in Hl2.
    destruct (truthy (Obj.energy larger) && truthy (Obj.energy smaller)).
    - destruct (Obj.energy larger), (Obj.energy smaller),
        (Obj.maxEnergy larger); try discriminate.
      injection Hl2 as <-. unfold grows. cbn. fold m.
      split_and!; try easy. congruence.
    - injection Hl2 as <-. unfold grows. cbn. fold m.
      split_and!; try easy. congruence. }
  destruct Hid2 as (Hid2 & Hg2 & Hm2).
  apply (pass_invariant_write before score0 st li larger l2
           [Obj.id smaller]); try easy.
  - rewrite Hm2. lra.
  - destruct (String.eqb _ _); [|lra].
    pose proof (Math_floor_nonneg (Obj.mass smaller * 20)). lra.
  - intros Hno. rewrite Hid2.
    destruct (String.eqb_spec (Obj.id larger) "player") as [Heq|]; [|easy].
    destruct Hgl0 as (Hidl & _).
    assert (Obj.id l0 <> "player").
    { eapply (proj1 (Forall_lookup _ _) Hno), Hl0. }
    congruence.
  - constructor; [|constructor]. exists s0.
    destruct Hgs0 as (Hids & _ & Hglow & _).
    split_and!; [eapply list_elem_of_lookup_2, Hs0 | easy | congruence].
Qed.

(** One step of the pass keeps the invariant. *)
Lemma collidePair_invariant (wormholes : list GameObject) (rnd : nat -> R)
    (before : list GameObject) (score0 : R) (i j : nat)
    (st st' : CollisionState) :
  pass_invariant before score0 st ->
  collidePair wormholes rnd i j st = Some st' ->
  pass_invariant before score0 st'.
Proof.
  intros Hinv. pose proof Hinv as (Hmass & _).
  assert (Hwrite : forall k o o' rand,
             cs_objects st !! k = Some o -> grows o o' ->
             Obj.mass o' = Obj.mass o ->
             pass_invariant before score0
               (mkCollisionState (<[k := o']> (cs_objects st)) (cs_toRemove st)
                  (cs_scoreIncrease st) rand)).
  { intros k o o' rand Hk Hg Hm.
    rewrite <- (app_nil_r (cs_toRemove st)).
    eapply pass_invariant_write; try eassumption; try easy; try lra.
    rewrite Hm. eapply (proj1 (Forall_lookup _ _) Hmass), Hk. }
  unfold collidePair.
  destruct (cs_objects st !! i) as [obj1|] eqn:H1; [|now intros [= <-]].
  destruct (cs_objects st !! j) as [obj2|] eqn:H2; [|now intros [= <-]].
  destruct (Rlt_dec _ _); [|now intros [= <-]].
  destruct (is_wormhole (Obj.type obj1)); cbn [andb].
  - destruct (is_player (Obj.type obj2)) eqn:Hp2.
    + unfold teleport.
      destruct (List.filter _ wormholes); [now intros [= <-]|].
      destruct (at_floor _ _); [|discriminate].
      intros [= <-]. eapply Hwrite; [exact H2| |reflexivity].
      unfold grows. cbn. split_and!; try easy; try lra. congruence.
    + rewrite !andb_false_r. cbn [andb].
      destruct (Obj.isGlowing obj2 && is_player (Obj.type obj1) && at_risk obj1)
        eqn:Hf.
      * intros [= <-]. eapply Hwrite; [exact H1| |reflexivity].
        apply set_energy_grows.
        now apply andb_true_iff in Hf as [[_ ?]%andb_true_iff _].
      * destruct (Rgt_dec _ _); intros Ha;
          eapply absorb_invariant; try exact Ha; eassumption.
  - destruct (Obj.isGlowing obj1 && is_player (Obj.type obj2) && at_risk obj2)
      eqn:Hf1.
    + intros [= <-]. eapply Hwrite; [exact H2| |reflexivity].
      apply set_energy_grows.
      now apply andb_true_iff in Hf1 as [[_ ?]%andb_true_iff _].
    + destruct (Obj.isGlowing obj2 && is_player (Obj.type obj1) && at_risk obj1)
        eqn:Hf2.
      * intros [= <-]. eapply Hwrite; [exact H1| |reflexivity].
        apply set_energy_grows.
        now apply andb_true_iff in Hf2 as [[_ ?]%andb_true_iff _].
      * destruct (Rgt_dec _ _); intros Ha;
          eapply absorb_invariant; try exact Ha; eassumption.
Qed.

Lemma runPairs_invariant (wormholes : list GameObject) (rnd : nat -> R)
    (before : list GameObject) (score0 : R) (ps : list (nat * nat)) :
  forall st final,
    pass_invariant before score0 st ->
    runPairs wormholes rnd ps st = Some final ->
    pass_invariant before score0 final.
Proof.
  induction ps as [|[i j] rest IH]; intros st final Hinv; cbn.
  - now intros [= <-].
  - destruct (collidePair wormholes rnd i j st) as [st'|] eqn:Hstep;
      [|discriminate].
    apply IH. eapply collidePair_invariant; eassumption.
Qed.

(** The invariant holds when [handleCollisions] returns. *)
Lemma handleCollisions_invariant (wormholes : list GameObject)
    (rnd : nat -> R) (k : nat) (objects : list GameObject)
    (st : CollisionState) :
  Forall (fun o => 0 <= Obj.mass o) objects ->
  handleCollisions wormholes rnd k objects = Some st ->
  pass_invariant objects 0 st.
Proof.
  intros Hmass Hrun. eapply runPairs_invariant; [|exact Hrun].
  unfold pass_invariant. cbn. split_and!; try easy; try lra.
  apply Forall2_grows_refl.
Qed.

Lemma flat_map_bind {A B : Type} (f : A -> list B) (l : list A) :
  flat_map f l = l ≫= f.
Proof. induction l as [|a l IH]; cbn; [reflexivity | now rewrite IH]. Qed.

(** X1.  The two nested loops of [handleCollisions] visit every pair of
    indices [i < j] below the length of the array, the lower index first,
    and visit none twice; so an array of [n] objects costs [n (n - 1) / 2]
    contact tests. *)
Theorem X1_pairs_visits_each_pair_once (n : nat) :
  (forall i j : nat, (i, j) ∈ pairs n <-> (i < j < n)%nat)
  /\ NoDup (pairs n)
  /\ (2 * length (pairs n) = n * (n - 1))%nat.
Proof.
  unfold pairs. rewrite flat_map_bind. split_and!.
  - intros i j. rewrite list_elem_of_bind. split.
    + intros (i' & Hin & Hi'). apply list_elem_of_fmap in Hin as (j' & [= -> ->] & Hj').
      apply elem_of_seq in Hi', Hj'. lia.
    + intros Hij. exists i. split.
      * apply list_elem_of_fmap. exists j. split; [reflexivity|].
        apply elem_of_seq. lia.
      * apply elem_of_seq. lia.
  - apply NoDup_bind.
    + intros i1 i2 [a b] _ _ H1 H2.
      apply list_elem_of_fmap in H1 as (? & [= -> ->] & _).
      apply list_elem_of_fmap in H2 as (? & [= -> _] & _). reflexivity.
    + intros i _. apply NoDup_fmap_2; [|apply NoDup_seq].
      intros ? ? [= ->]. reflexivity.
    + apply NoDup_seq.
  - assert (Hgen : forall m s, (s + m = n)%nat ->
              (2 * length (seq s m ≫= (fun i => pair i <$> seq (S i) (n - S i)))
               = m * (m - 1))%nat).
    { induction m as [|m IH]; intros s Hs; [reflexivity|].
      cbn [seq mbind list_bind]. rewrite length_app, length_fmap, length_seq.
      specialize (IH (S s) ltac:(lia)). cbn [mbind] in IH. nia. }
    apply (Hgen n 0%nat). lia.
Qed.

(** The run of [handleCollisions] on the player of mass 10 and the debris
    of mass 2. *)
Lemma duel_run :
  handleCollisions [] (fun _ => 0) 0 [heavy_pilot; speck] = Some duel_result.
Proof.
  assert (Hd : hypot (0 - 0) (5 - 0) = 5) by (apply hypot_eq; lra).
  unfold handleCollisions. cbn. unfold distance. cbn. rewrite Hd. settle.
  reflexivity.
Qed.

Lemma duel_masses : Forall (fun o => 0 <= Obj.mass o) [heavy_pilot; speck].
Proof. repeat constructor; cbn; lra. Qed.

(** X2.  A run of [handleCollisions] neither resizes the array nor moves an
    object to another index, and no object changes its id, its type or
    whether it glows: removal is left to the filter that follows. *)
Theorem X2_collisions_keep_the_array (wormholes : list GameObject)
    (rnd : nat -> R) (k : nat) (objects : list GameObject)
    (st : CollisionState) :
  Forall (fun o => 0 <= Obj.mass o) objects ->
  handleCollisions wormholes rnd k objects = Some st ->
  length (cs_objects st) = length objects
  /\ forall (n : nat) (o : GameObject),
       objects !! n = Some o ->
       exists o', cs_objects st !! n = Some o'
                  /\ Obj.id o' = Obj.id o /\ Obj.type o' = Obj.type o
                  /\ Obj.isGlowing o' = Obj.isGlowing o.
Proof.
  intros Hmass Hrun.
  destruct (handleCollisions_invariant _ _ _ _ _ Hmass Hrun)
    as (_ & Hgrow & _).
  split; [symmetry; eapply Forall2_length, Hgrow|].
  intros n o Hn.
  destruct (Forall2_lookup_l _ _ _ _ _ Hgrow Hn) as (o' & Hn' & Hg).
  exists o'. destruct Hg as (? & ? & ? & _). now split_and!.
Qed.

Lemma X2_collisions_keep_the_array_witness :
  length (cs_objects duel_result) = length [heavy_pilot; speck]
  /\ forall (n : nat) (o : GameObject),
       [heavy_pilot; speck] !! n = Some o ->
       exists o', cs_objects duel_result !! n = Some o'
                  /\ Obj.id o' = Obj.id o /\ Obj.type o' = Obj.type o
                  /\ Obj.isGlowing o' = Obj.isGlowing o.
Proof.
  exact (X2_collisions_keep_the_array [] (fun _ => 0) 0 [heavy_pilot; speck]
           duel_result duel_masses duel_run).
Defined.

(** X3.  In a run of [handleCollisions] over objects of mass at least 0, no
    mass decreases, and an object whose radius was [calculateRadius] of its
    mass and type before the run has the radius of its new mass after it: a
    radius is never left stale by an absorption. *)
Theorem X3_collisions_grow_mass_and_radius (wormholes : list GameObject)
    (rnd : nat -> R) (k : nat) (objects : list GameObject)
    (st : CollisionState) (n : nat) (o : GameObject) :
  Forall (fun o => 0 <= Obj.mass o) objects ->
  handleCollisions wormholes rnd k objects = Some st ->
  objects !! n = Some o ->
  exists o', cs_objects st !! n = Some o'
             /\ Obj.mass o <= Obj.mass o'
             /\ (Obj.radius o = calculateRadius (Obj.mass o) (Obj.type o) ->
                 Obj.radius o' = calculateRadius (Obj.mass o') (Obj.type o')).
Proof.
  intros Hmass Hrun Hn.
  destruct (handleCollisions_invariant _ _ _ _ _ Hmass Hrun)
    as (_ & Hgrow & _).
  destruct (Forall2_lookup_l _ _ _ _ _ Hgrow Hn) as (o' & Hn' & Hg).
  exists o'. destruct Hg as (_ & _ & _ & ? & ? & _). now split_and!.
Qed.

Lemma X3_collisions_grow_mass_and_radius_witness :
  exists o', cs_objects duel_result !! 0%nat = Some o'
             /\ Obj.mass heavy_pilot <= Obj.mass o'
             /\ (Obj.radius heavy_pilot
                 = calculateRadius (Obj.mass heavy_pilot)
                     (Obj.type heavy_pilot) ->
                 Obj.radius o' = calculateRadius (Obj.mass o') (Obj.type o')).
Proof.
  exact (X3_collisions_grow_mass_and_radius [] (fun _ => 0) 0
           [heavy_pilot; speck] duel_result 0 heavy_pilot duel_masses duel_run
           eq_refl).
Defined.

(** The run of [handleCollisions] on the player in contact with a star:
    nothing happens. *)
Lemma landmark_run :
  handleCollisions [] (fun _ => 0) 0 [pilot; star_at 0 10]
    = Some (mkCollisionState [pilot; star_at 0 10] [] 0 0).
Proof.
  assert (Hd : hypot (0 - 0) (10 - 0) = 10) by (apply hypot_eq; lra).
  unfold handleCollisions. cbn. unfold distance. cbn. rewrite Hd. settle.
  unfold at_risk. cbn. settle. reflexivity.
Qed.

Lemma landmark_masses :
  Forall (fun o => 0 <= Obj.mass o) [pilot; star_at 0 10].
Proof. repeat constructor; cbn; lra. Qed.

(** X4.  Glowing bodies are landmarks of the collision phase: a glowing
    object that is not of type player leaves [handleCollisions] exactly as
    it entered it (it neither absorbs nor is absorbed, and is not moved);
    every id queued for removal is the id of an object that does not glow;
    so, unless it shares its id with such an object, the glowing object is
    still in the array after the filter of [gameLoop]. *)
Theorem X4_glowing_bodies_outlive_collisions (wormholes : list GameObject)
    (rnd : nat -> R) (k : nat) (score : R) (objects : list GameObject)
    (ac : AfterCollisions) (n : nat) (o : GameObject) :
  Forall (fun o => 0 <= Obj.mass o) objects ->
  collisionPhase wormholes rnd k score objects = Some ac ->
  objects !! n = Some o ->
  Obj.isGlowing o = true -> Obj.type o <> player ->
  exists st,
    handleCollisions wormholes rnd k objects = Some st
    /\ cs_objects st !! n = Some o
    /\ (forall s, s ∈ cs_toRemove st ->
          exists o2, o2 ∈ objects /\ Obj.id o2 = s
                     /\ Obj.isGlowing o2 = false)
    /\ ((forall o2, o2 ∈ objects -> Obj.isGlowing o2 = false ->
           Obj.id o2 <> Obj.id o) ->
        o ∈ ac_objects ac).
Proof.
  intros Hmass Hphase Hn Hglow Hty. unfold collisionPhase in Hphase.
  destruct (handleCollisions wormholes rnd k objects) as [st|] eqn:Hrun;
    [|discriminate].
  injection Hphase as <-. cbn [ac_objects].
  destruct (handleCollisions_invariant _ _ _ _ _ Hmass Hrun)
    as (_ & Hgrow & _ & _ & Hrem).
  destruct (Forall2_lookup_l _ _ _ _ _ Hgrow Hn) as (o' & Hn' & Hg).
  destruct Hg as (_ & _ & _ & _ & _ & Hfix).
  assert (Hsame : o' = o) by (apply Hfix; [exact Hglow | now destruct (Obj.type o)]).
  subst o'. exists st. split_and!; try easy.
  - intros s Hs. exact (proj1 (Forall_forall _ _) Hrem s Hs).
  - intros Hunique. unfold removeAll.
    apply list_elem_of_In, filter_In. split.
    + apply list_elem_of_In. eapply list_elem_of_lookup_2, Hn'.
    + apply negb_true_iff.
      destruct (existsb _ _) eqn:Hex; [|reflexivity].
      apply existsb_exists in Hex as (s & Hs & Heq).
      apply String.eqb_eq in Heq. subst s.
      apply list_elem_of_In in Hs.
      destruct (proj1 (Forall_forall _ _) Hrem _ Hs) as (o2 & Ho2 & Hid & Hg2).
      now destruct (Hunique o2 Ho2 Hg2).
Qed.

Lemma X4_glowing_bodies_outlive_collisions_witness :
  exists st,
    handleCollisions [] (fun _ => 0) 0 [pilot; star_at 0 10] = Some st
    /\ cs_objects st !! 1%nat = Some (star_at 0 10)
    /\ (forall s, s ∈ cs_toRemove st ->
          exists o2, o2 ∈ [pilot; star_at 0 10] /\ Obj.id o2 = s
                     /\ Obj.isGlowing o2 = false)
    /\ ((forall o2, o2 ∈ [pilot; star_at 0 10] -> Obj.isGlowing o2 = false ->
           Obj.id o2 <> Obj.id (star_at 0 10)) ->
        star_at 0 10 ∈ [pilot; star_at 0 10]).
Proof.
  assert (Hphase : collisionPhase [] (fun _ => 0) 0 0 [pilot; star_at 0 10]
                   = Some (mkAfterCollisions [pilot; star_at 0 10] [] 0 0)).
  { unfold collisionPhase. rewrite landmark_run. cbn. settle. reflexivity. }
  apply (X4_glowing_bodies_outlive_collisions [] (fun _ => 0) 0 0
           [pilot; star_at 0 10] _ 1 (star_at 0 10) landmark_masses Hphase
           eq_refl eq_refl).
  discriminate.
Defined.

(** X5.  The collision phase never lowers the score, and leaves it as it is
    when no object of the array has the id ["player"]. *)
Theorem X5_score_never_decreases (wormholes : list GameObject)
    (rnd : nat -> R) (k : nat) (score : R) (objects : list GameObject)
    (ac : AfterCollisions) :
  Forall (fun o => 0 <= Obj.mass o) objects ->
  collisionPhase wormholes rnd k score objects = Some ac ->
  score <= ac_score ac
  /\ (Forall (fun o => Obj.id o <> "player") objects -> ac_score ac = score).
Proof.
  intros Hmass Hphase. unfold collisionPhase in Hphase.
  destruct (handleCollisions wormholes rnd k objects) as [st|] eqn:Hrun;
    [|discriminate].
  injection Hphase as <-. cbn [ac_score].
  destruct (handleCollisions_invariant _ _ _ _ _ Hmass Hrun)
    as (_ & _ & Hpos & Hnone & _).
  split.
  - destruct (Rgt_dec _ _); lra.
  - intros Hno. rewrite (Hnone Hno). destruct (Rgt_dec 0 0); lra.
Qed.

Lemma X5_score_never_decreases_witness :
  7 <= (if Rgt_dec (cs_scoreIncrease duel_result) 0
        then 7 + cs_scoreIncrease duel_result else 7)
  /\ (Forall (fun o => Obj.id o <> "player") [heavy_pilot; speck] ->
      (if Rgt_dec (cs_scoreIncrease duel_result) 0
       then 7 + cs_scoreIncrease duel_result else 7) = 7).
Proof.
  assert (Hphase : collisionPhase [] (fun _ => 0) 0 7 [heavy_pilot; speck]
                   = Some (mkAfterCollisions
                             (removeAll (cs_toRemove duel_result)
                                (cs_objects duel_result))
                             (removeAll (cs_toRemove duel_result) [])
                             (if Rgt_dec (cs_scoreIncrease duel_result) 0
                              then 7 + cs_scoreIncrease duel_result else 7)
                             (cs_rand duel_result))).
  { unfold collisionPhase. now rewrite duel_run. }
  exact (X5_score_never_decreases [] (fun _ => 0) 0 7 [heavy_pilot; speck] _
           duel_masses Hphase).
Defined.

(** ** Energy (X6, X7) *)

(** X6.  [updateEnergy] brings the energy of a body into [[0, maxEnergy]],
    from wherever at or below [maxEnergy] it was (also from below 0), when
    [maxEnergy] is not negative and no charging rate in the array is
    negative; it writes nothing but the energy. *)
Theorem X6_updateEnergy_clamps (obj : GameObject) (objects : list GameObject)
    (e maxE : R) :
  Obj.energy obj = Some e -> Obj.maxEnergy obj = Some maxE ->
  e <= maxE -> 0 <= maxE ->
  Forall (fun other => 0 <= or_default (Obj.chargingRate other) 1) objects ->
  exists e',
    updateEnergy obj objects = Obj.set_energy (Some e') obj
    /\ 0 <= e' <= maxE.
Proof.
  intros He Hm Hle Hmax Hrates.
  pose proof (updateEnergy_in_range obj objects e maxE He Hm Hle Hmax Hrates)
    as Hrange.
  unfold updateEnergy, energy_in_range in *. rewrite He, Hm in *.
  cbn in Hrange. rewrite Hm in Hrange. eexists. split; [reflexivity | exact Hrange].
Qed.

Lemma X6_updateEnergy_clamps_witness :
  exists e',
    updateEnergy tired_pilot [tired_pilot; star_at 3 4]
      = Obj.set_energy (Some e') tired_pilot
    /\ 0 <= e' <= 120.
Proof.
  apply (X6_updateEnergy_clamps tired_pilot [tired_pilot; star_at 3 4]
           0.01 120 eq_refl eq_refl); [lra | lra |].
  repeat constructor; cbn; try destruct (Req_dec_T _ _); lra.
Defined.

(** No body in the charging window: the loop of [updateEnergy] changes
    nothing. *)
Lemma chargeStep_idle (obj : GameObject) (maxE : R)
    (objects : list GameObject) :
  Forall (fun other => ~ charges obj other) objects ->
  forall e, fold_left (chargeStep obj maxE) objects e = e.
Proof.
  induction 1 as [|other rest Hno _ IH]; intros e; cbn; [reflexivity|].
  rewrite <- (IH e) at 2. f_equal. unfold chargeStep.
  destruct (Obj.isGlowing other) eqn:Hg; cbn [negb orb]; [|reflexivity].
  destruct (same_id other obj) eqn:Hid; [reflexivity|].
  fold (distance obj other).
  destruct (Rlt_dec _ _) as [Hin|]; [|reflexivity].
  destruct (Rgt_dec _ _) as [Hout|]; [|reflexivity].
  destruct Hno. now unfold charges.
Qed.

(** X7.  Away from glowing bodies energy only decays: when no glowing body
    is in the charging window of [obj], [updateEnergy] takes
    [ENERGY_DECAY_RATE * 0.016 = 0.00128] off its energy, stopping at 0;
    an energy that was not negative does not rise, and one above 0 falls. *)
Theorem X7_energy_decays_away_from_glow (obj : GameObject)
    (objects : list GameObject) (e maxE : R) :
  Obj.energy obj = Some e -> Obj.maxEnergy obj = Some maxE ->
  Forall (fun other => ~ charges obj other) objects ->
  updateEnergy obj objects = Obj.set_energy (Some (Rmax 0 (e - 0.00128))) obj
  /\ (0 <= e -> Rmax 0 (e - 0.00128) <= e)
  /\ (0 < e -> Rmax 0 (e - 0.00128) < e).
Proof.
  intros He Hm Hidle. unfold updateEnergy. rewrite He, Hm.
  rewrite chargeStep_idle by exact Hidle. unfold ENERGY_DECAY_RATE.
  replace (0.08 * 0.016) with 0.00128 by lra.
  split_and!; [reflexivity | |]; intros; unfold Rmax;
    destruct (Rle_dec _ _); lra.
Qed.

Lemma X7_energy_decays_away_from_glow_witness :
  updateEnergy pilot [pilot; big_planet]
    = Obj.set_energy (Some (Rmax 0 (80 - 0.00128))) pilot
  /\ (0 <= 80 -> Rmax 0 (80 - 0.00128) <= 80)
  /\ (0 < 80 -> Rmax 0 (80 - 0.00128) < 80).
Proof.
  apply (X7_energy_decays_away_from_glow pilot [pilot; big_planet] 80 120
           eq_refl eq_refl).
  repeat constructor; intros (Hglow & _); discriminate Hglow.
Defined.

(** ** AI policy (X8, X9) *)

Lemma only_steered_refl (a : GameObject) : only_steered a a.
Proof. unfold only_steered, same_body. now split_and!. Qed.

Lemma only_steered_trans (a b c : GameObject) :
  only_steered a b -> only_steered b c -> only_steered a c.
Proof.
  unfold only_steered, same_body. intros H1 H2.
  destruct_and!. split_and!; congruence.
Qed.

Lemma steer_toward_only (force : R) (target a : GameObject) :
  only_steered a (steer_toward force target a).
Proof.
  unfold steer_toward. destruct (Rgt_dec _ _); [|apply only_steered_refl].
  unfold only_steered, same_body. cbn. now split_and!.
Qed.

Lemma flee_from_only (threats : list GameObject) :
  forall a, only_steered a (fold_left flee_from threats a).
Proof.
  induction threats as [|t rest IH]; intros a; cbn;
    [apply only_steered_refl|].
  eapply only_steered_trans; [|apply IH]. unfold flee_from.
  destruct (Rgt_dec _ _); [destruct (Rlt_dec _ _)|];
    try apply only_steered_refl.
  unfold only_steered, same_body. cbn. now split_and!.
Qed.

Lemma set_aiState_only (s : AIState) (a : GameObject) :
  only_steered a (Obj.set_aiState s a).
Proof. unfold only_steered, same_body. cbn. now split_and!. Qed.

(** The decision writes velocity and [aiState] only. *)
Lemma aiDecide_only (rnd : nat -> R) (k : nat) (e : R) (a : GameObject)
    (objects : list GameObject) :
  only_steered a (fst (aiDecide rnd k e a objects)).
Proof.
  assert (Hother : forall l, only_steered a (fst (aiOtherwise rnd k a l))).
  { intros l. unfold aiOtherwise.
    destruct (List.filter (larger_threat a) l).
    - destruct (List.filter (smaller_prey a) l).
      + destruct (Rlt_dec _ _); cbn [fst]; [|apply set_aiState_only].
        unfold only_steered, same_body. cbn. now split_and!.
      + cbn [fst]. eapply only_steered_trans;
          [apply (set_aiState_only hunting) | apply steer_toward_only].
    - cbn [fst]. eapply only_steered_trans;
        [apply (set_aiState_only fleeing) | apply flee_from_only]. }
  unfold aiDecide. destruct (List.filter Obj.isGlowing _); [apply Hother|].
  destruct (Rlt_dec e 30); [|apply Hother].
  cbn [fst]. eapply only_steered_trans;
    [apply (set_aiState_only charging) | apply steer_toward_only].
Qed.

(** X8.  The throttle of [updateAI]: once a call has taken a decision at
    time [now], every call made less than 100 ms later returns at once and
    leaves the AI and the random counter as they are, whatever surrounds
    the AI by then. *)
Theorem X8_ai_decisions_are_throttled (now : Z) (rnd : nat -> R) (k : nat)
    (a : GameObject) (objects : list GameObject) (e : R) :
  Obj.energy a = Some e -> e <> 0 ->
  (100 <= now - default 0%Z (Obj.lastMovementTime a))%Z ->
  let a1 := fst (updateAI now rnd k a objects) in
  Obj.lastMovementTime a1 = Some now
  /\ forall (later : Z) (rnd' : nat -> R) (k' : nat)
            (objects' : list GameObject),
       (later - now < 100)%Z ->
       updateAI later rnd' k' a1 objects' = (a1, k').
Proof.
  intros He Hne Htick a1.
  assert (Hstamp : Obj.lastMovementTime a1 = Some now /\ Obj.energy a1 = Some e).
  { unfold a1, updateAI. rewrite He.
    destruct (Req_dec_T e 0) as [|_]; [contradiction|].
    destruct (Z.ltb_spec (now - default 0%Z (Obj.lastMovementTime a)) 100);
      [lia|].
    destruct (aiDecide_only rnd k e (grown now a) objects)
      as ((_ & _ & _ & _ & Hen & _) & _ & _ & Hlast).
    rewrite Hlast, Hen. unfold grown.
    destruct (Rlt_dec _ _); cbn; now split. }
  destruct Hstamp as [Hlast Hen]. split; [exact Hlast|].
  intros later rnd' k' objects' Hsoon. unfold updateAI. rewrite Hen, Hlast.
  destruct (Req_dec_T e 0); [reflexivity|].
  change (default 0%Z (Some now)) with now.
  destruct (Z.ltb_spec (later - now) 100); [reflexivity | lia].
Qed.

Lemma X8_ai_decisions_are_throttled_witness :
  Obj.lastMovementTime
    (fst (updateAI 1000 (fun _ => 0) 0 hungry_ai [hungry_ai; big_planet]))
    = Some 1000%Z
  /\ forall (later : Z) (rnd' : nat -> R) (k' : nat)
            (objects' : list GameObject),
       (later - 1000 < 100)%Z ->
       updateAI later rnd' k'
         (fst (updateAI 1000 (fun _ => 0) 0 hungry_ai [hungry_ai; big_planet]))
         objects'
       = (fst (updateAI 1000 (fun _ => 0) 0 hungry_ai [hungry_ai; big_planet]),
          k').
Proof.
  apply (X8_ai_decisions_are_throttled 1000 (fun _ => 0) 0 hungry_ai
           [hungry_ai; big_planet] 10 eq_refl).
  - lra.
  - cbn. lia.
Defined.

(** X9.  [updateAI] never writes the position, the energy, the id or the
    type of the AI; its passive growth never lowers the mass and never
    takes a mass from below [AI_MAX_MASS] to more than
    [AI_MAX_MASS + AI_GROWTH_RATE]; and a radius that was [calculateRadius]
    of the mass is [calculateRadius] of the new mass. *)
Theorem X9_ai_growth_is_capped (now : Z) (rnd : nat -> R) (k : nat)
    (a : GameObject) (objects : list GameObject) :
  let a1 := fst (updateAI now rnd k a objects) in
  same_body a a1
  /\ Obj.mass a <= Obj.mass a1
  /\ Obj.mass a1 <= Rmax (Obj.mass a) (AI_MAX_MASS + AI_GROWTH_RATE)
  /\ (Obj.radius a = calculateRadius (Obj.mass a) (Obj.type a) ->
      Obj.radius a1 = calculateRadius (Obj.mass a1) (Obj.type a1)).
Proof.
  intros a1.
  assert (Hkept : a1 = a -> same_body a a1
            /\ Obj.mass a <= Obj.mass a1
            /\ Obj.mass a1 <= Rmax (Obj.mass a) (AI_MAX_MASS + AI_GROWTH_RATE)
            /\ (Obj.radius a = calculateRadius (Obj.mass a) (Obj.type a) ->
                Obj.radius a1 = calculateRadius (Obj.mass a1) (Obj.type a1))).
  { intros ->.
    split_and!;
      [exact (proj1 (only_steered_refl a)) | lra | apply Rmax_l | easy]. }
  unfold a1 in *. unfold updateAI in *.
  destruct (Obj.energy a) as [e|]; [|now apply Hkept].
  destruct (Req_dec_T e 0); [now apply Hkept|].
  destruct (_ <? _)%Z; [now apply Hkept|]. clear Hkept.
  destruct (aiDecide_only rnd k e (grown now a) objects)
    as (Hbody & Hmass & Hrad & _).
  set (a2 := fst (aiDecide rnd k e (grown now a) objects)) in *.
  unfold same_body in *. destruct_and!.
  unfold grown in *. unfold AI_MAX_MASS, AI_GROWTH_RATE in *.
  destruct (Rlt_dec (Obj.mass (Obj.set_lastMovementTime now a)) 40) as [Hlow|Hhigh];
    cbn in *.
  - split_and!; try congruence; try lra.
    rewrite Hmass. unfold Rmax. destruct (Rle_dec _ _); lra.
  - split_and!; try congruence; try lra.
    rewrite Hmass. apply Rmax_l.
Qed.

(** ** Gravity and the pull (X10, X11, X12) *)

Lemma moved_only_refl (o : GameObject) : moved_only o o.
Proof. unfold moved_only. now destruct o. Qed.

Lemma moved_only_trans (a b c : GameObject) :
  moved_only a b -> moved_only b c -> moved_only a c.
Proof.
  unfold moved_only. intros Hab Hbc. rewrite Hbc at 1. rewrite Hab at 1.
  reflexivity.
Qed.

Lemma pullOther_moved (obj : GameObject) (s : R) (other : GameObject) :
  moved_only other (pullOther obj s other).
Proof.
  unfold pullOther.
  destruct (_ || _); [apply moved_only_refl|].
  destruct (Rgt_dec _ _); [destruct (Rlt_dec _ _)|];
    try apply moved_only_refl.
  unfold moved_only. now destruct other.
Qed.

Lemma pay_pull_moved (q : GameObject) : moved_only q (pay_pull q).
Proof.
  unfold pay_pull. destruct (Obj.energy q) eqn:He; [|apply moved_only_refl].
  unfold moved_only. now destruct q.
Qed.

Lemma addForceAndClamp_moved (f : R * R) (o : GameObject) :
  moved_only o (addForceAndClamp f o).
Proof.
  unfold addForceAndClamp, moved_only.
  destruct (Rgt_dec _ _); now destruct o.
Qed.

Lemma gravityPull_moved (pref : PlayerRef) (obj : GameObject)
    (objects : list GameObject) :
  Forall2 moved_only objects (fst (gravityPull pref obj objects)).
Proof.
  unfold gravityPull.
  destruct (deref pref objects) as [q|];
    [|apply Forall_Forall2_diag, Forall_forall; intros; apply moved_only_refl].
  set (s := Obj.mass q * GRAVITY_PULL_STRENGTH).
  assert (Hmap : Forall2 moved_only objects (pullOther obj s <$> objects)).
  { apply Forall2_fmap_r, Forall_Forall2_diag, Forall_forall.
    intros o _. apply pullOther_moved. }
  destruct pref as [|pi|o]; cbn [fst]; try exact Hmap.
  apply Forall2_same_length_lookup. split.
  - now rewrite length_alter, length_fmap.
  - intros n o o' Hn Hn'.
    destruct (Forall2_lookup_l _ _ _ _ _ Hmap Hn) as (o1 & Ho1 & Hm1).
    destruct (decide (pi = n)) as [->|Hne].
    + rewrite list_lookup_alter_eq, Ho1 in Hn'. injection Hn' as <-.
      eapply moved_only_trans; [exact Hm1 | apply pay_pull_moved].
    + rewrite list_lookup_alter_ne in Hn' by exact Hne. congruence.
Qed.

(** X10.  [applyGravity] writes velocities and the player's energy, and
    nothing else: the array keeps its length, and every object keeps its
    position, mass, radius, id, type and all other fields; and when the pull
    ability is off, no object but the one the function was called for
    changes at all. *)
Theorem X10_applyGravity_writes_motion_only (pullActive : bool)
    (pref : PlayerRef) (i : nat) (objects : list GameObject) :
  let after := fst (applyGravity pullActive pref i objects) in
  length after = length objects
  /\ forall (n : nat) (o : GameObject),
       objects !! n = Some o ->
       exists o', after !! n = Some o' /\ moved_only o o'
                  /\ (pullActive = false -> n <> i -> o' = o).
Proof.
  intros after.
  assert (Hall : Forall2 moved_only objects after
                 /\ (pullActive = false -> forall n, n <> i ->
                     after !! n = objects !! n)).
  { unfold after, applyGravity.
    destruct (objects !! i) as [obj|] eqn:Hi; cbn [fst].
    - set (f := fold_left (gravityAccum obj) objects (0, 0)).
      destruct (pullActive && String.eqb (Obj.id obj) "player"
                && has_positive_energy (deref pref objects)) eqn:Hpull.
      + pose proof (gravityPull_moved pref obj objects) as Hp.
        destruct (gravityPull pref obj objects) as [objects1 pref1].
        cbn [fst] in *. split.
        * apply Forall2_same_length_lookup. split.
          -- rewrite length_alter. eapply Forall2_length, Hp.
          -- intros n o o' Hn Hn'.
             destruct (Forall2_lookup_l _ _ _ _ _ Hp Hn) as (o1 & Ho1 & Hm1).
             destruct (decide (i = n)) as [->|Hne].
             ++ rewrite list_lookup_alter_eq, Ho1 in Hn'. injection Hn' as <-.
                eapply moved_only_trans;
                  [exact Hm1 | apply addForceAndClamp_moved].
             ++ rewrite list_lookup_alter_ne in Hn' by exact Hne. congruence.
        * intros ->. discriminate Hpull.
      + cbn [fst]. split.
        * apply Forall2_same_length_lookup. split; [now rewrite length_alter|].
          intros n o o' Hn Hn'. destruct (decide (i = n)) as [->|Hne].
          -- rewrite list_lookup_alter_eq, Hn in Hn'. injection Hn' as <-.
             apply addForceAndClamp_moved.
          -- rewrite list_lookup_alter_ne in Hn' by exact Hne.
             assert (o' = o) by congruence. subst. apply moved_only_refl.
        * intros _ n Hne. now rewrite list_lookup_alter_ne.
    - split; [|easy].
      apply Forall_Forall2_diag, Forall_forall. intros; apply moved_only_refl. }
  destruct Hall as [Hmoved Hother].
  split; [symmetry; eapply Forall2_length, Hmoved|].
  intros n o Hn.
  destruct (Forall2_lookup_l _ _ _ _ _ Hmoved Hn) as (o' & Hn' & Hm).
  exists o'. split_and!; try easy.
  intros Hoff Hne. specialize (Hother Hoff n Hne). congruence.
Qed.

(** X12.  Apart from the glow bonus, the gravity of [applyGravity] obeys
    the third law: for two bodies with different ids that both glow or both
    do not, the acceleration each adds to the other, weighted by the mass
    that receives it, is equal and opposite. *)
Theorem X12_gravity_is_mutual (a b : GameObject) :
  same_id a b = false -> Obj.isGlowing a = Obj.isGlowing b ->
  let fa := gravityAccum a (0, 0) b in
  let fb := gravityAccum b (0, 0) a in
  Obj.mass a * fst fa + Obj.mass b * fst fb = 0
  /\ Obj.mass a * snd fa + Obj.mass b * snd fb = 0.
Proof.
  intros Hid Hglow.
  assert (Hid' : same_id b a = false).
  { unfold same_id in *. now rewrite String.eqb_sym. }
  assert (Hd : hypot (Obj.x a - Obj.x b) (Obj.y a - Obj.y b)
               = hypot (Obj.x b - Obj.x a) (Obj.y b - Obj.y a)).
  { unfold hypot. f_equal. ring. }
  cbn zeta. unfold gravityAccum. rewrite Hid, Hid', Hd, Hglow.
  set (d := hypot (Obj.x b - Obj.x a) (Obj.y b - Obj.y a)).
  destruct (Rgt_dec d 0) as [Hpos|]; cbn [fst snd]; [|split; ring].
  destruct (Obj.isGlowing b); split; field; lra.
Qed.

Lemma X12_gravity_is_mutual_witness :
  Obj.mass pilot * fst (gravityAccum pilot (0, 0) big_planet)
  + Obj.mass big_planet * fst (gravityAccum big_planet (0, 0) pilot) = 0
  /\ Obj.mass pilot * snd (gravityAccum pilot (0, 0) big_planet)
     + Obj.mass big_planet * snd (gravityAccum big_planet (0, 0) pilot) = 0.
Proof.
  exact (X12_gravity_is_mutual pilot big_planet eq_refl eq_refl).
Defined.

(** X11.  The gravity-pull ability, for the player at index [i] that
    [playerRef.current] points to, with energy above 0: the call costs the
    player [GRAVITY_PULL_COST * 0.016 = 0.048] energy; every other body
    that is lighter than the player and less than [GRAVITY_PULL_RADIUS]
    away gains the velocity [0.3 * player mass / d^2] along the unit vector
    toward the player; every other body is left as it is. *)
Theorem X11_pull_draws_lighter_bodies (i n : nat)
    (objects : list GameObject) (obj o : GameObject) (e : R) :
  objects !! i = Some obj -> Obj.id obj = "player" ->
  Obj.energy obj = Some e -> e > 0 ->
  objects !! n = Some o -> n <> i ->
  let after := fst (applyGravity true (PAt i) i objects) in
  let dx := Obj.x obj - Obj.x o in
  let dy := Obj.y obj - Obj.y o in
  let d := hypot dx dy in
  let pulled := same_id o obj = false /\ Obj.mass o < Obj.mass obj
                /\ 0 < d < GRAVITY_PULL_RADIUS in
  (exists p', after !! i = Some p' /\ Obj.energy p' = Some (e - 0.048))
  /\ exists o', after !! n = Some o'
       /\ (pulled ->
           o' = Obj.set_vel
                  (Obj.vx o + dx / d * (Obj.mass obj * 0.3 / (d * d)))
                  (Obj.vy o + dy / d * (Obj.mass obj * 0.3 / (d * d))) o)
       /\ (~ pulled -> o' = o).
Proof.
  intros Hi Hid He Hpos Hn Hne after dx dy d pulled.
  assert (Hafter : after
            = alter (addForceAndClamp
                       (fold_left (gravityAccum obj) objects (0, 0))) i
                (alter pay_pull i
                   (pullOther obj (Obj.mass obj * GRAVITY_PULL_STRENGTH)
                      <$> objects))).
  { unfold after, applyGravity. rewrite Hi, Hid. cbn [andb String.eqb].
    unfold has_positive_energy, gravityPull. cbn [deref]. rewrite Hi, He.
    destruct (Rgt_dec e 0); [reflexivity | contradiction]. }
  rewrite Hafter. split.
  - eexists. split.
    + rewrite list_lookup_alter_eq, list_lookup_alter_eq, list_lookup_fmap, Hi.
      cbn. rewrite pullOther_self. reflexivity.
    + unfold pay_pull. rewrite He. unfold addForceAndClamp, GRAVITY_PULL_COST.
      destruct (Rgt_dec _ _); cbn; f_equal; lra.
  - exists (pullOther obj (Obj.mass obj * GRAVITY_PULL_STRENGTH) o). split.
    + rewrite !list_lookup_alter_ne by congruence.
      now rewrite list_lookup_fmap, Hn.
    + unfold pullOther, pulled, GRAVITY_PULL_STRENGTH. fold dx dy d. split.
      * intros (Hsame & Hlight & Hd0 & Hd1). rewrite Hsame. cbn [orb].
        destruct (Rge_dec _ _); [lra|].
        destruct (Rgt_dec d 0); [|lra].
        destruct (Rlt_dec d GRAVITY_PULL_RADIUS); [reflexivity | lra].
      * intros Hnot. destruct (same_id o obj) eqn:Hsame; [reflexivity|].
        cbn [orb]. destruct (Rge_dec _ _); [reflexivity|].
        destruct (Rgt_dec d 0); [|reflexivity].
        destruct (Rlt_dec d GRAVITY_PULL_RADIUS); [|reflexivity].
        destruct Hnot. split_and!; try easy; lra.
Qed.

Lemma X11_pull_draws_lighter_bodies_witness :
  exists p' o',
    fst (applyGravity true (PAt 0) 0 [pilot; small_comet]) !! 0%nat = Some p'
    /\ Obj.energy p' = Some (80 - 0.048)
    /\ fst (applyGravity true (PAt 0) 0 [pilot; small_comet]) !! 1%nat
       = Some o'
    /\ o' = Obj.set_vel
              (Obj.vx small_comet
               + (Obj.x pilot - Obj.x small_comet)
                 / hypot (Obj.x pilot - Obj.x small_comet)
                     (Obj.y pilot - Obj.y small_comet)
                 * (Obj.mass pilot * 0.3
                    / (hypot (Obj.x pilot - Obj.x small_comet)
                         (Obj.y pilot - Obj.y small_comet)
                       * hypot (Obj.x pilot - Obj.x small_comet)
                           (Obj.y pilot - Obj.y small_comet))))
              (Obj.vy small_comet
               + (Obj.y pilot - Obj.y small_comet)
                 / hypot (Obj.x pilot - Obj.x small_comet)
                     (Obj.y pilot - Obj.y small_comet)
                 * (Obj.mass pilot * 0.3
                    / (hypot (Obj.x pilot - Obj.x small_comet)
                         (Obj.y pilot - Obj.y small_comet)
                       * hypot (Obj.x pilot - Obj.x small_comet)
                           (Obj.y pilot - Obj.y small_comet))))
              small_comet.
Proof.
  assert (Hd : hypot (Obj.x pilot - Obj.x small_comet)
                 (Obj.y pilot - Obj.y small_comet) = 100).
  { apply hypot_eq; cbn; lra. }
  assert (Hpos : 80 > 0) by lra.
  assert (Hne : 1%nat <> 0%nat) by discriminate.
  destruct (X11_pull_draws_lighter_bodies 0 1 [pilot; small_comet] pilot
              small_comet 80 eq_refl eq_refl eq_refl Hpos eq_refl Hne)
    as ((p' & Hp & Hen) & (o' & Ho & Hpulled & _)).
  exists p', o'. split_and!; try easy.
  apply Hpulled. split_and!; try easy.
  - cbn. lra.
  - rewrite Hd. lra.
  - rewrite Hd. unfold GRAVITY_PULL_RADIUS. lra.
Defined.

(** ** Orbital risk (X13, X14) *)

Lemma or_default_0 (p : R) : or_default (Some p) 0 = p.
Proof. cbn. destruct (Req_dec_T p 0); congruence. Qed.

(** One step of [handleOrbitalMechanics] leaves the player where it is, and
    who it is. *)
Lemma orbitalStep_place (keys : gset string) (obj g : GameObject) :
  Obj.x (orbitalStep keys obj g) = Obj.x obj
  /\ Obj.y (orbitalStep keys obj g) = Obj.y obj
  /\ Obj.radius (orbitalStep keys obj g) = Obj.radius obj
  /\ Obj.id (orbitalStep keys obj g) = Obj.id obj.
Proof.
  unfold orbitalStep.
  destruct (_ || _); [easy|].
  destruct (Rlt_dec _ _); [|easy].
  destruct (playerMoving keys); [|destruct (Rgt_dec (_ + _) 1)];
    destruct (Rgt_dec _ _); easy.
Qed.

Lemma orbital_fold_place (keys : gset string) (l : list GameObject) :
  forall obj,
    Obj.x (fold_left (orbitalStep keys) l obj) = Obj.x obj
    /\ Obj.y (fold_left (orbitalStep keys) l obj) = Obj.y obj
    /\ Obj.radius (fold_left (orbitalStep keys) l obj) = Obj.radius obj
    /\ Obj.id (fold_left (orbitalStep keys) l obj) = Obj.id obj.
Proof.
  induction l as [|g rest IH]; intros obj; cbn; [easy|].
  destruct (IH (orbitalStep keys obj g)) as (Hx & Hy & Hr & Hi).
  destruct (orbitalStep_place keys obj g) as (Hx' & Hy' & Hr' & Hi').
  split_and!; congruence.
Qed.

(** While a movement key is held, a step neither raises the risk nor
    touches the energy. *)
Lemma orbitalStep_moving (keys : gset string) (obj g : GameObject) :
  playerMoving keys = true -> 0 <= risk obj ->
  0 <= risk (orbitalStep keys obj g) <= risk obj
  /\ Obj.energy (orbitalStep keys obj g) = Obj.energy obj.
Proof.
  intros Hmove Hpos. unfold orbitalStep. rewrite Hmove.
  destruct (_ || _); [split; [lra | reflexivity]|].
  destruct (Rlt_dec _ _).
  - assert (Hr : 0 <= Rmax 0 (risk obj - 0.01) <= risk obj).
    { unfold Rmax. destruct (Rle_dec _ _); lra. }
    destruct (Rgt_dec _ _); unfold risk at 1 2; cbn [Obj.absorptionProgress
      Obj.set_vel Obj.set_absorptionProgress]; rewrite or_default_0;
      (split; [exact Hr | reflexivity]).
  - unfold risk at 1 2. cbn [Obj.absorptionProgress Obj.set_absorptionProgress].
    rewrite or_default_0. split; [lra | reflexivity].
Qed.

(** X13.  Holding a movement key is safe in [handleOrbitalMechanics]: with
    any of the eight movement keys down, the call does not raise the
    player's orbital risk (which stays at or above 0) and does not touch
    its energy, however many glowing bodies are near. *)
Theorem X13_moving_player_is_safe (keys : gset string) (obj : GameObject)
    (objects : list GameObject) :
  playerMoving keys = true -> 0 <= risk obj ->
  0 <= risk (handleOrbitalMechanics keys obj objects) <= risk obj
  /\ Obj.energy (handleOrbitalMechanics keys obj objects) = Obj.energy obj.
Proof.
  intros Hmove. unfold handleOrbitalMechanics.
  destruct (is_player (Obj.type obj)); [|intros; split; [lra | reflexivity]].
  revert obj. induction objects as [|g rest IH]; intros obj Hpos; cbn.
  - split; [lra | reflexivity].
  - destruct (orbitalStep_moving keys obj g Hmove Hpos) as [Hr He].
    destruct (IH (orbitalStep keys obj g) (proj1 Hr)) as [Hr' He'].
    split; [lra | congruence].
Qed.

Lemma X13_moving_player_is_safe_witness :
  0 <= risk (handleOrbitalMechanics {["w"]} risky_pilot
               [risky_pilot; star_at 0 26]) <= risk risky_pilot
  /\ Obj.energy (handleOrbitalMechanics {["w"]} risky_pilot
                   [risky_pilot; star_at 0 26]) = Obj.energy risky_pilot.
Proof.
  apply (X13_moving_player_is_safe {["w"]} risky_pilot
           [risky_pilot; star_at 0 26]).
  - reflexivity.
  - unfold risk. cbn. destruct (Req_dec_T _ _); lra.
Defined.

(** X14.  The orbital risk is reset by the array order, not by the nearest
    body: when the last glowing body of the array (other than the player)
    is outside the band of the player (its center at least the two radii
    plus 50 away), [handleOrbitalMechanics] leaves the risk at 0, whatever
    the bodies before it did to it. *)
Theorem X14_last_far_body_resets_risk (keys : gset string)
    (obj g : GameObject) (before after : list GameObject) :
  Obj.type obj = player ->
  Obj.isGlowing g = true -> same_id g obj = false ->
  ~ distance obj g < Obj.radius g + Obj.radius obj + 50 ->
  Forall (fun o => Obj.isGlowing o = false) after ->
  Obj.absorptionProgress
    (handleOrbitalMechanics keys obj (before ++ g :: after)) = Some 0.
Proof.
  intros Hty Hglow Hid Hfar Hafter. unfold handleOrbitalMechanics.
  rewrite Hty. cbn [is_player]. rewrite fold_left_app. cbn [fold_left].
  set (p := fold_left (orbitalStep keys) before obj).
  destruct (orbital_fold_place keys before obj) as (Hx & Hy & Hr & Hi).
  fold p in Hx, Hy, Hr, Hi.
  assert (Hstep : Obj.absorptionProgress (orbitalStep keys p g) = Some 0).
  { unfold orbitalStep. rewrite Hglow. unfold same_id in *. rewrite Hi, Hid.
    cbn [negb orb]. rewrite Hx, Hy, Hr.
    destruct (Rlt_dec _ _) as [Hin|]; [now destruct Hfar|reflexivity]. }
  revert Hstep. generalize (orbitalStep keys p g).
  induction Hafter as [|o rest Ho _ IH]; intros q Hq; cbn; [exact Hq|].
  apply IH. unfold orbitalStep. now rewrite Ho.
Qed.

Lemma X14_last_far_body_resets_risk_witness :
  Obj.absorptionProgress
    (handleOrbitalMechanics ∅ risky_pilot
       ([risky_pilot; star_at 0 26] ++ far_star :: [big_planet])) = Some 0.
Proof.
  apply (X14_last_far_body_resets_risk ∅ risky_pilot far_star
           [risky_pilot; star_at 0 26] [big_planet]); try reflexivity.
  - unfold distance. rewrite (hypot_eq _ _ 200); cbn; lra.
  - repeat constructor.
Defined.

(** ** Radius and coasting (X15, X16) *)

(** X15.  [calculateRadius] never shrinks a body that gains mass: for every
    type it is monotone in the mass; it is never negative, and a player or
    an AI never gets a radius below 6. *)
Theorem X15_radius_grows_with_mass (t : ObjectType) (m1 m2 : R) :
  m1 <= m2 ->
  calculateRadius m1 t <= calculateRadius m2 t
  /\ 0 <= calculateRadius m1 t
  /\ (t = player \/ t = ai -> 6 <= calculateRadius m1 t).
Proof.
  intros Hle. pose proof (sqrt_le_1_alt m1 m2 Hle) as Hs.
  pose proof (sqrt_pos m1) as H1. pose proof (sqrt_pos m2) as H2.
  unfold calculateRadius. split_and!.
  - destruct t; unfold Rmax; repeat destruct (Rle_dec _ _); lra.
  - destruct t; unfold Rmax; repeat destruct (Rle_dec _ _); lra.
  - intros [-> | ->]; apply Rmax_l.
Qed.

Lemma X15_radius_grows_with_mass_witness :
  calculateRadius 8 player <= calculateRadius 11.6 player
  /\ 0 <= calculateRadius 8 player
  /\ (player = player \/ player = ai -> 6 <= calculateRadius 8 player).
Proof.
  apply (X15_radius_grows_with_mass player 8 11.6). lra.
Defined.

(** X16.  A body on which no force acts coasts to a stop: after [n] ticks
    of the integration lines of [gameLoop] ([x += vx], [vx *= 0.998]) its
    velocity is [0.998^n] times what it was, so its speed shrinks by the
    same factor, and its position is the start plus the velocity times
    [500 (1 - 0.998^n)]: it never travels further than 500 times its first
    step. *)
Theorem X16_coasting_closed_form (n : nat) (o : GameObject) :
  let o' := Nat.iter n integrate o in
  Obj.vx o' = Obj.vx o * 0.998 ^ n
  /\ Obj.vy o' = Obj.vy o * 0.998 ^ n
  /\ Obj.x o' = Obj.x o + Obj.vx o * (500 * (1 - 0.998 ^ n))
  /\ Obj.y o' = Obj.y o + Obj.vy o * (500 * (1 - 0.998 ^ n))
  /\ speed o' = 0.998 ^ n * speed o
  /\ Rabs (Obj.x o' - Obj.x o) <= 500 * Rabs (Obj.vx o).
Proof.
  cbn zeta.
  assert (Hq : 0 < 0.998 ^ n <= 1).
  { induction n as [|n IH]; cbn [pow]; [lra | nra]. }
  assert (Hmain : Obj.vx (Nat.iter n integrate o) = Obj.vx o * 0.998 ^ n
            /\ Obj.vy (Nat.iter n integrate o) = Obj.vy o * 0.998 ^ n
            /\ Obj.x (Nat.iter n integrate o)
               = Obj.x o + Obj.vx o * (500 * (1 - 0.998 ^ n))
            /\ Obj.y (Nat.iter n integrate o)
               = Obj.y o + Obj.vy o * (500 * (1 - 0.998 ^ n))).
  { clear Hq. induction n as [|n IH].
    - change (Nat.iter 0 integrate o) with o. cbn [pow]. split_and!; ring.
    - destruct IH as (Hvx & Hvy & Hx & Hy).
      change (Nat.iter (S n) integrate o)
        with (integrate (Nat.iter n integrate o)).
      generalize dependent (Nat.iter n integrate o). intros q Hvx Hvy Hx Hy.
      unfold integrate. cbn. rewrite Hvx, Hvy, Hx, Hy.
      generalize (0.998 ^ n). intros qn. split_and!; lra. }
  destruct Hmain as (Hvx & Hvy & Hx & Hy). split_and!; try easy.
  - unfold speed. rewrite Hvx, Hvy.
    rewrite (Rmult_comm (Obj.vx o)), (Rmult_comm (Obj.vy o)).
    apply hypot_scale. lra.
  - rewrite Hx.
    replace (Obj.x o + Obj.vx o * (500 * (1 - 0.998 ^ n)) - Obj.x o)
      with (Obj.vx o * (500 * (1 - 0.998 ^ n))) by ring.
    rewrite Rabs_mult, (Rabs_right (500 * _)) by lra.
    pose proof (Rabs_pos (Obj.vx o)). nra.
Qed.

(** ** The compass (X17, X18) *)

(** For [x > 0], the vector [(x, y)] is its length times the unit vector of
    angle [atan (y / x)]. *)
Lemma polar_atan (x y : R) :
  0 < x ->
  hypot x y * cos (atan (y / x)) = x /\ hypot x y * sin (atan (y / x)) = y.
Proof.
  intros Hx. rewrite cos_atan, sin_atan.
  assert (Hpos : 0 < 1 + (y / x)²) by (unfold Rsqr; nra).
  assert (Hh : hypot x y = x * sqrt (1 + (y / x)²)).
  { apply hypot_eq.
    - apply Rmult_le_pos; [lra | apply sqrt_pos].
    - replace (x * sqrt (1 + (y / x)²) * (x * sqrt (1 + (y / x)²)))
        with (x * x * (sqrt (1 + (y / x)²) * sqrt (1 + (y / x)²))) by ring.
      rewrite sqrt_sqrt by lra. unfold Rsqr. field. lra. }
  assert (Hs : sqrt (1 + (y / x)²) <> 0).
  { intros Hz. apply sqrt_eq_0 in Hz; lra. }
  rewrite Hh. split; field; lra.
Qed.

(** The same for [x < 0], through the opposite vector. *)
Lemma polar_atan_neg (x y : R) :
  x < 0 ->
  hypot x y * - cos (atan (y / x)) = x
  /\ hypot x y * - sin (atan (y / x)) = y.
Proof.
  intros Hx. destruct (polar_atan (- x) (- y)) as [Hc Hs]; [lra|].
  replace (- y / - x) with (y / x) in Hc, Hs by (field; lra).
  assert (Hh : hypot (- x) (- y) = hypot x y) by (unfold hypot; f_equal; ring).
  rewrite Hh in Hc, Hs. split; lra.
Qed.

(** [atan2] is the angle of the vector: for a vector [(x, y)] other than
    the null vector, its length times [(cos, sin)] of [atan2 y x] is the
    vector again, and the angle lies in [(-PI, PI]]. *)
Lemma atan2_polar (x y : R) :
  x <> 0 \/ y <> 0 ->
  hypot x y * cos (atan2 y x) = x
  /\ hypot x y * sin (atan2 y x) = y
  /\ - PI < atan2 y x <= PI.
Proof.
  intros Hnz. pose proof PI_RGT_0 as Hpi. pose proof (atan_bound (y / x)) as Hb.
  unfold atan2.
  destruct (Rgt_dec x 0) as [Hx|Hx].
  - destruct (polar_atan x y Hx) as [Hc Hs]. split_and!; try easy; lra.
  - destruct (Rlt_dec x 0) as [Hx'|Hx'].
    + destruct (polar_atan_neg x y Hx') as [Hc Hs].
      destruct (Rge_dec y 0) as [Hy|Hy].
      * rewrite neg_cos, neg_sin. split_and!; try easy.
        -- lra.
        -- assert (atan (y / x) <= 0); [|lra].
           rewrite <- atan_0.
           destruct (Req_dec y 0) as [->|Hy0].
           ++ unfold Rdiv. rewrite Rmult_0_l. lra.
           ++ left. apply atan_increasing.
              apply Ropp_lt_cancel. rewrite Ropp_0.
              replace (- (y / x)) with (y / - x) by (field; lra).
              apply Rdiv_lt_0_compat; lra.
      * rewrite cos_minus, sin_minus, cos_PI, sin_PI.
        split_and!; try lra.
        assert (0 < atan (y / x)); [|lra].
        rewrite <- atan_0. apply atan_increasing.
        replace (y / x) with (- y / - x) by (field; lra).
        apply Rdiv_lt_0_compat; lra.
    + assert (x = 0) by lra. subst x.
      destruct (Rgt_dec y 0) as [Hy|Hy].
      * rewrite cos_PI2, sin_PI2, hypot_y by lra. split_and!; lra.
      * destruct (Rlt_dec y 0) as [Hy'|Hy']; [|lra].
        rewrite cos_neg, sin_neg, cos_PI2, sin_PI2.
        replace y with (- - y) at 1 2 by ring.
        rewrite hypot_neg_y by lra. split_and!; lra.
Qed.


(** What [calculateGravityForces] holds, element by element. *)
Lemma forces_elem (target : GameObject) (objects : list GameObject)
    (f : GravityForce) :
  f ∈ calculateGravityForces target objects <->
  exists obj, obj ∈ objects /\ f ∈ forceOf target obj.
Proof.
  unfold calculateGravityForces. rewrite flat_map_bind, list_elem_of_bind.
  split; intros (obj & H1 & H2); exists obj; now split.
Qed.

(** X17.  The compass list of [calculateGravityForces] holds one force for
    every object of the array, other than the target, whose center is
    between 0 and 600 away, and nothing else; the strength of a force is
    [GRAVITY_CONSTANT * mass / d^2] capped at 15, so never above 15 and, for
    a mass that is not negative, never below 0. *)
Theorem X17_compass_lists_bodies_in_range (target : GameObject)
    (objects : list GameObject) :
  (forall f, f ∈ calculateGravityForces target objects ->
     gf_source f ∈ objects
     /\ same_id (gf_source f) target = false
     /\ 0 < distance target (gf_source f) < 600
     /\ gf_strength f
        = Rmin (GRAVITY_CONSTANT * Obj.mass (gf_source f)
                / (distance target (gf_source f)
                   * distance target (gf_source f))) 15
     /\ gf_strength f <= 15
     /\ (0 <= Obj.mass (gf_source f) -> 0 <= gf_strength f))
  /\ (forall obj, obj ∈ objects -> same_id obj target = false ->
        0 < distance target obj < 600 ->
        exists f, f ∈ calculateGravityForces target objects
                  /\ gf_source f = obj)
  /\ (length (calculateGravityForces target objects) <= length objects)%nat.
Proof.
  split_and!.
  - intros f Hf. apply forces_elem in Hf as (obj & Hobj & Hf).
    unfold forceOf in Hf. fold (distance target obj) in Hf.
    destruct (same_id obj target) eqn:Hid; [inversion Hf|].
    destruct (Rgt_dec _ 0) as [Hpos|]; [|inversion Hf].
    destruct (Rlt_dec _ 600) as [Hnear|]; [|inversion Hf].
    apply list_elem_of_singleton in Hf. subst f. cbn.
    split_and!; try easy.
    + apply Rmin_r.
    + intros Hm. apply Rmin_glb; [|lra].
      unfold GRAVITY_CONSTANT. apply Rmult_le_pos; [lra|].
      apply Rlt_le, Rinv_0_lt_compat. nra.
  - intros obj Hobj Hid Hd. eexists. split.
    + apply forces_elem. exists obj. split; [exact Hobj|].
      unfold forceOf. rewrite Hid.
      destruct (Rgt_dec _ 0) as [|Hn]; [|destruct Hn; apply Hd].
      destruct (Rlt_dec _ 600) as [|Hn]; [|destruct Hn; apply Hd].
      apply list_elem_of_singleton. reflexivity.
    + reflexivity.
  - unfold calculateGravityForces.
    induction objects as [|o rest IH]; cbn; [lia|].
    rewrite length_app.
    assert (length (forceOf target o) <= 1)%nat; [|lia].
    unfold forceOf. destruct (same_id o target); cbn; [lia|].
    destruct (Rgt_dec _ _); [destruct (Rlt_dec _ _)|]; cbn; lia.
Qed.

(** X18.  The direction of a compass force is the direction in which its
    source lies: from the target, going the distance of the source along
    the angle [direction] ([Math.atan2(dy, dx)]) arrives at the source; the
    angle lies in [(-PI, PI]]. *)
Theorem X18_compass_points_at_the_source (target : GameObject)
    (objects : list GameObject) (f : GravityForce) :
  f ∈ calculateGravityForces target objects ->
  let d := distance target (gf_source f) in
  Obj.x (gf_source f) = Obj.x target + d * cos (gf_direction f)
  /\ Obj.y (gf_source f) = Obj.y target + d * sin (gf_direction f)
  /\ - PI < gf_direction f <= PI.
Proof.
  intros Hf d. apply forces_elem in Hf as (obj & Hobj & Hf).
  unfold forceOf in Hf.
  destruct (same_id obj target); [inversion Hf|].
  destruct (Rgt_dec _ 0) as [Hpos|]; [|inversion Hf].
  destruct (Rlt_dec _ 600); [|inversion Hf].
  apply list_elem_of_singleton in Hf. subst f. unfold d, distance. cbn.
  set (dx := Obj.x obj - Obj.x target) in *.
  set (dy := Obj.y obj - Obj.y target) in *.
  assert (Hnz : dx <> 0 \/ dy <> 0).
  { destruct (Req_dec dx 0) as [Hx|]; [|now left].
    destruct (Req_dec dy 0) as [Hy|]; [|now right].
    rewrite Hx, Hy, hypot_0 in Hpos. lra. }
  destruct (atan2_polar dx dy Hnz) as (Hc & Hs & Hrange).
  split_and!; try easy; unfold dx, dy in *; lra.
Qed.

Lemma X18_compass_points_at_the_source_witness :
  Obj.x (star_at (-3) 4)
    = Obj.x pilot
      + distance pilot (star_at (-3) 4)
        * cos (atan2 (Obj.y (star_at (-3) 4) - Obj.y pilot)
                 (Obj.x (star_at (-3) 4) - Obj.x pilot))
  /\ Obj.y (star_at (-3) 4)
     = Obj.y pilot
       + distance pilot (star_at (-3) 4)
         * sin (atan2 (Obj.y (star_at (-3) 4) - Obj.y pilot)
                  (Obj.x (star_at (-3) 4) - Obj.x pilot))
  /\ - PI < atan2 (Obj.y (star_at (-3) 4) - Obj.y pilot)
              (Obj.x (star_at (-3) 4) - Obj.x pilot) <= PI.
Proof.
  assert (Hd : hypot (-3 - 0) (4 - 0) = 5) by (apply hypot_eq; lra).
  assert (Hin : mkGravityForce
                  (atan2 (Obj.y (star_at (-3) 4) - Obj.y pilot)
                     (Obj.x (star_at (-3) 4) - Obj.x pilot))
                  (Rmin (GRAVITY_CONSTANT * 100 / (5 * 5)) 15)
                  (star_at (-3) 4) "#ffaa00"
                ∈ calculateGravityForces pilot [pilot; star_at (-3) 4]).
  { unfold calculateGravityForces, forceOf. cbn. rewrite !Hd. settle.
    apply list_elem_of_singleton. reflexivity. }
  exact (X18_compass_points_at_the_source pilot [pilot; star_at (-3) 4] _ Hin).
Defined.

Lemma X17_compass_lists_bodies_in_range_witness :
  exists f, f ∈ calculateGravityForces pilot [pilot; star_at (-3) 4]
            /\ gf_source f = star_at (-3) 4.
Proof.
  destruct (X17_compass_lists_bodies_in_range pilot [pilot; star_at (-3) 4])
    as (_ & Hall & _).
  apply Hall.
  - apply list_elem_of_In. right. left. reflexivity.
  - reflexivity.
  - unfold distance. rewrite (hypot_eq _ _ 5); cbn; lra.
Defined.

(** ** Input (X19, X20) *)




(** ** World population (X21 to X25) *)

(** A point placed at angle [a] and distance [D] from [(x, y)] is [D]
    away. *)
Lemma hypot_polar (x y a D : R) :
  0 <= D -> hypot (x + cos a * D - x) (y + sin a * D - y) = D.
Proof.
  intros HD. apply hypot_eq; [exact HD|].
  pose proof (sin2_cos2 a) as H. unfold Rsqr in H.
  replace ((x + cos a * D - x) * (x + cos a * D - x)
           + (y + sin a * D - y) * (y + sin a * D - y))
    with (D * D * (sin a * sin a + cos a * cos a)) by ring.
  rewrite H. ring.
Qed.

Lemma newAI_fresh (rnd : nat -> R) (clock : nat -> Z) (show : R -> string)
    (k c : nat) (pl : GameObject) (i : nat) :
  (forall n, 0 <= rnd n < 1) -> fresh_ai pl (newAI rnd clock show k c pl i).
Proof.
  intros Hrnd. unfold fresh_ai, newAI, distance. cbn.
  pose proof (Hrnd (k + 1)%nat). pose proof (Hrnd (k + 2)%nat).
  pose proof (Hrnd (k + 6)%nat).
  rewrite hypot_polar by lra. split_and!; try easy; try lra.
  - eexists. split; [reflexivity | lra].
  - unfold calculateRadius. apply Rmax_left.
    assert (H16 : sqrt 16 = 4).
    { replace 16 with (4 * 4) by lra. apply sqrt_square. lra. }
    assert (sqrt (4 + rnd (k + 2)%nat * 6) <= 4); [|lra].
    apply Rle_trans with (sqrt 16); [apply sqrt_le_1_alt; lra | lra].
Qed.

(** X21.  [generateAIPlayers] tops the AI population up in batches of three
    and never past ten: with eight AIs or more in the array it changes
    nothing and draws no random number; with fewer it appends exactly three
    AIs, each between 400 and 1000 away from the player, with mass in
    [[4, 10)], radius 6, energy in [[40, 80)] out of 100, not glowing and
    exploring; an array with at most ten AIs still has at most ten. *)
Theorem X21_ai_population_is_topped_up (rnd : nat -> R) (clock : nat -> Z)
    (show : R -> string) (k c : nat) (pl : GameObject)
    (objects : list GameObject) :
  (forall n, 0 <= rnd n < 1) ->
  let s := generateAIPlayers rnd clock show k c (Some pl) objects in
  let count l := length (List.filter (fun o => is_ai (Obj.type o)) l) in
  ((8 <= count objects)%nat -> s = mkSpawned objects k c)
  /\ ((count objects < 8)%nat ->
      exists a0 a1 a2,
        sp_objects s = objects ++ [a0; a1; a2]
        /\ sp_rand s = (k + 21)%nat
        /\ fresh_ai pl a0 /\ fresh_ai pl a1 /\ fresh_ai pl a2)
  /\ ((count objects <= 10)%nat -> (count (sp_objects s) <= 10)%nat).
Proof.
  intros Hrnd s count. unfold s, generateAIPlayers. fold (count objects).
  destruct (Nat.ltb_spec (count objects) 8) as [Hfew | Hmany].
  - cbn [seq fold_left sp_objects sp_rand sp_clock].
    split_and!; [lia | |].
    + intros _. do 3 eexists. split_and!.
      * rewrite <- !app_assoc. reflexivity.
      * lia.
      * now apply newAI_fresh.
      * now apply newAI_fresh.
      * now apply newAI_fresh.
    + intros _. unfold count. rewrite <- !app_assoc.
      rewrite List.filter_app, length_app. fold (count objects).
      cbn. lia.
  - split_and!; [reflexivity | lia | easy].
Qed.

Lemma X21_ai_population_is_topped_up_witness :
  exists a0 a1 a2,
    sp_objects (generateAIPlayers (fun _ => 0) (fun _ => 1000%Z)
                  (fun _ => "0") 0 0 (Some pilot) [pilot])
      = [pilot] ++ [a0; a1; a2]
    /\ sp_rand (generateAIPlayers (fun _ => 0) (fun _ => 1000%Z)
                  (fun _ => "0") 0 0 (Some pilot) [pilot]) = 21%nat
    /\ fresh_ai pilot a0 /\ fresh_ai pilot a1 /\ fresh_ai pilot a2.
Proof.
  assert (Hrnd : forall n : nat, 0 <= (fun _ : nat => 0) n < 1) by (intros; lra).
  destruct (X21_ai_population_is_topped_up (fun _ => 0) (fun _ => 1000%Z)
              (fun _ => "0") 0 0 pilot [pilot] Hrnd) as (_ & Hfew & _).
  apply Hfew. cbn. lia.
Defined.

(** X22.  [generateCosmicEvents] makes at most one event per call, and only
    when its first draw is below 0.004; the objects are never touched.  An
    event it makes is of one of the nine types, carries the reward of its
    type (100 for a quantum anomaly, 50 for a nebula, 0 otherwise), lies
    between 300 and 800 away from the player, and starts with between 8 and
    16 seconds to live. *)
Theorem X22_cosmic_events_spawn_one_at_a_time (rnd : nat -> R)
    (clock : nat -> Z) (pl : GameObject) (w : Weather) :
  (forall n, 0 <= rnd n < 1) ->
  exists w',
    generateCosmicEvents rnd clock (Some pl) w = Some w'
    /\ we_objects w' = we_objects w
    /\ (~ rnd (we_rand w) < 0.004 ->
        we_events w' = we_events w /\ we_rand w' = (we_rand w + 1)%nat)
    /\ (rnd (we_rand w) < 0.004 ->
        exists e, we_events w' = we_events w ++ [e] /\ fresh_event pl e
                  /\ we_rand w' = (we_rand w + 10)%nat).
Proof.
  intros Hrnd. unfold generateCosmicEvents.
  destruct (Rlt_dec _ _) as [Hhit | Hmiss].
  - assert (Hne : eventTypes <> []) by discriminate.
    destruct (at_floor_in_range eventTypes (rnd (we_rand w + 1)%nat)
                (Hrnd _) Hne) as (t & Hpick & Ht).
    rewrite Hpick. eexists. split; [reflexivity|]. cbn.
    split_and!; [reflexivity | easy |].
    intros _. eexists. split_and!; [reflexivity | | reflexivity].
    unfold fresh_event. cbn.
    pose proof (Hrnd (we_rand w + 3)%nat). pose proof (Hrnd (we_rand w + 6)%nat).
    pose proof (Hrnd (we_rand w + 7)%nat). pose proof (Hrnd (we_rand w + 8)%nat).
    rewrite hypot_polar by lra. split_and!; try easy; lra.
  - eexists. split; [reflexivity|]. cbn. split_and!; try easy.
Qed.

Lemma X22_cosmic_events_spawn_one_at_a_time_witness :
  exists w',
    generateCosmicEvents (fun _ => 0) (fun _ => 1000%Z) (Some pilot)
      (mkWeather [] [pilot] 0 0) = Some w'
    /\ we_objects w' = [pilot]
    /\ exists e, we_events w' = [] ++ [e] /\ fresh_event pilot e
                 /\ we_rand w' = 10%nat.
Proof.
  assert (Hrnd : forall n : nat, 0 <= (fun _ : nat => 0) n < 1) by (intros; lra).
  destruct (X22_cosmic_events_spawn_one_at_a_time (fun _ => 0)
              (fun _ => 1000%Z) pilot (mkWeather [] [pilot] 0 0) Hrnd)
    as (w' & Hrun & Hobjs & _ & Hhit).
  exists w'. split_and!; try easy. apply Hhit. cbn. lra.
Defined.

Lemma dropBody_spec (rnd : nat -> R) (clock : nat -> Z) (show : R -> string)
    (chance base spread speed : R) (prefix : string) (t : ObjectType)
    (color : string) (event : CosmicEvent) (objects : list GameObject)
    (k c : nat) :
  (forall n, 0 <= rnd n < 1) ->
  (t = debris /\ base = 1.5 /\ spread = 2.5
   \/ t = asteroid /\ base = 2 /\ spread = 4) ->
  exists news,
    fst (fst (dropBody rnd clock show chance base spread speed prefix t color
                event (objects, k, c))) = objects ++ news
    /\ Forall dropped news /\ (length news <= 1)%nat.
Proof.
  intros Hrnd Hkind. unfold dropBody.
  destruct (Rlt_dec _ _); cbn [fst].
  - eexists. split; [reflexivity|]. split; [|cbn; lia].
    constructor; [|constructor]. unfold dropped. cbn.
    pose proof (Hrnd (k + 1)%nat).
    destruct Hkind as [(-> & -> & ->) | (-> & -> & ->)].
    + split_and!; try reflexivity. left. split; [reflexivity | lra].
    + split_and!; try reflexivity. right. split; [reflexivity | lra].
  - exists []. rewrite app_nil_r. split_and!; [reflexivity | constructor | cbn; lia].
Qed.

(** What [updateCosmicEvents] does to the events does not depend on the
    draws; what it does to the objects is to append. *)
Lemma ageEvents_spec (rnd : nat -> R) (clock : nat -> Z) (show : R -> string)
    (events : list CosmicEvent) :
  (forall n, 0 <= rnd n < 1) ->
  forall (objects : list GameObject) (k c : nat),
    fst (ageEvents rnd clock show events (objects, k, c))
      = aged <$> List.filter outlives events
    /\ exists news,
         fst (fst (snd (ageEvents rnd clock show events (objects, k, c))))
           = objects ++ news
         /\ Forall dropped news
         /\ (length news
             <= length (List.filter (fun e => outlives e && drops e) events))%nat.
Proof.
  intros Hrnd. induction events as [|e rest IH]; intros objects k c.
  - cbn. split; [reflexivity|]. exists []. rewrite app_nil_r.
    split; [reflexivity|]. split; [apply Forall_nil_2 | cbn; lia].
  - cbn [ageEvents]. unfold ageEvent. cbn [Ev.timeLeft Ev.set_timeLeft Ev.type].
    fold (aged e). fold (outlives e).
    set (st1 := match Ev.type e with
                | meteorShower => _ | asteroidBelt => _ | _ => _ end).
    assert (Hst1 : exists news1,
               fst (fst st1) = objects ++ news1 /\ Forall dropped news1
               /\ (length news1
                   <= (if outlives e && drops e then 1 else 0))%nat).
    { assert (Hsame : exists news1,
                 fst (fst (objects, k, c)) = objects ++ news1
                 /\ Forall dropped news1
                 /\ (length news1
                     <= (if outlives e && drops e then 1 else 0))%nat).
      { exists []. rewrite app_nil_r.
        split_and!; [reflexivity | constructor | cbn; lia]. }
      unfold st1, drops in Hsame |- *.
      destruct (Ev.type e) eqn:Hty; try exact Hsame;
        destruct (outlives e) eqn:Hal; try exact Hsame; cbn [andb];
        (edestruct (dropBody_spec rnd clock show) as (news1 & H1 & H2 & H3);
         [exact Hrnd | | exists news1; split_and!; [exact H1 | exact H2 | exact H3]]);
        [left | right]; now split_and!. }
    destruct Hst1 as (news1 & H1 & Hd1 & Hl1).
    destruct st1 as [[objects1 k1] c1]. cbn [fst] in H1. subst objects1.
    destruct (IH (objects ++ news1) k1 c1) as (Hev & news2 & H2 & Hd2 & Hl2).
    destruct (ageEvents rnd clock show rest (objects ++ news1, k1, c1))
      as [kept st2]. cbn [fst snd] in *. split.
    + cbn [List.filter]. destruct (outlives e); cbn; now rewrite Hev.
    + exists (news1 ++ news2). rewrite H2, app_assoc.
      split_and!; [reflexivity | now apply Forall_app |].
      rewrite length_app. cbn [List.filter].
      destruct (outlives e && drops e); cbn [length]; lia.
Qed.

(** X23.  [updateCosmicEvents] takes 0.016 off the time left of every
    event and keeps, in order, those with time left above 0, whatever the
    random draws; the objects already in the array stay as they are and
    where they are, and what is appended is at most one body per live
    meteor shower or asteroid belt: debris of mass in [[1.5, 4)] or an
    asteroid of mass in [[2, 6)], not glowing, without energy, with the
    radius of its mass. *)
Theorem X23_cosmic_events_age_and_drop (rnd : nat -> R) (clock : nat -> Z)
    (show : R -> string) (w : Weather) :
  (forall n, 0 <= rnd n < 1) ->
  let w' := updateCosmicEvents rnd clock show w in
  we_events w' = aged <$> List.filter outlives (we_events w)
  /\ Forall (fun e => 0 < Ev.timeLeft e) (we_events w')
  /\ (length (we_events w') <= length (we_events w))%nat
  /\ exists news,
       we_objects w' = we_objects w ++ news
       /\ Forall dropped news
       /\ (length news
           <= length (List.filter (fun e => outlives e && drops e)
                        (we_events w)))%nat.
Proof.
  intros Hrnd w'.
  destruct (ageEvents_spec rnd clock show (we_events w) Hrnd (we_objects w)
              (we_rand w) (we_clock w)) as (Hev & news & Hobj & Hd & Hl).
  unfold w', updateCosmicEvents.
  destruct (ageEvents rnd clock show (we_events w)
              (we_objects w, we_rand w, we_clock w)) as [kept [[objs k] c]].
  cbn [fst snd we_events we_objects] in *. subst kept objs. split_and!.
  - reflexivity.
  - apply Forall_fmap, Forall_forall. intros e He.
    apply list_elem_of_In, filter_In in He as [_ Hal].
    unfold outlives in Hal. cbn. destruct (Rgt_dec _ _); [lra | discriminate].
  - rewrite length_fmap. apply filter_length_le.
  - exists news. now split_and!.
Qed.

Lemma X23_cosmic_events_age_and_drop_witness :
  we_events (updateCosmicEvents (fun _ => 0) (fun _ => 1000%Z) (fun _ => "0")
               (mkWeather [fading_nebula; shower] [pilot] 0 0))
    = aged <$> List.filter outlives [fading_nebula; shower]
  /\ Forall (fun e => 0 < Ev.timeLeft e)
       (we_events (updateCosmicEvents (fun _ => 0) (fun _ => 1000%Z)
                     (fun _ => "0")
                     (mkWeather [fading_nebula; shower] [pilot] 0 0))).
Proof.
  assert (Hrnd : forall n : nat, 0 <= (fun _ : nat => 0) n < 1) by (intros; lra).
  destruct (X23_cosmic_events_age_and_drop (fun _ => 0) (fun _ => 1000%Z)
              (fun _ => "0") (mkWeather [fading_nebula; shower] [pilot] 0 0)
              Hrnd) as (Hev & Hlive & _).
  split; [exact Hev | exact Hlive].
Defined.

Lemma calculateRadius_lt (m : R) (t : ObjectType) :
  0 <= m < 256 -> calculateRadius m t < 27.
Proof.
  intros Hm.
  assert (H16 : sqrt 256 = 16).
  { replace 256 with (16 * 16) by lra. apply sqrt_square. lra. }
  assert (Hs : sqrt m < 16).
  { rewrite <- H16. apply sqrt_lt_1_alt. lra. }
  pose proof (sqrt_pos m) as H0.
  unfold calculateRadius. destruct t; try apply Rmax_lub_lt; lra.
Qed.

Lemma newBody_scattered (rnd : nat -> R) (clock : nat -> Z)
    (show : R -> string) (k c : nat) (pl : GameObject) (i : nat) :
  (forall n, 0 <= rnd n < 1) ->
  let '(body, k', pushed) := newBody rnd clock show k c pl i in
  scattered pl body /\ pushed = is_wormhole (Obj.type body).
Proof.
  intros Hrnd. pose proof (Hrnd (k + 1)%nat). pose proof (Hrnd (k + 3)%nat).
  unfold newBody.
  repeat (destruct (Rlt_dec (rnd (k + 2)%nat) _));
    (split; [|reflexivity]);
    unfold scattered, distance, glowingBody, plainBody; cbn;
    rewrite hypot_polar by lra;
    (split_and!; try easy; try lra; intros _; split_and!; eauto).
Qed.

Lemma scatter_spec (rnd : nat -> R) (clock : nat -> Z) (show : R -> string)
    (pl : GameObject) (turns : list nat) :
  (forall n, 0 <= rnd n < 1) ->
  forall s : Scattered,
  exists news,
    sc_objects (fold_left (scatterOne rnd clock show pl) turns s)
      = sc_objects s ++ news
    /\ sc_wormholes (fold_left (scatterOne rnd clock show pl) turns s)
       = sc_wormholes s
           ++ List.filter (fun b => is_wormhole (Obj.type b)) news
    /\ length news = length turns
    /\ Forall (scattered pl) news.
Proof.
  intros Hrnd. induction turns as [|i rest IH]; intros s.
  - exists []. cbn. rewrite !app_nil_r.
    split_and!; [reflexivity | reflexivity | reflexivity | apply Forall_nil_2].
  - cbn [fold_left]. unfold scatterOne at 2 4.
    pose proof (newBody_scattered rnd clock show (sc_rand s) (sc_clock s) pl i
                  Hrnd) as Hbody.
    destruct (newBody rnd clock show (sc_rand s) (sc_clock s) pl i)
      as [[body k'] pushed]. destruct Hbody as [Hb ->].
    destruct (IH (mkScattered (sc_objects s ++ [body])
                    (if is_wormhole (Obj.type body)
                     then sc_wormholes s ++ [body] else sc_wormholes s)
                    k' (sc_clock s + 1))) as (news & Ho & Hw & Hl & Hall).
    exists (body :: news). rewrite Ho, Hw. cbn [sc_objects sc_wormholes].
    split_and!.
    + now rewrite <- app_assoc.
    + cbn [List.filter]. destruct (is_wormhole (Obj.type body));
        [now rewrite <- app_assoc | reflexivity].
    + cbn. now rewrite Hl.
    + now constructor.
Qed.

Lemma scattered_nearby (pl b : GameObject) :
  scattered pl b -> scenery_nearby pl b = true.
Proof.
  intros (Hp & Ha & _ & _ & _ & _ & _ & _ & Hd). unfold scenery_nearby.
  destruct (Rlt_dec _ _); [|lra].
  destruct (Obj.type b); try reflexivity; congruence.
Qed.

Lemma filter_all {A : Type} (f : A -> bool) (l : list A) :
  Forall (fun a => f a = true) l -> List.filter f l = l.
Proof.
  induction 1 as [|a l Ha _ IH]; [reflexivity|]. cbn. now rewrite Ha, IH.
Qed.

(** X24.  [generateObjectsAroundPlayer] keeps the scenery around the player
    topped up in batches of twelve: with 35 or more bodies other than
    players and AIs within 1000 of the player it changes nothing; with fewer
    it appends exactly twelve, leaving the array before them as it is.  Each
    new body is neither a player nor an AI, lies between 300 and 1000 from
    the player, has the radius of its mass and no energy, and glows, with a
    charging rate and at rest, exactly when it is a black hole, star,
    pulsar, white dwarf, wormhole or space station; the new wormholes, and
    only they, are also appended to the wormhole list.  All twelve count as
    nearby at once, so a scenery of at most 46 stays at most 46. *)
Theorem X24_scenery_is_topped_up (rnd : nat -> R) (clock : nat -> Z)
    (show : R -> string) (pl : GameObject) (s : Scattered) :
  (forall n, 0 <= rnd n < 1) ->
  let s' := generateObjectsAroundPlayer rnd clock show (Some pl) s in
  let count l := length (List.filter (scenery_nearby pl) l) in
  ((35 <= count (sc_objects s))%nat -> s' = s)
  /\ ((count (sc_objects s) < 35)%nat ->
      exists news,
        sc_objects s' = sc_objects s ++ news
        /\ length news = 12%nat
        /\ Forall (scattered pl) news
        /\ sc_wormholes s'
           = sc_wormholes s
               ++ List.filter (fun b => is_wormhole (Obj.type b)) news
        /\ count (sc_objects s') = (count (sc_objects s) + 12)%nat)
  /\ ((count (sc_objects s) <= 46)%nat -> (count (sc_objects s') <= 46)%nat).
Proof.
  intros Hrnd s' count. unfold s', generateObjectsAroundPlayer.
  fold (count (sc_objects s)).
  destruct (Nat.ltb_spec (count (sc_objects s)) 35) as [Hfew | Hmany].
  - destruct (scatter_spec rnd clock show pl (seq 0 12) Hrnd s)
      as (news & Ho & Hw & Hl & Hall).
    assert (Hcount : count (sc_objects s ++ news)
                     = (count (sc_objects s) + 12)%nat).
    { unfold count. rewrite List.filter_app, length_app.
      rewrite (filter_all (scenery_nearby pl) news), Hl; [reflexivity|].
      eapply Forall_impl; [exact Hall|]. apply scattered_nearby. }
    split_and!; [lia | |].
    + intros _. exists news. rewrite Ho. now split_and!.
    + intros _. rewrite Ho, Hcount. lia.
  - split_and!; [reflexivity | lia | easy].
Qed.

Lemma X24_scenery_is_topped_up_witness :
  exists news,
    sc_objects (generateObjectsAroundPlayer (fun _ => 0) (fun _ => 1000%Z)
                  (fun _ => "0") (Some pilot) (mkScattered [pilot] [] 0 0))
      = [pilot] ++ news
    /\ length news = 12%nat
    /\ Forall (scattered pilot) news.
Proof.
  assert (Hrnd : forall n : nat, 0 <= (fun _ : nat => 0) n < 1) by (intros; lra).
  destruct (X24_scenery_is_topped_up (fun _ => 0) (fun _ => 1000%Z)
              (fun _ => "0") pilot (mkScattered [pilot] [] 0 0) Hrnd)
    as (_ & Hfew & _).
  destruct Hfew as (news & Ho & Hl & Hall & _).
  - unfold scenery_nearby. cbn. rewrite andb_false_r. cbn. lia.
  - exists news. now split_and!.
Defined.

Lemma newActivity_fresh (rnd : nat -> R) (clock : nat -> Z) (k c : nat)
    (pl : GameObject) (i : nat) :
  (forall n, 0 <= rnd n < 1) ->
  exists a, newActivity rnd clock k c pl i = Some a /\ fresh_activity pl a.
Proof.
  intros Hrnd. unfold newActivity.
  assert (Hne : activityTypes <> []) by discriminate.
  destruct (at_floor_in_range activityTypes (rnd (k + 2)%nat) (Hrnd _) Hne)
    as ([t reward] & -> & Hin).
  eexists. split; [reflexivity|]. unfold fresh_activity. cbn.
  pose proof (Hrnd (k + 1)%nat). pose proof (Hrnd (k + 3)%nat).
  rewrite hypot_polar by lra. split_and!; try easy; lra.
Qed.

Lemma fresh_activity_nearby (pl : GameObject) (a : SpaceActivity) :
  fresh_activity pl a -> activity_nearby pl a = true.
Proof.
  intros (_ & _ & _ & Hd). unfold activity_nearby.
  destruct (Rlt_dec _ _); [reflexivity | lra].
Qed.

(** X25.  [generateSpaceActivities] keeps at least three activities within
    1200 of the player after two calls: with three or more nearby it changes
    nothing; with fewer it appends exactly two (it does not throw), both
    undiscovered, between 500 and 1200 from the player, with a radius in
    [[15, 25)] and the reward of their type (derelict ship 50, ancient relic
    100, energy crystal 75, space whale 150, alien structure 200), so that
    the number nearby goes up by two. *)
Theorem X25_activities_are_topped_up (rnd : nat -> R) (clock : nat -> Z)
    (pl : GameObject) (s : Seeded) :
  (forall n, 0 <= rnd n < 1) ->
  let count l := length (List.filter (activity_nearby pl) l) in
  exists s',
    generateSpaceActivities rnd clock (Some pl) s = Some s'
    /\ ((3 <= count (se_activities s))%nat -> s' = s)
    /\ ((count (se_activities s) < 3)%nat ->
        exists a0 a1,
          se_activities s' = se_activities s ++ [a0; a1]
          /\ fresh_activity pl a0 /\ fresh_activity pl a1
          /\ count (se_activities s') = (count (se_activities s) + 2)%nat).
Proof.
  intros Hrnd count. unfold generateSpaceActivities.
  fold (count (se_activities s)).
  destruct (Nat.ltb_spec (count (se_activities s)) 3) as [Hfew | Hmany].
  - cbn [seq fold_left].
    destruct (newActivity_fresh rnd clock (se_rand s) (se_clock s) pl 0 Hrnd)
      as (a0 & -> & H0). cbn [se_rand se_clock se_activities].
    destruct (newActivity_fresh rnd clock (se_rand s + 4) (se_clock s + 1)
                pl 1 Hrnd) as (a1 & -> & H1).
    eexists. split; [reflexivity|]. cbn [se_activities].
    split_and!; [lia|]. intros _. exists a0, a1. rewrite <- app_assoc.
    split_and!; [reflexivity | exact H0 | exact H1 |].
    unfold count. rewrite List.filter_app, length_app. cbn [List.filter app].
    rewrite (fresh_activity_nearby pl a0 H0), (fresh_activity_nearby pl a1 H1).
    reflexivity.
  - exists s. split_and!; [reflexivity | reflexivity | lia].
Qed.

Lemma X25_activities_are_topped_up_witness :
  exists s',
    generateSpaceActivities (fun _ => 0) (fun _ => 1000%Z) (Some pilot)
      (mkSeeded [] 0 0) = Some s'
    /\ exists a0 a1,
         se_activities s' = [] ++ [a0; a1]
         /\ fresh_activity pilot a0 /\ fresh_activity pilot a1.
Proof.
  assert (Hrnd : forall n : nat, 0 <= (fun _ : nat => 0) n < 1) by (intros; lra).
  destruct (X25_activities_are_topped_up (fun _ => 0) (fun _ => 1000%Z) pilot
              (mkSeeded [] 0 0) Hrnd) as (s' & Hrun & _ & Hfew).
  exists s'. split; [exact Hrun|].
  destruct Hfew as (a0 & a1 & Ha & H0 & H1 & _); [cbn; lia|].
  exists a0, a1. now split_and!.
Defined.

Lemma filter_none {A : Type} (f : A -> bool) (l : list A) :
  Forall (fun a => f a = false) l -> List.filter f l = [].
Proof.
  induction 1 as [|a l Ha _ IH]; [reflexivity|]. cbn. now rewrite Ha.
Qed.

Lemma newPlayer_radius : Obj.radius newPlayer = 6.
Proof.
  cbn. unfold calculateRadius, PLAYER_START_MASS. apply Rmax_left.
  assert (H9 : sqrt 9 = 3).
  { replace 9 with (3 * 3) by lra. apply sqrt_square. lra. }
  assert (sqrt 8 <= 3); [|lra].
  rewrite <- H9. apply sqrt_le_1_alt. lra.
Qed.

Lemma scattered_clear (b : GameObject) :
  scattered newPlayer b -> clear_of newPlayer b.
Proof.
  intros (_ & _ & _ & _ & _ & _ & Hm & Hr & Hd). unfold clear_of.
  rewrite newPlayer_radius, Hr.
  pose proof (calculateRadius_lt (Obj.mass b) (Obj.type b)). lra.
Qed.

Lemma fresh_ai_clear (a : GameObject) :
  fresh_ai newPlayer a -> clear_of newPlayer a.
Proof.
  intros (_ & _ & _ & _ & _ & Hr & Hd & _). unfold clear_of.
  rewrite newPlayer_radius, Hr. lra.
Qed.

Lemma scenery_few (rnd : nat -> R) (clock : nat -> Z) (show : R -> string)
    (pl : GameObject) (s : Scattered) :
  (forall n, 0 <= rnd n < 1) ->
  (length (List.filter (scenery_nearby pl) (sc_objects s)) < 35)%nat ->
  exists news,
    sc_objects (generateObjectsAroundPlayer rnd clock show (Some pl) s)
      = sc_objects s ++ news
    /\ length news = 12%nat
    /\ Forall (scattered pl) news
    /\ sc_wormholes (generateObjectsAroundPlayer rnd clock show (Some pl) s)
       = sc_wormholes s
           ++ List.filter (fun b => is_wormhole (Obj.type b)) news.
Proof.
  intros Hrnd Hfew. unfold generateObjectsAroundPlayer.
  destruct (Nat.ltb_spec
              (length (List.filter (scenery_nearby pl) (sc_objects s))) 35);
    [|lia].
  destruct (scatter_spec rnd clock show pl (seq 0 12) Hrnd s)
    as (news & Ho & Hw & Hl & Hall).
  exists news. now split_and!.
Qed.

Lemma ai_few (rnd : nat -> R) (clock : nat -> Z) (show : R -> string)
    (k c : nat) (pl : GameObject) (objects : list GameObject) :
  (forall n, 0 <= rnd n < 1) ->
  (length (List.filter (fun o => is_ai (Obj.type o)) objects) < 8)%nat ->
  exists a0 a1 a2,
    sp_objects (generateAIPlayers rnd clock show k c (Some pl) objects)
      = objects ++ [a0; a1; a2]
    /\ fresh_ai pl a0 /\ fresh_ai pl a1 /\ fresh_ai pl a2.
Proof.
  intros Hrnd Hfew. unfold generateAIPlayers.
  destruct (Nat.ltb_spec
              (length (List.filter (fun o => is_ai (Obj.type o)) objects)) 8);
    [|lia].
  cbn [seq fold_left sp_objects sp_rand sp_clock].
  do 3 eexists. rewrite <- !app_assoc.
  split_and!; [reflexivity | | |]; now apply newAI_fresh.
Qed.

Lemma activities_few (rnd : nat -> R) (clock : nat -> Z) (pl : GameObject)
    (s : Seeded) :
  (forall n, 0 <= rnd n < 1) ->
  (length (List.filter (activity_nearby pl) (se_activities s)) < 3)%nat ->
  exists s' a0 a1,
    generateSpaceActivities rnd clock (Some pl) s = Some s'
    /\ se_activities s' = se_activities s ++ [a0; a1]
    /\ fresh_activity pl a0 /\ fresh_activity pl a1.
Proof.
  intros Hrnd Hfew. unfold generateSpaceActivities.
  destruct (Nat.ltb_spec
              (length (List.filter (activity_nearby pl) (se_activities s))) 3);
    [|lia].
  cbn [seq fold_left].
  destruct (newActivity_fresh rnd clock (se_rand s) (se_clock s) pl 0 Hrnd)
    as (a0 & -> & H0). cbn [se_rand se_clock se_activities].
  destruct (newActivity_fresh rnd clock (se_rand s + 4) (se_clock s + 1)
              pl 1 Hrnd) as (a1 & -> & H1).
  eexists. exists a0, a1. cbn [se_activities]. rewrite <- app_assoc.
  now split_and!.
Qed.

(** X26.  [initGame] does not throw and builds a world of sixteen objects:
    the player first (where [playerRef.current] points), at the origin with
    mass 8 and energy 80 out of 120, then twelve bodies of the scenery, then
    three AIs; the wormhole list holds the wormholes among the twelve; there
    are two undiscovered activities, no cosmic event, and the score is 0.
    The game that results is not over, and the player touches nothing:
    every other object is farther from the player than the sum of their
    radii, so that [handleCollisions] does nothing on a pair with the
    player. *)
Theorem X26_new_game_is_playable (rnd : nat -> R) (clock : nat -> Z)
    (show : R -> string) (k c : nat) :
  (forall n, 0 <= rnd n < 1) ->
  exists g bodies ais a0 a1,
    initGame rnd clock show k c = Some g
    /\ g_objects g = newPlayer :: bodies ++ ais
    /\ g_playerRef g = PAt 0
    /\ length bodies = 12%nat /\ Forall (scattered newPlayer) bodies
    /\ length ais = 3%nat /\ Forall (fresh_ai newPlayer) ais
    /\ g_wormholes g = List.filter (fun b => is_wormhole (Obj.type b)) bodies
    /\ g_activities g = [a0; a1]
    /\ fresh_activity newPlayer a0 /\ fresh_activity newPlayer a1
    /\ g_events g = [] /\ g_score g = 0
    /\ isGameOver (g_objects g) = false
    /\ Forall (clear_of newPlayer) (bodies ++ ais)
    /\ (forall wormholes rnd' j st,
          cs_objects st = g_objects g -> (0 < j)%nat ->
          collidePair wormholes rnd' 0 j st = Some st).
Proof.
  intros Hrnd. unfold initGame.
  destruct (scenery_few rnd clock show newPlayer
              (mkScattered [newPlayer] [] k c) Hrnd)
    as (bodies & Ho & Hl & Hall & Hw).
  { unfold scenery_nearby. cbn. rewrite andb_false_r. cbn. lia. }
  set (s1 := generateObjectsAroundPlayer rnd clock show (Some newPlayer)
               (mkScattered [newPlayer] [] k c)) in *.
  cbn [sc_objects sc_wormholes app] in Ho, Hw.
  destruct (ai_few rnd clock show (sc_rand s1) (sc_clock s1) newPlayer
              (sc_objects s1) Hrnd) as (a0 & a1 & a2 & Hais & H0 & H1 & H2).
  { rewrite Ho. cbn [List.filter Obj.type newPlayer is_ai].
    rewrite (filter_none (fun o => is_ai (Obj.type o)) bodies); [cbn; lia|].
    eapply Forall_impl; [exact Hall|]. intros b (_ & Hai & _).
    destruct (Obj.type b); try reflexivity; congruence. }
  set (s2 := generateAIPlayers rnd clock show (sc_rand s1) (sc_clock s1)
               (Some newPlayer) (sc_objects s1)) in *.
  destruct (activities_few rnd clock newPlayer
              (mkSeeded [] (sp_rand s2) (sp_clock s2)) Hrnd)
    as (s3 & b0 & b1 & -> & Hacts & Hb0 & Hb1); [cbn; lia|].
  cbn [se_activities app] in Hacts.
  assert (Hclear : Forall (clear_of newPlayer) (bodies ++ [a0; a1; a2])).
  { apply Forall_app. split.
    - eapply Forall_impl; [exact Hall|]. apply scattered_clear.
    - repeat constructor; now apply fresh_ai_clear. }
  exists (mkGame (sp_objects s2) (PAt 0) (sc_wormholes s1) (se_activities s3)
            [] 0 0 [] (se_rand s3) (se_clock s3)), bodies, [a0; a1; a2], b0, b1.
  cbn [g_objects g_playerRef g_wormholes g_activities g_events g_score].
  rewrite Hais, Ho, Hw, Hacts.
  split_and!; try reflexivity; try assumption.
  - repeat (apply Forall_cons_2; [assumption|]). apply Forall_nil_2.
  - cbn. unfold PLAYER_START_ENERGY. destruct (Rle_dec 80 0); [lra|reflexivity].
  - intros wormholes rnd' j st Hst Hj. unfold collidePair. rewrite Hst.
    destruct j as [|j]; [lia|]. cbn [lookup list_lookup app].
    change ((newPlayer :: bodies) ++ [a0; a1; a2])
      with (newPlayer :: (bodies ++ [a0; a1; a2])).
    cbn [lookup list_lookup].
    destruct ((bodies ++ [a0; a1; a2]) !! j) as [obj2|] eqn:Hj2;
      [|reflexivity].
    rewrite Forall_lookup in Hclear. specialize (Hclear j obj2 Hj2).
    unfold clear_of in Hclear. destruct (Rlt_dec _ _); [lra | reflexivity].
Qed.

Lemma X26_new_game_is_playable_witness :
  exists g,
    initGame (fun _ => 0) (fun _ => 1000%Z) (fun _ => "0") 0 0 = Some g
    /\ length (g_objects g) = 16%nat
    /\ isGameOver (g_objects g) = false.
Proof.
  assert (Hrnd : forall n : nat, 0 <= (fun _ : nat => 0) n < 1) by (intros; lra).
  destruct (X26_new_game_is_playable (fun _ => 0) (fun _ => 1000%Z)
              (fun _ => "0") 0 0 Hrnd)
    as (g & bodies & ais & a0 & a1 & Hrun & Hobjs & _ & Hlb & _ & Hla & _ & _
        & _ & _ & _ & _ & _ & Hover & _).
  exists g. split_and!; [exact Hrun | | exact Hover].
  rewrite Hobjs. cbn [length]. rewrite length_app, Hlb, Hla. reflexivity.
Defined.

Lemma map_get_set (k : string) (v : nat) (m : list (string * nat)) :
  map_get k (map_set k v m) = Some v.
Proof.
  unfold map_get. induction m as [|p rest IH]; cbn.
  - now rewrite String.eqb_refl.
  - destruct (String.eqb (fst p) k) eqn:Hk; cbn.
    + now rewrite String.eqb_refl.
    + rewrite Hk. exact IH.
Qed.

Lemma map_get_delete (k : string) (m : list (string * nat)) :
  map_get k (map_delete k m) = None.
Proof.
  unfold map_get, map_delete. induction m as [|p rest IH]; [reflexivity|].
  cbn. destruct (String.eqb (fst p) k) eqn:Hk; cbn; [exact IH|].
  rewrite Hk. exact IH.
Qed.

Lemma map_delete_set (k : string) (v : nat) (m : list (string * nat)) :
  map_get k m = None -> map_delete k (map_set k v m) = m.
Proof.
  unfold map_get, map_delete. induction m as [|p rest IH]; cbn.
  - now rewrite String.eqb_refl.
  - destruct (String.eqb (fst p) k) eqn:Hk; cbn; [discriminate|].
    intros Hrest. rewrite Hk. cbn. now rewrite IH.
Qed.

(** X27.  On the server a disconnection undoes a connection: when the id
    of the new connection is in use neither as a key of the players nor as
    the id of an object, connecting and then disconnecting leaves the map of
    players and the array of objects as they were. *)
Theorem X27_disconnect_undoes_connect (base36 show : R -> string) (now : Z)
    (r1 r2 : R) (s : ServerState) :
  unused_id (connection_id base36 now r1) s ->
  let '(playerId, s1) := connection base36 show now r1 r2 s in
  map_get playerId (sv_players s1) = Some (length (sv_store s))
  /\ sv_gameObjects s1 = sv_gameObjects s ++ [length (sv_store s)]
  /\ sv_players (handlePlayerDisconnect playerId s1) = sv_players s
  /\ sv_gameObjects (handlePlayerDisconnect playerId s1) = sv_gameObjects s.
Proof.
  intros [Hkey Hobjs]. unfold connection, handlePlayerDisconnect.
  cbn [sv_players sv_store sv_gameObjects]. rewrite map_get_set.
  cbn [sv_players sv_store sv_gameObjects].
  split_and!; [reflexivity | reflexivity | now apply map_delete_set |].
  rewrite List.filter_app. cbn [List.filter]. unfold other_id at 2.
  rewrite lookup_app_r, Nat.sub_diag by lia. cbn [lookup list_lookup Obj.id].
  rewrite String.eqb_refl. cbn [negb]. rewrite app_nil_r.
  apply filter_all. eapply Forall_impl; [exact Hobjs|].
  intros a (o & Ha & Hid). unfold other_id.
  rewrite lookup_app_l by (eapply lookup_lt_Some; exact Ha). rewrite Ha.
  apply negb_true_iff, String.eqb_neq. exact Hid.
Qed.

Lemma X27_disconnect_undoes_connect_witness :
  sv_players (handlePlayerDisconnect "player-2000-xyz"
                (snd (connection (fun _ => "xyz") (fun _ => "0") 2000 0 0
                        lone_server)))
    = sv_players lone_server
  /\ sv_gameObjects (handlePlayerDisconnect "player-2000-xyz"
                       (snd (connection (fun _ => "xyz") (fun _ => "0") 2000 0
                               0 lone_server)))
     = sv_gameObjects lone_server.
Proof.
  assert (Hfree : unused_id (connection_id (fun _ => "xyz") 2000 0) lone_server).
  { split; [reflexivity|]. repeat constructor. eexists. split; [reflexivity|].
    discriminate. }
  pose proof (X27_disconnect_undoes_connect (fun _ => "xyz") (fun _ => "0")
                2000 0 0 lone_server Hfree) as H.
  cbv beta iota delta [connection] in H. destruct H as (_ & _ & Hp & Ho).
  split; [exact Hp | exact Ho].
Defined.

Lemma connection_id_not_player (base36 : R -> string) (now : Z) (r : R) :
  connection_id base36 now r <> "player".
Proof. unfold connection_id. cbn. discriminate. Qed.

(** X28.  An update of a client overwrites the id of its game state on the
    server, and a disconnection then leaves a ghost: after a connection, an
    update with the object of a client whose id is ["player"], and the
    disconnection, the player is gone from the map of players, but its
    game state is still in the array of objects, under the id ["player"],
    and still in what the server broadcasts. *)
Theorem X28_renamed_player_is_never_removed (base36 show : R -> string)
    (now : Z) (r1 r2 : R) (o : GameObject) (s : ServerState) :
  Obj.id o = "player" ->
  let '(playerId, s1) := connection base36 show now r1 r2 s in
  let s2 := handlePlayerMessage playerId (UpdateMessage (Some (toJSON o))) s1 in
  let s3 := handlePlayerDisconnect playerId s2 in
  map_get playerId (sv_players s3) = None
  /\ length (sv_store s) ∈ sv_gameObjects s3
  /\ exists ghost,
       sv_store s3 !! length (sv_store s) = Some ghost
       /\ ghost ∈ sn_objects (snapshot s3)
       /\ Obj.id ghost = "player"
       /\ Obj.x ghost = Obj.x o /\ Obj.y ghost = Obj.y o
       /\ Obj.mass ghost = Obj.mass o.
Proof.
  intros Hid. unfold connection, handlePlayerMessage.
  cbn [sv_players sv_store sv_gameObjects]. rewrite map_get_set.
  unfold handlePlayerDisconnect.
  cbn [sv_players sv_store sv_gameObjects]. rewrite map_get_set.
  cbn [sv_players sv_store sv_gameObjects].
  set (pid := connection_id base36 now r1).
  set (a := length (sv_store s)).
  set (gs := Obj.mk pid 0 0 0 0 8 6 player _ _ _ false None None None None).
  set (store3 := alter (fun o0 => Object_assign o0 (toJSON o)) a
                   (sv_store s ++ [gs])).
  assert (Hghost : store3 !! a = Some (Object_assign gs (toJSON o))).
  { unfold store3. rewrite list_lookup_alter.
    unfold a. rewrite lookup_app_r, Nat.sub_diag by lia.
    destruct (decide _); [reflexivity | congruence]. }
  assert (Hkept : a ∈ List.filter (other_id store3 pid)
                        (sv_gameObjects s ++ [a])).
  { apply list_elem_of_In, filter_In. split.
    - apply in_or_app. right. now left.
    - unfold other_id. rewrite Hghost. cbn [Object_assign toJSON Wire.id default
        Obj.id]. rewrite Hid. apply negb_true_iff, String.eqb_neq.
      intros Heq. symmetry in Heq.
      exact (connection_id_not_player base36 now r1 Heq). }
  split_and!; [apply map_get_delete | exact Hkept |].
  exists (Object_assign gs (toJSON o)). split_and!; try reflexivity.
  - exact Hghost.
  - unfold snapshot. cbn [sn_objects sv_store sv_gameObjects].
    apply list_elem_of_omap. exists a. split; [exact Hkept | exact Hghost].
  - cbn. exact Hid.
Qed.

Lemma X28_renamed_player_is_never_removed_witness :
  map_get "player-1000-abc"
    (sv_players
       (handlePlayerDisconnect "player-1000-abc"
          (handlePlayerMessage "player-1000-abc"
             (UpdateMessage (Some (toJSON newPlayer))) lone_server))) = None
  /\ 0%nat ∈ sv_gameObjects
       (handlePlayerDisconnect "player-1000-abc"
          (handlePlayerMessage "player-1000-abc"
             (UpdateMessage (Some (toJSON newPlayer))) lone_server)).
Proof.
  pose proof (X28_renamed_player_is_never_removed (fun _ => "abc")
                (fun _ => "0") 1000 0 0 newPlayer (mkServer [] [] [] 0)
                eq_refl) as H.
  cbv beta iota delta [connection] in H. destruct H as (Hp & Ho & _).
  split; [exact Hp | exact Ho].
Defined.

Lemma fold_alter_lookup (f : GameObject -> GameObject) (l : list nat)
    (store : list GameObject) (a : nat) :
  fold_left (fun st i => alter f i st) l store !! a
    = Nat.iter (visits a l) f <$> store !! a.
Proof.
  revert store. induction l as [|i rest IH]; intros store.
  - cbn. now destruct (store !! a).
  - cbn [fold_left]. rewrite IH, list_lookup_alter. unfold visits.
    cbn [count_occ]. destruct (decide (i = a)) as [-> | Hne].
    + destruct (Nat.eq_dec a a) as [_ | Hn]; [|congruence].
      destruct (store !! a); [|reflexivity]. cbn [fmap option_fmap option_map].
      now rewrite Nat.iter_succ_r.
    + destruct (Nat.eq_dec i a) as [He | _]; [congruence | reflexivity].
Qed.

Lemma fold_alter_players (f : GameObject -> GameObject)
    (players : list (string * nat)) (store : list GameObject) :
  fold_left (fun st p => alter f (snd p) st) players store
    = fold_left (fun st i => alter f i st) (snd <$> players) store.
Proof.
  revert store. induction players as [|p rest IH]; intros store;
    [reflexivity|]. cbn. apply IH.
Qed.

Lemma advance_type (dt : R) (n : nat) (o : GameObject) :
  Obj.type (Nat.iter n (advance dt) o) = Obj.type o.
Proof. induction n as [|n IH]; [reflexivity|]. cbn. exact IH. Qed.

Lemma advance_id (dt : R) (n : nat) (o : GameObject) :
  Obj.id (Nat.iter n (advance dt) o) = Obj.id o.
Proof. induction n as [|n IH]; [reflexivity|]. cbn. exact IH. Qed.

Lemma advanceOther_iter (dt : R) (n : nat) (o : GameObject) :
  Nat.iter n (advanceOther dt) o
    = if is_player (Obj.type o) then o else Nat.iter n (advance dt) o.
Proof.
  induction n as [|n IH]; cbn [Nat.iter nat_rect].
  - now destruct (is_player _).
  - change (nat_rect _ o (fun _ => advanceOther dt) n)
      with (Nat.iter n (advanceOther dt) o).
    change (nat_rect _ o (fun _ => advance dt) n)
      with (Nat.iter n (advance dt) o).
    rewrite IH. unfold advanceOther at 1.
    destruct (is_player (Obj.type o)) eqn:Hp; [now rewrite Hp|].
    now rewrite advance_type, Hp.
Qed.

Lemma updateGameState_lookup (dt : R) (s : ServerState) (a : nat)
    (o : GameObject) :
  sv_store s !! a = Some o ->
  sv_store (updateGameState dt s) !! a
    = Some (Nat.iter
              ((if is_player (Obj.type o) then 0
                else visits a (sv_gameObjects s))
               + visits a (snd <$> sv_players s))
              (advance dt) o).
Proof.
  intros Ho. unfold updateGameState. cbn [sv_store].
  rewrite fold_alter_lookup, fold_alter_players, fold_alter_lookup, Ho.
  cbn [fmap option_fmap option_map]. rewrite advanceOther_iter, advance_type.
  destruct (is_player (Obj.type o)); [reflexivity|].
  now rewrite Nat.iter_add.
Qed.

(** X29.  A tick of the server moves the game state of a connected player
    (which is once in the map of players and once in the array of objects)
    by its velocity times the time since the last tick, and then takes
    0.2% off the velocity, once if the type of the state is ["player"] and
    twice if an update has given it another type; the map and the array are
    as before, and so are the id, the type, the mass and the energy. *)
Theorem X29_server_tick_moves_players (dt : R) (s : ServerState) (a : nat)
    (o : GameObject) :
  sv_store s !! a = Some o ->
  visits a (snd <$> sv_players s) = 1%nat ->
  visits a (sv_gameObjects s) = 1%nat ->
  let s' := updateGameState dt s in
  sv_players s' = sv_players s /\ sv_gameObjects s' = sv_gameObjects s
  /\ exists o',
       sv_store s' !! a = Some o'
       /\ o' = (if is_player (Obj.type o) then advance dt o
                else advance dt (advance dt o))
       /\ Obj.id o' = Obj.id o /\ Obj.type o' = Obj.type o
       /\ Obj.mass o' = Obj.mass o /\ Obj.energy o' = Obj.energy o
       /\ (is_player (Obj.type o) = true ->
           Obj.x o' = Obj.x o + Obj.vx o * dt
           /\ Obj.y o' = Obj.y o + Obj.vy o * dt
           /\ Obj.vx o' = Obj.vx o * 0.998 /\ Obj.vy o' = Obj.vy o * 0.998).
Proof.
  intros Ho Hp Hg s'. split_and!; [reflexivity | reflexivity |].
  unfold s'. rewrite (updateGameState_lookup dt s a o Ho), Hp, Hg.
  eexists. split; [reflexivity|].
  destruct (is_player (Obj.type o)); cbn; split_and!; try reflexivity;
    try discriminate.
  intros _. now split_and!.
Qed.

Lemma X29_server_tick_moves_players_witness :
  (exists o',
     sv_store (updateGameState 0.5 odd_server) !! 0%nat = Some o'
     /\ Obj.x o' = 0 + 10 * 0.5 + 10 * 0.998 * 0.5)
  /\ sv_gameObjects (updateGameState 0.5 odd_server)
     = sv_gameObjects odd_server.
Proof.
  assert (Ho : exists o, sv_store odd_server !! 0%nat = Some o
                         /\ Obj.type o = asteroid /\ Obj.x o = 0
                         /\ Obj.vx o = 10).
  { eexists. split; [reflexivity|]. now split_and!. }
  destruct Ho as (o & Ho & Ht & Hx & Hv).
  destruct (X29_server_tick_moves_players 0.5 odd_server 0 o Ho eq_refl
              eq_refl) as (_ & Hg & o' & Ho' & Heq & _).
  split; [|exact Hg]. exists o'. split; [exact Ho'|].
  rewrite Heq, Ht. cbn. rewrite Hx, Hv. reflexivity.
Defined.

Lemma fold_alter_length (f : GameObject -> GameObject) (l : list nat)
    (store : list GameObject) :
  length (fold_left (fun st i => alter f i st) l store) = length store.
Proof.
  revert store. induction l as [|i rest IH]; intros store; [reflexivity|].
  cbn. now rewrite IH, length_alter.
Qed.

Lemma updateGameState_ids (dt : R) (s : ServerState) (k : string) :
  Forall (fun o => Obj.id o <> k) (sv_store s) ->
  Forall (fun o => Obj.id o <> k) (sv_store (updateGameState dt s)).
Proof.
  intros Hids. apply Forall_lookup. intros a o' Ha.
  destruct (sv_store s !! a) as [o|] eqn:Ho.
  - rewrite (updateGameState_lookup dt s a o Ho) in Ha.
    injection Ha as <-. rewrite advance_id.
    rewrite Forall_lookup in Hids. exact (Hids a o Ho).
  - apply lookup_lt_Some in Ha. apply lookup_ge_None in Ho.
    unfold updateGameState in Ha. cbn [sv_store] in Ha.
    rewrite fold_alter_length, fold_alter_players, fold_alter_length in Ha.
    lia.
Qed.

Lemma untouched_ids (s : ServerState) :
  untouched s -> Forall (fun o => Obj.id o <> "player") (sv_store s).
Proof.
  induction 1 as [now | base36 show now r1 r2 s _ IH | playerId s _ IH
                 | now s _ IH | playerId s _ IH | playerId s _ IH].
  - apply Forall_nil_2.
  - cbn. apply Forall_app. split; [exact IH|].
    apply Forall_cons_2; [|apply Forall_nil_2].
    cbn. apply connection_id_not_player.
  - unfold handlePlayerDisconnect. now destruct (map_get _ _).
  - unfold serverLoop. cbn [fst]. apply updateGameState_ids. exact IH.
  - unfold handlePlayerMessage. now destruct (map_get _ _).
  - unfold handlePlayerMessage. now destruct (map_get _ _).
Qed.

(** X30.  The world of a server that no client has updated ends the game
    of the client that takes it: in that world, whether it comes with the
    message of a tick or with the one that greets a connection, every id is
    the id of a connection, none is ["player"], and the test that opens
    [gameLoop] on the client finds the game over. *)
Theorem X30_untouched_server_world_ends_the_game (s : ServerState)
    (c : Client) (playerId : option string) (data : ServerMessage) :
  untouched s ->
  data = GameStateMessage (Some (snapshot s))
  \/ data = InitMessage playerId (Some (snapshot s)) ->
  cl_objects (handleServerMessage data c) = sn_objects (snapshot s)
  /\ isGameOver (cl_objects (handleServerMessage data c)) = true.
Proof.
  intros Hs Hdata.
  assert (Hobjs : cl_objects (handleServerMessage data c)
                  = sn_objects (snapshot s)).
  { destruct Hdata as [-> | ->]; reflexivity. }
  split; [exact Hobjs|]. rewrite Hobjs. unfold isGameOver.
  destruct (List.find _ _) as [o|] eqn:Hfind; [|reflexivity].
  apply find_some in Hfind as [Hin Hid].
  apply list_elem_of_In, list_elem_of_omap in Hin as (a & _ & Ha).
  pose proof (untouched_ids s Hs) as Hids. rewrite Forall_lookup in Hids.
  apply String.eqb_eq in Hid. now destruct (Hids a o Ha).
Qed.

Lemma X30_untouched_server_world_ends_the_game_witness :
  isGameOver
    (cl_objects
       (handleServerMessage
          (GameStateMessage (Some (snapshot (fst (serverLoop 1016 lone_server)))))
          (mkClient [newPlayer] (PAt 0) []))) = true.
Proof.
  assert (Hs : untouched (fst (serverLoop 1016 lone_server))).
  { apply untouched_loop, untouched_connection, untouched_new. }
  apply (X30_untouched_server_world_ends_the_game
           (fst (serverLoop 1016 lone_server))
           (mkClient [newPlayer] (PAt 0) []) None
           (GameStateMessage (Some (snapshot (fst (serverLoop 1016 lone_server)))))
           Hs).
  left. reflexivity.
Defined.
